(** * terrasync scan: a shallow embedding of the scan pipeline

    The development follows the Go sources of the [scan] command:
    - [object.FileInfo] and the path helpers of [path/filepath] it is read with,
    - the catalog projection [db.ProcessFileInfo] (db/sqlite.go),
    - the statistics aggregator [scan.Stats] (app/scan/stat.go, report.go),
    - the predicate compiler and evaluator (app/scan/filter.go, utils.go),
    - the directory walker [scan.ListAll] and the incremental diff engine
      [scan.ProcessFilesForIncrementalScan] (app/scan/scan.go).

    Conventions.
    - A Go [string] is a Rocq [string] (a sequence of bytes).  Case mapping and
      white space are the ASCII ones, which is what the Go functions do on
      ASCII text.
    - [int64] and [int] values are integers of [Z]; arithmetic that can wrap is
      wrapped explicitly with [wrap64].
    - A [time.Time] is the instant it denotes, in nanoseconds; a
      [time.Duration] is a number of nanoseconds.
    - Paths use the POSIX separator (the [filepath] functions of a non-Windows
      build).
    - A channel is modelled by the sequence of values sent over it; goroutines
      are composed in one fixed schedule.  A channel that is read while it is
      written never fills, so its buffer size plays no part; the one channel
      that is only read once its writer has ended, the channel of candidates
      of the incremental engine, is modelled with its capacity.
    - A run that panics, or that never returns, has no result: [None]. *)

From Stdlib Require Import ZArith QArith Qround Ascii String List Bool Lia.
From Stdlib Require Import DecimalString.
From stdpp Require Import base option list gmap strings.

Local Open Scope string_scope.
Local Open Scope list_scope.
Local Open Scope Z_scope.

Set Warnings "-register-all".

(** ** Machine integers *)

Module Int64.

Definition min_int : Z := - 2 ^ 63.
Definition max_int : Z := 2 ^ 63 - 1.

(** Two's complement wrap-around of 64-bit signed arithmetic. *)
Definition wrap64 (z : Z) : Z := (z + 2 ^ 63) mod 2 ^ 64 - 2 ^ 63.

Definition in_range (z : Z) : Prop := min_int <= z <= max_int.

Definition add (a b : Z) : Z := wrap64 (a + b).

(** Integer division of Go: a zero divisor is a run-time panic ([None]);
    otherwise the quotient is truncated toward zero (and wraps for
    [min_int / -1]). *)
Definition quot (a b : Z) : Z := wrap64 (Z.quot a b).

Definition div (a b : Z) : option Z :=
  if b =? 0 then None else Some (quot a b).

End Int64.

(** ** Strings of the Go runtime *)

Module Strings.

Definition is_upper (c : ascii) : bool :=
  let n := nat_of_ascii c in (65 <=? n)%nat && (n <=? 90)%nat.

Definition lower_char (c : ascii) : ascii :=
  if is_upper c then ascii_of_nat (nat_of_ascii c + 32) else c.

(** [strings.ToLower]. *)
Fixpoint ToLower (s : string) : string :=
  match s with
  | EmptyString => EmptyString
  | String c r => String (lower_char c) (ToLower r)
  end.

(** White space of [strings.TrimSpace] on ASCII text:
    tab, line feed, vertical tab, form feed, carriage return, space. *)
Definition is_space (c : ascii) : bool :=
  let n := nat_of_ascii c in
  ((9 <=? n)%nat && (n <=? 13)%nat) || (n =? 32)%nat.

Fixpoint drop_while (p : ascii -> bool) (s : string) : string :=
  match s with
  | EmptyString => EmptyString
  | String c r => if p c then drop_while p r else s
  end.

(** The string without its longest suffix of characters satisfying [p]. *)
Fixpoint drop_while_end (p : ascii -> bool) (s : string) : string :=
  match s with
  | EmptyString => EmptyString
  | String c r =>
      match drop_while_end p r with
      | EmptyString => if p c then EmptyString else String c EmptyString
      | r' => String c r'
      end
  end.

(** [strings.TrimSpace]. *)
Definition TrimSpace (s : string) : string :=
  drop_while_end is_space (drop_while is_space s).

Fixpoint mem_char (c : ascii) (cutset : string) : bool :=
  match cutset with
  | EmptyString => false
  | String d r => Ascii.eqb c d || mem_char c r
  end.

(** [strings.Trim s cutset]. *)
Definition Trim (s cutset : string) : string :=
  drop_while_end (fun c => mem_char c cutset)
                 (drop_while (fun c => mem_char c cutset) s).

(** [strings.HasPrefix s p], returning the rest of [s] after [p]. *)
Fixpoint strip_prefix (p s : string) : option string :=
  match p with
  | EmptyString => Some s
  | String a p' =>
      match s with
      | EmptyString => None
      | String b s' => if Ascii.eqb a b then strip_prefix p' s' else None
      end
  end.

(** [strings.Contains s sub]. *)
Fixpoint Contains (s sub : string) : bool :=
  match strip_prefix sub s with
  | Some _ => true
  | None =>
      match s with
      | EmptyString => false
      | String _ r => Contains r sub
      end
  end.

(** [strings.Split s sep] for a separator of one or more bytes: the pieces
    between the non-overlapping occurrences of [sep], scanned left to right.
    [cur] is the piece being read; [skip] counts the bytes of a separator
    found earlier that are still to be passed over. *)
Fixpoint split_go (sep s : string) (skip : nat) (cur : string) : list string :=
  match s with
  | EmptyString => [cur]
  | String c r =>
      match skip with
      | S k => split_go sep r k cur
      | O =>
          match strip_prefix sep s with
          | Some _ => cur :: split_go sep r (String.length sep - 1) EmptyString
          | None => split_go sep r 0 (cur +:+ String c EmptyString)
          end
      end
  end.

Definition Split (s sep : string) : list string := split_go sep s 0 EmptyString.

(** [strings.Replace s old new (-1)] for a one-byte [old]. *)
Fixpoint ReplaceChar (s : string) (old : ascii) (new : string) : string :=
  match s with
  | EmptyString => EmptyString
  | String c r =>
      if Ascii.eqb c old then new +:+ ReplaceChar r old new
      else String c (ReplaceChar r old new)
  end.

(** [strings.Count s sep] for a one-byte separator. *)
Fixpoint CountChar (s : string) (sep : ascii) : Z :=
  match s with
  | EmptyString => 0
  | String c r => (if Ascii.eqb c sep then 1 else 0) + CountChar r sep
  end.

Fixpoint Join (l : list string) (sep : string) : string :=
  match l with
  | [] => EmptyString
  | [x] => x
  | x :: r => x +:+ sep +:+ Join r sep
  end.

Definition len (s : string) : Z := Z.of_nat (String.length s).

Fixpoint has_upper (s : string) : bool :=
  match s with
  | EmptyString => false
  | String c r => is_upper c || has_upper r
  end.

End Strings.

(** ** [path/filepath] on a POSIX build *)

Module Filepath.

Definition Separator : ascii := "/"%char.

Definition IsPathSeparator (c : ascii) : bool := Ascii.eqb c Separator.

Definition chars (s : string) : list ascii := list_ascii_of_string s.
Definition str (l : list ascii) : string := string_of_list_ascii l.

Fixpoint drop_while (p : ascii -> bool) (l : list ascii) : list ascii :=
  match l with
  | [] => []
  | c :: r => if p c then drop_while p r else l
  end.

Fixpoint take_while (p : ascii -> bool) (l : list ascii) : list ascii :=
  match l with
  | [] => []
  | c :: r => if p c then c :: take_while p r else []
  end.

(** The loop of [filepath.Ext]: [i] runs from the last byte downwards until a
    separator; [rev_path] holds the bytes [path[i]], [path[i-1]], ..., and
    [suffix] is [path[i+1:]]. *)
Fixpoint ext_scan (rev_path : list ascii) (suffix : string) : string :=
  match rev_path with
  | [] => EmptyString
  | c :: r =>
      if IsPathSeparator c then EmptyString
      else if Ascii.eqb c "."%char then String c suffix
      else ext_scan r (String c suffix)
  end.

(** [filepath.Ext]: the suffix beginning at the final dot in the final
    element of [path]; empty if there is no dot. *)
Definition Ext (path : string) : string := ext_scan (rev (chars path)) EmptyString.

(** [filepath.Base]: the last element of [path], trailing separators
    removed first; ["."] for the empty path, ["/"] for a path of separators. *)
Definition Base (path : string) : string :=
  if (path =? EmptyString)%string then "."
  else
    let stripped := drop_while IsPathSeparator (rev (chars path)) in
    let last := rev (take_while (fun c => negb (IsPathSeparator c)) stripped) in
    match last with
    | [] => String Separator EmptyString
    | _ => str last
    end.

(** One path element of [filepath.Clean]; [out] is the stack of the elements
    kept so far, the last one first. *)
Definition clean_step (rooted : bool) (out : list string) (elem : string) : list string :=
  if (elem =? EmptyString)%string || (elem =? ".")%string then out
  else if (elem =? "..")%string then
    match out with
    | top :: rest => if (top =? "..")%string then elem :: out else rest
    | [] => if rooted then [] else [elem]
    end
  else elem :: out.

(** [filepath.Clean]: the shortest equivalent path by lexical processing. *)
Definition Clean (path : string) : string :=
  if (path =? EmptyString)%string then "."
  else
    let rooted := match path with String c _ => IsPathSeparator c | _ => false end in
    let out := fold_left (clean_step rooted) (Strings.Split path "/") [] in
    let body := Strings.Join (rev out) "/" in
    if rooted then String Separator body
    else if (body =? EmptyString)%string then "." else body.

(** [filepath.Dir]: all but the last element of [path], cleaned. *)
Definition Dir (path : string) : string :=
  let prefix := rev (drop_while (fun c => negb (IsPathSeparator c)) (rev (chars path))) in
  Clean (str prefix).

(** [filepath.Join] of a directory and a name. *)
Definition Join2 (dir name : string) : string :=
  if (dir =? EmptyString)%string && (name =? EmptyString)%string then EmptyString
  else if (dir =? EmptyString)%string then Clean name
  else if (name =? EmptyString)%string then Clean dir
  else Clean (dir +:+ "/" +:+ name).

End Filepath.

(** ** Entries *)

(** The observable attributes of an [object.FileInfo]. *)
Record FileInfo := mkFileInfo {
  Key : string;
  Size : Z;
  MTime : Z;
  CTime : Z;
  ATime : Z;
  Perm : Z;
  IsDir : bool;
  IsSymlink : bool;
  IsRegular : bool;
  IsSticky : bool
}.

(** ** Catalog rows (db/sqlite.go) *)

Module Db.

Record FileInfoData := mkFileInfoData {
  dKey : string;
  dSize : Z;
  dExt : string;
  dCTime : Z;
  dMTime : Z;
  dATime : Z;
  dPerm : Z;
  dIsSymlink : bool;
  dIsDir : bool;
  dIsRegular : bool
}.

(** [ProcessFileInfo]: the extension is taken from the key of a
    non-directory and left empty for a directory. *)
Definition ProcessFileInfo (fileInfo : FileInfo) : FileInfoData :=
  let key := Key fileInfo in
  let isDir := IsDir fileInfo in
  let ext := if negb isDir then Filepath.Ext key else EmptyString in
  {| dKey := key;
     dSize := Size fileInfo;
     dExt := ext;
     dCTime := CTime fileInfo;
     dMTime := MTime fileInfo;
     dATime := ATime fileInfo;
     dPerm := Perm fileInfo;
     dIsSymlink := IsSymlink fileInfo;
     dIsDir := isDir;
     dIsRegular := IsRegular fileInfo |}.

End Db.

(** ** Statistics aggregator (app/scan/stat.go) *)

Module Stat.

Record Stats := mkStats {
  fileCount : Z;
  dirCount : Z;
  totalSize : Z;
  totalSymlink : Z;
  totalRegularFile : Z;
  totalNameLength : Z;
  maxNameLength : Z;
  totalDirDepth : Z;
  maxDirDepth : Z
}.

Definition NewStats : Stats := mkStats 0 0 0 0 0 0 0 0 0.

(** The directory depth that [Update] computes for a key: the separators
    of [filepath.Dir key], and 0 when that is the root or ["."]. *)
Definition dir_depth (key : string) : Z :=
  let path := Filepath.Dir key in
  if (path =? "/")%string || (path =? ".")%string then 0
  else Strings.CountChar path Filepath.Separator.

(** [Stats.Update]: a directory only counts as a directory; the size, name
    and depth counters are touched in the [else] branch, for the other
    entries; a symlink is counted in both cases. *)
Definition Update (s : Stats) (fileInfo : FileInfo) : Stats :=
  let key := Key fileInfo in
  let s1 :=
    if IsDir fileInfo then
      mkStats (fileCount s) (Int64.add (dirCount s) 1) (totalSize s)
              (totalSymlink s) (totalRegularFile s) (totalNameLength s)
              (maxNameLength s) (totalDirDepth s) (maxDirDepth s)
    else
      let name := Filepath.Base key in
      let nameLength := Strings.len name in
      let depth := dir_depth key in
      mkStats (Int64.add (fileCount s) 1) (dirCount s)
              (Int64.add (totalSize s) (Size fileInfo))
              (totalSymlink s)
              (if IsRegular fileInfo then Int64.add (totalRegularFile s) 1
               else totalRegularFile s)
              (Int64.add (totalNameLength s) nameLength)
              (if maxNameLength s <? nameLength then nameLength else maxNameLength s)
              (Int64.add (totalDirDepth s) depth)
              (if maxDirDepth s <? depth then depth else maxDirDepth s)
  in
  if IsSymlink fileInfo then
    mkStats (fileCount s1) (dirCount s1) (totalSize s1)
            (Int64.add (totalSymlink s1) 1) (totalRegularFile s1)
            (totalNameLength s1) (maxNameLength s1) (totalDirDepth s1)
            (maxDirDepth s1)
  else s1.

Definition GetFileCount (s : Stats) : Z := fileCount s.
Definition GetDirCount (s : Stats) : Z := dirCount s.
Definition GetTotalSize (s : Stats) : Z := totalSize s.
Definition GetTotalSymlink (s : Stats) : Z := totalSymlink s.
Definition GetMaxNameLength (s : Stats) : Z := maxNameLength s.
Definition GetMaxDirDepth (s : Stats) : Z := maxDirDepth s.

(** [GetAvgNameLength]: guarded against an empty count. *)
Definition GetAvgNameLength (s : Stats) : Z :=
  let count := fileCount s in
  if count =? 0 then 0 else Int64.quot (totalNameLength s) count.

(** [GetAvgDirDepth]: guarded in the same way. *)
Definition GetAvgDirDepth (s : Stats) : Z :=
  let count := fileCount s in
  if count =? 0 then 0 else Int64.quot (totalDirDepth s) count.

(** The numbers [Stats.Print] writes, in the order it writes them.  The
    average size is computed by an unguarded division, so the function
    yields [None] (a run-time panic) when that division has a zero divisor. *)
Record Printed := mkPrinted {
  pTotal : Z; pFiles : Z; pDirs : Z;
  pTotalSize : Z; pAverageSize : Z;
  pAvgName : Z; pMaxName : Z;
  pAvgDepth : Z; pMaxDepth : Z
}.

Definition Print (s : Stats) : option Printed :=
  let fileCount := GetFileCount s in
  let dirCount := GetDirCount s in
  let totalSize := GetTotalSize s in
  averageSizeBytes ← Int64.div totalSize fileCount;
  Some (mkPrinted (Int64.add fileCount dirCount) fileCount dirCount
                  totalSize averageSizeBytes
                  (GetAvgNameLength s) (GetMaxNameLength s)
                  (GetAvgDirDepth s) (GetMaxDirDepth s)).

(** The numbers of [GenerateConsoleReportSummary] (report.go); [extCount] is
    the result of the catalog's [GetUniqueExtCount], 0 when that fails. *)
Record Summary := mkSummary {
  sTotalFiles : Z; sFileCount : Z; sDirCount : Z; sSymlinkCount : Z;
  sExtCount : Z; sTotalSize : Z; sAverageSize : Z;
  sAverageNameLength : Z; sMaxNameLength : Z;
  sAverageDirDepth : Z; sMaxDirDepth : Z
}.

Definition GenerateConsoleReportSummary (stats : Stats) (extCount : Z)
  : option Summary :=
  let fileCount := GetFileCount stats in
  let dirCount := GetDirCount stats in
  let symlinkCount := GetTotalSymlink stats in
  let totalSize := GetTotalSize stats in
  averageSizeBytes ← Int64.div totalSize fileCount;
  let averageNameLength := GetAvgNameLength stats in
  let maxNameLength := GetMaxNameLength stats in
  let averageDirDepth := GetAvgDirDepth stats in
  let maxDirDepth := GetMaxDirDepth stats in
  let totalFiles := Int64.add fileCount dirCount in
  Some (mkSummary totalFiles fileCount dirCount symlinkCount extCount
                  totalSize averageSizeBytes averageNameLength maxNameLength
                  averageDirDepth maxDirDepth).

(** The statistics tap of [ProcessFilesForFullScan]: one [Update] per entry
    received from the walker. *)
Definition scan_stats (entries : list FileInfo) : Stats :=
  fold_left Update entries NewStats.

End Stat.

(** ** Regular expressions ([regexp.MatchString])

    The fragment of the RE2 syntax modelled here: literal bytes, [.], the
    postfix operators [*], [+], [?] (and their non-greedy forms), alternation
    [|], groups [( )], and the anchors [^] and [$].  As in a Go pattern
    compiled without flags, [.] matches any character but a line feed, [^]
    matches at the beginning of the text and [$] at its end.  A pattern that
    Go rejects is a [SyntaxError]; a pattern that uses syntax outside the
    fragment (classes, escapes, counted repetition, flags) is [Unsupported]. *)

Module Regexp.

Inductive re :=
| Fail
| Eps
| Chr (c : ascii)
| AnyNotNL
| AnyChar
| Bot
| Eot
| Cat (a b : re)
| Alt (a b : re)
| Star (a : re).

Inductive error := SyntaxError | Unsupported.

Definition newline : ascii := ascii_of_nat 10.
Definition backslash : ascii := ascii_of_nat 92.

(** [null bot eot r]: [r] matches the empty string at a position that is
    the beginning of the text iff [bot], and its end iff [eot]. *)
Fixpoint null (bot eot : bool) (r : re) : bool :=
  match r with
  | Fail => false
  | Eps => true
  | Chr _ | AnyNotNL | AnyChar => false
  | Bot => bot
  | Eot => eot
  | Cat a b => null bot eot a && null bot eot b
  | Alt a b => null bot eot a || null bot eot b
  | Star _ => true
  end.

(** The derivative of [r] by the character [c] read at a position that is
    the beginning of the text iff [bot]. *)
Fixpoint deriv (bot : bool) (c : ascii) (r : re) : re :=
  match r with
  | Fail | Eps | Bot | Eot => Fail
  | Chr d => if Ascii.eqb c d then Eps else Fail
  | AnyNotNL => if Ascii.eqb c newline then Fail else Eps
  | AnyChar => Eps
  | Cat a b =>
      Alt (Cat (deriv bot c a) b)
          (if null bot false a then deriv bot c b else Fail)
  | Alt a b => Alt (deriv bot c a) (deriv bot c b)
  | Star a => Cat (deriv bot c a) (Star a)
  end.

(** [run bot r s]: [r] matches the whole of [s], which ends the text and
    begins it iff [bot]. *)
Fixpoint run (bot : bool) (r : re) (s : string) : bool :=
  match s with
  | EmptyString => null bot true r
  | String c s' => run false (deriv bot c r) s'
  end.

(** An unanchored search: [r] matches some substring of [s]. *)
Definition search (r : re) (s : string) : bool :=
  run true (Cat (Star AnyChar) (Cat r (Star AnyChar))) s.

(** *** The parser *)

(** A group being read: the alternatives closed so far and the items of the
    current one, both with the last one first. *)
Record frame := mkFrame { alts : list re; cur : list re }.

Record pstate := mkPState {
  top : frame;               (* the innermost open group *)
  stack : list frame;        (* the enclosing groups *)
  last_rep : bool;           (* the previous item was a repetition *)
  lazy_ok : bool;            (* a [?] here makes that repetition non-greedy *)
  after_open : bool          (* the previous character was [(] *)
}.

Definition mk_cat (items : list re) : re := fold_right Cat Eps items.
Definition mk_alt (branches : list re) : re := fold_right Alt Fail branches.

Definition close_frame (f : frame) : re :=
  mk_alt (rev (mk_cat (rev (cur f)) :: alts f)).

Definition push_item (st : pstate) (r : re) : pstate :=
  mkPState (mkFrame (alts (top st)) (r :: cur (top st))) (stack st)
           false false false.

Definition repeat (st : pstate) (f : re -> re) : error + pstate :=
  if last_rep st then inl SyntaxError
  else
    match cur (top st) with
    | [] => inl SyntaxError
    | a :: rest =>
        inr (mkPState (mkFrame (alts (top st)) (f a :: rest)) (stack st)
                      true true false)
    end.

Definition step (st : pstate) (c : ascii) : error + pstate :=
  if Ascii.eqb c backslash || Ascii.eqb c "["%char || Ascii.eqb c "{"%char
  then inl Unsupported
  else if Ascii.eqb c "("%char then
    inr (mkPState (mkFrame [] []) (top st :: stack st) false false true)
  else if Ascii.eqb c ")"%char then
    match stack st with
    | [] => inl SyntaxError
    | f :: rest =>
        inr (mkPState (mkFrame (alts f) (close_frame (top st) :: cur f)) rest
                      false false false)
    end
  else if Ascii.eqb c "|"%char then
    inr (mkPState (mkFrame (mk_cat (rev (cur (top st))) :: alts (top st)) [])
                  (stack st) false false false)
  else if Ascii.eqb c "*"%char then repeat st Star
  else if Ascii.eqb c "+"%char then repeat st (fun a => Cat a (Star a))
  else if Ascii.eqb c "?"%char then
    if after_open st then inl Unsupported
    else if lazy_ok st then
      inr (mkPState (top st) (stack st) true false false)
    else repeat st (fun a => Alt a Eps)
  else if Ascii.eqb c "."%char then inr (push_item st AnyNotNL)
  else if Ascii.eqb c "^"%char then inr (push_item st Bot)
  else if Ascii.eqb c "$"%char then inr (push_item st Eot)
  else inr (push_item st (Chr c)).

Fixpoint parse_go (s : string) (st : pstate) : error + re :=
  match s with
  | EmptyString =>
      match stack st with
      | [] => inr (close_frame (top st))
      | _ :: _ => inl SyntaxError
      end
  | String c r =>
      match step st c with
      | inl e => inl e
      | inr st' => parse_go r st'
      end
  end.

Definition init : pstate := mkPState (mkFrame [] []) [] false false false.

Definition Compile (pattern : string) : error + re := parse_go pattern init.

(** [regexp.MatchString pattern s]. *)
Definition MatchString (pattern s : string) : error + bool :=
  match Compile pattern with
  | inl e => inl e
  | inr r => inr (search r s)
  end.

End Regexp.

(** ** Predicate compiler and evaluator (app/scan/filter.go, utils.go) *)

Module Strconv.

Definition digit_val (c : ascii) : option Z :=
  let n := nat_of_ascii c in
  if (48 <=? n)%nat && (n <=? 57)%nat then Some (Z.of_nat n - 48) else None.

(** Reads a run of decimal digits: the number read after [acc], how many
    digits were read, and the rest. *)
Fixpoint read_digits (s : string) (acc : Z) (n : nat) : Z * nat * string :=
  match s with
  | EmptyString => (acc, n, s)
  | String c r =>
      match digit_val c with
      | Some d => read_digits r (10 * acc + d) (S n)
      | None => (acc, n, s)
      end
  end.

Definition read_sign (s : string) : bool * string :=
  match s with
  | String "-" r => (true, r)
  | String "+" r => (false, r)
  | _ => (false, s)
  end.

(** The decimal exponent after the mantissa: nothing, or [e]/[E], an
    optional sign and at least one digit up to the end of the string. *)
Definition read_exponent (s : string) : option Z :=
  match s with
  | EmptyString => Some 0
  | String c r =>
      if Ascii.eqb c "e"%char || Ascii.eqb c "E"%char then
        let '(neg, r1) := read_sign r in
        match read_digits r1 0 0 with
        | (_, O, _) => None
        | (e, S _, EmptyString) => Some (if neg then - e else e)
        | (_, S _, String _ _) => None
        end
      else None
  end.

(** [strconv.ParseFloat s 64] on decimal literals
    ([[+-]digits[.digits][e[+-]digits]]), as the exact rational the literal
    denotes.  The binary64 rounding of Go is not modelled: the two agree on
    the literals that are representable (0.5, 24, 1.5, ...).  Hexadecimal
    literals, infinities and NaN are outside the model and reported as
    errors, like the malformed literals. *)
Definition ParseFloat (s : string) : option Q :=
  let '(neg, s1) := read_sign s in
  let '(ip, ni, s2) := read_digits s1 0 0 in
  let '(m, nf, s3) :=
    match s2 with
    | String "." r => read_digits r ip 0
    | _ => (ip, O, s2)
    end in
  match (ni + nf)%nat with
  | O => None
  | S _ =>
      match read_exponent s3 with
      | None => None
      | Some e =>
          let q := (inject_Z m * Qpower (10 # 1) (e - Z.of_nat nf))%Q in
          Some (if neg then Qopp q else q)
      end
  end.

(** Conversion of a float to [int64]: the fraction is discarded. *)
Definition trunc (q : Q) : Z := Z.quot (Qnum q) (Zpos (Qden q)).

End Strconv.

Module Filter.

Definition Hour : Z := 3600 * 1000000000.
Definition Minute : Z := 60 * 1000000000.

(** The dynamic type of [Condition.Value]. *)
Inductive Value :=
| VString (s : string)
| VInt64 (n : Z)
| VDuration (d : Z).

Record Condition := mkCondition {
  Property : string;
  Operator : string;
  CValue : Value
}.

Record ConditionFilter := mkConditionFilter { conditions : list Condition }.

Inductive error :=
| ErrNoOperator (condStr : string)
| ErrFormat (condStr : string)
| ErrProperty (property : string)
| ErrSize (sizeStr : string)
| ErrUnit (unit : string)
| ErrSyntax (numStr : string)
| ErrCondition (condStr : string) (cause : error).

(** The cut set of the quotes stripped from a string value: the single and
    the double quote. *)
Definition quotes : string :=
  String "'"%char (String (ascii_of_nat 34) EmptyString).

(** *** The operator pattern

    [parseCondition] locates the operator with the regular expression
    [\s*(>=|<=|==|!=|in|like|>|<)\s*].  Its leftmost match starts at the first
    position from which, after a run of white space, one of the operators
    follows; the alternatives are tried in the order written. *)

Definition operators : list string :=
  [">="; "<="; "=="; "!="; "in"; "like"; ">"; "<"].

(** The class [\s] of a Go pattern: tab, line feed, form feed, carriage
    return, space. *)
Definition is_re_space (c : ascii) : bool :=
  let n := nat_of_ascii c in
  (n =? 9)%nat || (n =? 10)%nat || (n =? 12)%nat || (n =? 13)%nat || (n =? 32)%nat.

Fixpoint first_alternative (ops : list string) (s : string) : option (string * string) :=
  match ops with
  | [] => None
  | op :: ops' =>
      match Strings.strip_prefix op s with
      | Some rest => Some (op, rest)
      | None => first_alternative ops' s
      end
  end.

(** A match of the operator pattern at the head of [s]: the operator and
    the text after the match. *)
Definition match_operator (s : string) : option (string * string) :=
  match first_alternative operators (Strings.drop_while is_re_space s) with
  | Some (op, rest) => Some (op, Strings.drop_while is_re_space rest)
  | None => None
  end.

(** The leftmost match in [s]: the text before it ([before] holds what has
    been passed over), the operator, the text after it. *)
Fixpoint find_operator (s : string) (before : string)
  : option (string * string * string) :=
  match match_operator s with
  | Some (op, rest) => Some (before, op, rest)
  | None =>
      match s with
      | EmptyString => None
      | String c r => find_operator r (before +:+ String c EmptyString)
      end
  end.

Definition is_size_digit (c : ascii) : bool :=
  match Strconv.digit_val c with
  | Some _ => true
  | None => Ascii.eqb c "."%char
  end.

Fixpoint take_while (p : ascii -> bool) (s : string) : string :=
  match s with
  | EmptyString => EmptyString
  | String c r => if p c then String c (take_while p r) else EmptyString
  end.

Definition multiplier_of (unit : string) : Z :=
  if (unit =? "k")%string then 2 ^ 10
  else if (unit =? "m")%string then 2 ^ 20
  else if (unit =? "g")%string then 2 ^ 30
  else if (unit =? "t")%string then 2 ^ 40
  else 0.

(** [parseSize]: the pattern [^([0-9.]+)([kmgKMGtT]?)$], then the number
    times the multiplier of the unit, as an [int64]. *)
Definition parseSize (sizeStr : string) : error + Z :=
  let sizeStr := Strings.TrimSpace sizeStr in
  let numStr := take_while is_size_digit sizeStr in
  let unitStr := Strings.drop_while is_size_digit sizeStr in
  let matched :=
    negb (numStr =? EmptyString)%string &&
    match unitStr with
    | EmptyString => true
    | String c EmptyString => Strings.mem_char c "kmgKMGtT"
    | _ => false
    end in
  if negb matched then inl (ErrSize sizeStr)
  else
    match Strconv.ParseFloat numStr with
    | None => inl (ErrSyntax numStr)
    | Some num =>
        let unit := Strings.ToLower unitStr in
        if (unit =? EmptyString)%string then inr (Strconv.trunc num)
        else
          let multiplier := multiplier_of unit in
          if multiplier =? 0 then inl (ErrUnit unit)
          else inr (Strconv.trunc (num * inject_Z multiplier)%Q)
    end.

(** [parseDuration]: a number of hours. *)
Definition parseDuration (durStr : string) : error + Z :=
  let durStr := Strings.TrimSpace durStr in
  match Strconv.ParseFloat durStr with
  | None => inl (ErrSyntax durStr)
  | Some hours => inr (Strconv.trunc (hours * inject_Z Hour)%Q)
  end.

(** [parseCondition].  The split of the clause at the match found yields
    the text before it and the text after it, always two parts: the match
    is never empty. *)
Definition parseCondition (condStr : string) : error + Condition :=
  match find_operator condStr EmptyString with
  | None => inl (ErrNoOperator condStr)
  | Some (before, operator, after) =>
      let property := Strings.TrimSpace before in
      let valueStr := Strings.TrimSpace after in
      let lprop := Strings.ToLower property in
      let value :=
        if (lprop =? "name")%string || (lprop =? "type")%string
           || (lprop =? "path")%string
        then inr (VString (Strings.Trim valueStr quotes))
        else if (lprop =? "size")%string then
          match parseSize valueStr with
          | inl e => inl e
          | inr n => inr (VInt64 n)
          end
        else if (lprop =? "modified")%string then
          match parseDuration valueStr with
          | inl e => inl e
          | inr d => inr (VDuration d)
          end
        else inl (ErrProperty property) in
      match value with
      | inl e => inl e
      | inr v => inr (mkCondition lprop (Strings.ToLower operator) v)
      end
  end.

(** [NewConditionFilter]: the clauses are compiled in order; the first
    failure aborts the compilation. *)
Fixpoint compile_all (conds : list string) (acc : list Condition)
  : error + list Condition :=
  match conds with
  | [] => inr acc
  | condStr :: rest =>
      match parseCondition condStr with
      | inl e => inl (ErrCondition condStr e)
      | inr cond => compile_all rest (acc ++ [cond])
      end
  end.

Definition NewConditionFilter (conds : list string) : error + ConditionFilter :=
  match compile_all conds [] with
  | inl e => inl e
  | inr cs => inr (mkConditionFilter cs)
  end.

(** [ParseConditions] (utils.go): the expression is lower-cased and split at
    every occurrence of the three letters [and]; the pieces are trimmed and
    the empty ones dropped. *)
Definition ParseConditions (input : string) : list string :=
  let conds := Strings.Split (Strings.ToLower input) "and" in
  List.filter (fun c => negb (c =? EmptyString)%string) (List.map Strings.TrimSpace conds).

(** *** Evaluation *)

(** The [like] pattern as a regular expression. *)
Definition like_regex (target : string) : string :=
  let regexPattern := Strings.ReplaceChar target "%"%char ".*" in
  let regexPattern := Strings.ReplaceChar regexPattern "_"%char "." in
  "^" +:+ regexPattern +:+ "$".

Definition matchString (value operator target : string) : bool :=
  if (operator =? "==")%string then (value =? target)%string
  else if (operator =? "!=")%string then negb (value =? target)%string
  else if (operator =? "in")%string then
    Strings.Contains (Strings.ToLower value) (Strings.ToLower target)
  else if (operator =? "like")%string then
    match Regexp.MatchString (like_regex target) value with
    | inl _ => false
    | inr matched => matched
    end
  else false.

Definition matchNumber (value : Z) (operator : string) (target : Z) : bool :=
  if (operator =? "==")%string then value =? target
  else if (operator =? "!=")%string then negb (value =? target)
  else if (operator =? ">")%string then target <? value
  else if (operator =? "<")%string then value <? target
  else if (operator =? ">=")%string then target <=? value
  else if (operator =? "<=")%string then value <=? target
  else false.

(** [matchTime]: [After], [Before] and [Equal] on instants. *)
Definition matchTime (value : Z) (operator : string) (target : Z) : bool :=
  if (operator =? ">")%string then target <? value
  else if (operator =? "<")%string then value <? target
  else if (operator =? ">=")%string then negb (value <? target)
  else if (operator =? "<=")%string then negb (target <? value)
  else if (operator =? "==")%string then value =? target
  else if (operator =? "!=")%string then negb (value =? target)
  else false.

(** The body of [matchCondition] once the clock has been read.  The value
    of a condition built by [parseCondition] has the type its property asks
    for; the other combinations, where the type assertion of the source
    panics, are not produced by the compiler and are mapped to [false]. *)
Definition matchConditionAt (now : Z) (fileInfo : FileInfo) (cond : Condition) : bool :=
  let property := Property cond in
  if (property =? "name")%string then
    match CValue cond with
    | VString target => matchString (Filepath.Base (Key fileInfo)) (Operator cond) target
    | _ => false
    end
  else if (property =? "path")%string then
    match CValue cond with
    | VString target => matchString (Key fileInfo) (Operator cond) target
    | _ => false
    end
  else if (property =? "size")%string then
    match CValue cond with
    | VInt64 target => matchNumber (Size fileInfo) (Operator cond) target
    | _ => false
    end
  else if (property =? "modified")%string then
    match CValue cond with
    | VDuration duration => matchTime (MTime fileInfo) (Operator cond) (now - duration)
    | _ => false
    end
  else if (property =? "type")%string then
    match CValue cond with
    | VString target =>
        matchString (if IsDir fileInfo then "dir" else "file") (Operator cond) target
    | _ => false
    end
  else false.

(** *** The clock

    Every call of [matchCondition] reads [time.Now()].  A computation of
    type [M A] runs against a clock: the state is the number of readings
    made so far, and [clock n] is the instant the [n]-th reading returns. *)

Definition M (A : Type) : Type := nat -> A * nat.

Definition ret {A} (a : A) : M A := fun n => (a, n).

Definition bind {A B} (m : M A) (k : A -> M B) : M B :=
  fun n => let '(a, n') := m n in k a n'.

Definition time_Now (clock : nat -> Z) : M Z := fun n => (clock n, S n).

Definition matchCondition (clock : nat -> Z) (fileInfo : FileInfo) (cond : Condition)
  : M bool :=
  bind (time_Now clock) (fun now => ret (matchConditionAt now fileInfo cond)).

(** The loop of [IsSatisfied]: it returns at the first condition that
    fails. *)
Fixpoint satisfied_loop (clock : nat -> Z) (conds : list Condition) (fileInfo : FileInfo)
  : M bool :=
  match conds with
  | [] => ret true
  | cond :: rest =>
      bind (matchCondition clock fileInfo cond) (fun ok =>
        if ok then satisfied_loop clock rest fileInfo else ret false)
  end.

Definition IsSatisfied (clock : nat -> Z) (f : ConditionFilter) (fileInfo : FileInfo)
  : M bool :=
  satisfied_loop clock (conditions f) fileInfo.

End Filter.

(** ** The directory walker (app/scan/scan.go) *)

Module Walker.

Import Filter.

(** A storage as the walker sees it: every entry with the outcome of
    [Storage.List] on its key, [None] when the listing fails.  The root node
    stands for the directory ["/"] the walk is seeded with; the listing of an
    entry that is not a directory is never consulted. *)
Inductive tree := Node (info : FileInfo) (listing : option (list tree)).

(** Induction on a storage: a property that holds of a node whenever it
    holds of the nodes of its listing holds of every node. *)
Fixpoint tree_listing_ind (P : tree -> Prop)
  (step : forall i l,
      match l with
      | None => True
      | Some cs => Forall P cs
      end -> P (Node i l))
  (t : tree) {struct t} : P t :=
  match t with
  | Node i l =>
      step i l
        (match l return match l with None => True | Some cs => Forall P cs end with
         | None => I
         | Some cs =>
             (fix all (cs : list tree) : Forall P cs :=
                match cs with
                | [] => @List.Forall_nil _ P
                | c :: cs' =>
                    @List.Forall_cons _ P c cs' (tree_listing_ind P step c) (all cs')
                end) cs
         end)
  end.

Definition info (t : tree) : FileInfo := match t with Node i _ => i end.
Definition listing (t : tree) : option (list tree) := match t with Node _ l => l end.

Section ListAll.

Variable clock : nat -> Z.
Variable depth : Z.
Variables matchConditions excludeConditions : ConditionFilter.

(** The admission test of [list]: an empty match filter admits, an empty
    exclude filter rejects nothing; both filters are evaluated. *)
Definition admission (o : FileInfo) : M bool :=
  bind (match conditions matchConditions with
        | [] => ret true
        | _ :: _ => IsSatisfied clock matchConditions o
        end) (fun matchOk =>
  bind (match conditions excludeConditions with
        | [] => ret false
        | _ :: _ => IsSatisfied clock excludeConditions o
        end) (fun excludeOk =>
  ret (matchOk && negb excludeOk))).

(** The loop of [list] over the entries of one directory: what it sends to
    [results]. *)
Fixpoint emit_loop (queue : list FileInfo) : M (list FileInfo) :=
  match queue with
  | [] => ret []
  | o :: rest =>
      bind (admission o) (fun ok =>
      bind (emit_loop rest) (fun sent =>
      ret (if ok then o :: sent else sent)))
  end.

(** A worker taking [dirInfo{path: Key (info t), depth: currentDepth}] from
    [dirs]: [list] returns at once beyond the depth cap and on a listing
    error; otherwise the entries are filtered and every directory among them,
    admitted or not, is enqueued one level deeper.  The schedule modelled
    handles the enqueued directories in order, each with its descendants. *)
Fixpoint worker (t : tree) (currentDepth : Z) {struct t} : M (list FileInfo) :=
  match t with
  | Node _ l =>
      if (0 <? depth) && (depth <? currentDepth) then ret []
      else
        match l with
        | None => ret []
        | Some children =>
            bind (emit_loop (map info children)) (fun sent =>
            bind ((fix subdirs (cs : list tree) : M (list FileInfo) :=
                     match cs with
                     | [] => ret []
                     | c :: cs' =>
                         if IsDir (info c) then
                           bind (worker c (currentDepth + 1)) (fun a =>
                           bind (subdirs cs') (fun b => ret (a ++ b)))
                         else subdirs cs'
                     end) children) (fun below =>
            ret (sent ++ below)))
        end
  end.

End ListAll.

(** [ListAll]: [concurrency] workers are started and the root is enqueued at
    depth 1; without a worker nothing is ever listed. *)
Definition ListAll (clock : nat -> Z) (storage : tree) (concurrency : Z) (depth : Z)
  (matchConditions excludeConditions : ConditionFilter) : M (list FileInfo) :=
  if concurrency <=? 0 then ret []
  else worker clock depth matchConditions excludeConditions storage 1.

End Walker.

(** ** The catalog (db/sqlite.go) as a relational store *)

Module Catalog.

Import Db.

(** A database: its tables by name, each the rows in insertion order. *)
Abbreviation DB := (gmap string (list FileInfoData)).

Definition file_entries : string := "file_entries".

(** [CREATE TABLE IF NOT EXISTS name]. *)
Definition CreateTable (name : string) (db : DB) : DB :=
  match db !! name with
  | Some _ => db
  | None => <[name := []]> db
  end.

(** [SaveEntries]: nothing is done for an empty batch; the empty table name
    stands for [file_entries]; the insertion fails ([None]) when the table
    does not exist. *)
Definition SaveEntries (fileInfos : list FileInfo) (tableName : string) (db : DB)
  : option DB :=
  match fileInfos with
  | [] => Some db
  | _ :: _ =>
      let tableName := if (tableName =? EmptyString)%string then file_entries else tableName in
      match db !! tableName with
      | None => None
      | Some rows => Some (<[tableName := rows ++ map ProcessFileInfo fileInfos]> db)
      end
  end.

(** [SELECT path FROM file_entries]. *)
Definition QueryPaths (db : DB) : option (list string) :=
  match db !! file_entries with
  | None => None
  | Some rows => Some (map dKey rows)
  end.

(** [QueryExactNewFiles]: the rows of the table without a row of
    [file_entries] of the same path (the left join with a null right side);
    the empty result when the query fails. *)
Definition QueryExactNewFiles (tableName : string) (db : DB) : list FileInfoData :=
  match db !! tableName, db !! file_entries with
  | Some ts, Some fs =>
      List.filter (fun t => negb (existsb (fun f => (dKey t =? dKey f)%string) fs)) ts
  | _, _ => []
  end.

(** [QueryChangedFiles]: the inner join on the path, restricted to the pairs
    whose [ctime] or [mtime] differ; a row of the table is returned once for
    every row of [file_entries] it is joined with. *)
Definition QueryChangedFiles (tableName : string) (db : DB) : list FileInfoData :=
  match db !! tableName, db !! file_entries with
  | Some ts, Some fs =>
      flat_map (fun t =>
        map (fun _ => t)
            (List.filter (fun f => (dKey t =? dKey f)%string &&
                                   (negb (dCTime t =? dCTime f) ||
                                    negb (dMTime t =? dMTime f))) fs)) ts
  | _, _ => []
  end.

(** [SELECT COUNT(DISTINCT ext) FROM file_entries]. *)
Definition GetUniqueExtCount (db : DB) : option Z :=
  match db !! file_entries with
  | None => None
  | Some rows => Some (Z.of_nat (length (remove_dups (map dExt rows))))
  end.

End Catalog.

(** ** The bloom filter of the prefilter

    The filter of [github.com/bits-and-blooms/bloom]: a set of [m] bits and
    [k] locations per datum.  The library is not part of the repository; its
    dimensions and its hash are parameters: [location data i] is the [i]-th
    location derived from the hashes of [data], before its reduction
    modulo [m]. *)

Module Bloom.

Section Filter.

Variable m : N.
Variable k : nat.
Variable location : string -> nat -> N.

Definition BloomFilter := gset N.

Definition New : BloomFilter := ∅.

Definition locations (data : string) : list N :=
  map (fun i => (location data i mod m)%N) (seq 0 k).

(** [AddString]: the [k] bits of the datum are set. *)
Definition AddString (f : BloomFilter) (data : string) : BloomFilter :=
  f ∪ list_to_set (locations data).

(** [TestString]: all the [k] bits of the datum are set. *)
Definition TestString (f : BloomFilter) (data : string) : bool :=
  forallb (fun l => bool_decide (l ∈ f)) (locations data).

End Filter.

End Bloom.

(** ** The scan pipelines (app/scan/scan.go) *)

Module Scan.

Import Db Catalog.

(** The batching loop shared by the catalog writer of the full scan and by
    [loadCandidatesToTemp]: the buffer is saved whenever it holds at least
    [batchSize] entries, and what is left at the end of the stream, if
    anything, is saved last.  A batch whose insertion fails is logged and
    dropped. *)
Fixpoint save_loop (stream : list FileInfo) (buffer : list FileInfo)
  (tableName : string) (batchSize : Z) (db : DB) : DB :=
  match stream with
  | [] =>
      match buffer with
      | [] => db
      | _ :: _ =>
          match SaveEntries buffer tableName db with
          | Some db' => db'
          | None => db
          end
      end
  | fileInfo :: rest =>
      let buffer := buffer ++ [fileInfo] in
      if batchSize <=? Z.of_nat (length buffer) then
        let db' := match SaveEntries buffer tableName db with
                   | Some db' => db'
                   | None => db
                   end in
        save_loop rest [] tableName batchSize db'
      else save_loop rest buffer tableName batchSize db
  end.

(** [loadCandidatesToTemp].  With a negative batch size the first candidate
    already fills a batch, and the buffer that is made anew after the batch
    has been saved, with the batch size for its capacity, is refused by the
    run time: the run panics ([None]).  Without a candidate the loop is never
    entered. *)
Definition loadCandidatesToTemp (candidates : list FileInfo) (db : DB)
  (tableName : string) (batchSize : Z) : option DB :=
  match candidates with
  | [] => Some db
  | _ :: _ =>
      if batchSize <? 0 then None
      else Some (save_loop candidates [] tableName batchSize db)
  end.

(** The outcome of the full scan: the catalog after the writer has ended,
    the statistics, and the report summary ([None] when producing it
    panics).  The table [file_entries] is created when the database is
    initialised; the message sink is not modelled. *)
Definition ProcessFilesForFullScan (db : DB) (batchSize : Z) (scanned : list FileInfo)
  : DB * Stat.Stats * option Stat.Summary :=
  let db0 := CreateTable file_entries db in
  let db1 := save_loop scanned [] EmptyString batchSize db0 in
  let stats := Stat.scan_stats scanned in
  let extCount := match GetUniqueExtCount db1 with
                  | Some n => n
                  | None => 0
                  end in
  (db1, stats, Stat.GenerateConsoleReportSummary stats extCount).

Section Incremental.

Variable m : N.
Variable k : nat.
Variable location : string -> nat -> N.

(** The filter warmed with the paths of [file_entries]. *)
Definition warm (paths : list string) : Bloom.BloomFilter :=
  fold_left (Bloom.AddString m k location) paths Bloom.New.

(** The capacity of [candidateChan]. *)
Definition candidateCap : Z := 100000.

(** [bloomPreFilter]: the entries whose key the filter does not know, and
    the candidates.  The query of the stored paths is not checked in the
    source: when it fails the rows are nil and reading them panics.  The new
    files are collected while they are sent, but the candidates are sent to
    a channel of [candidateCap] places that nothing reads before the
    function has returned: with more candidates than that the sender waits
    for ever and the function never returns ([None]). *)
Definition bloomPreFilter (scanned : list FileInfo) (db : DB)
  : option (list FileInfo * list FileInfo) :=
  match QueryPaths db with
  | None => None
  | Some paths =>
      let filter := warm paths in
      let known item := Bloom.TestString m k location filter (Key item) in
      let candidates := List.filter known scanned in
      if candidateCap <? Z.of_nat (length candidates) then None
      else Some (List.filter (fun item => negb (known item)) scanned, candidates)
  end.

(** The name of the temporary table, from a fresh UUID. *)
Definition tempTableName (uuid : string) : string :=
  "temp_files_" +:+ Strings.ReplaceChar uuid "-"%char "_".

(** [ProcessFilesForIncrementalScan]: the contents of the two channels it
    returns, and the catalog it leaves; [None] when it does not return. *)
Definition ProcessFilesForIncrementalScan (db : DB) (uuid : string) (batchSize : Z)
  (scanned : list FileInfo)
  : option (list FileInfoData * list FileInfoData * DB) :=
  match bloomPreFilter scanned db with
  | None => None
  | Some (bloomNewFiles, candidates) =>
      let name := tempTableName uuid in
      let db1 := CreateTable name db in
      match loadCandidatesToTemp candidates db1 name batchSize with
      | None => None
      | Some db2 =>
          let exactNewFiles := QueryExactNewFiles name db2 in
          let changedFiles := QueryChangedFiles name db2 in
          Some (map ProcessFileInfo bloomNewFiles ++ exactNewFiles, changedFiles, db2)
      end
  end.

End Incremental.

End Scan.

(** ** Reference definitions

    The notions the specification words its properties with, defined
    independently of the code above. *)

Module Spec.

Import Filter Walker.

(** A string without upper-case letters. *)
Definition lower (s : string) : Prop := Strings.has_upper s = false.

(** The suffix of a name that starts at its final dot, the dot included;
    empty when the name has no dot. *)
Fixpoint from_last_dot (name : string) : string :=
  match name with
  | EmptyString => EmptyString
  | String c r =>
      match from_last_dot r with
      | EmptyString => if Ascii.eqb c "."%char then name else EmptyString
      | e => e
      end
  end.

Fixpoint has_char (c : ascii) (s : string) : bool :=
  match s with
  | EmptyString => false
  | String d r => Ascii.eqb c d || has_char c r
  end.

(** A key the storage produces: not empty and not ending in a separator. *)
Definition proper_key (key : string) : bool :=
  match rev (Filepath.chars key) with
  | [] => false
  | c :: _ => negb (Filepath.IsPathSeparator c)
  end.

(** The SQL [LIKE] match: [%] stands for any sequence of characters, [_]
    for exactly one character, any other character for itself; the pattern
    covers the whole string. *)
Fixpoint sql_like (p : string) (s : string) : bool :=
  match p with
  | EmptyString => match s with EmptyString => true | _ => false end
  | String c p' =>
      if Ascii.eqb c "%"%char then
        (fix any (s : string) : bool :=
           sql_like p' s ||
           match s with
           | EmptyString => false
           | String _ s' => any s'
           end) s
      else
        match s with
        | EmptyString => false
        | String d s' =>
            (Ascii.eqb c "_"%char || Ascii.eqb c d) && sql_like p' s'
        end
  end.

(** A filter without a condition on the modification time. *)
Definition timeless (f : ConditionFilter) : bool :=
  forallb (fun c => negb (Property c =? "modified")%string) (conditions f).

(** The characters with a meaning of their own in a regular expression. *)
Definition is_meta (c : ascii) : bool :=
  Strings.mem_char c ".+*?()|[{^$" || Ascii.eqb c Regexp.backslash.

Fixpoint has_meta (p : string) : bool :=
  match p with
  | EmptyString => false
  | String c r => is_meta c || has_meta r
  end.

(** The text between the anchors of the regular expression of a [like]
    pattern. *)
Definition like_body (p : string) : string :=
  Strings.ReplaceChar (Strings.ReplaceChar p "%"%char ".*") "_"%char ".".

(** The regular expression of one character of a [like] pattern, and of a
    pattern. *)
Definition like_item (c : ascii) : Regexp.re :=
  if Ascii.eqb c "%"%char then Regexp.Star Regexp.AnyNotNL
  else if Ascii.eqb c "_"%char then Regexp.AnyNotNL
  else Regexp.Chr c.

Fixpoint like_items (p : string) : list Regexp.re :=
  match p with
  | EmptyString => []
  | String c r => like_item c :: like_items r
  end.

(** [IsSatisfied] as a conjunction, at one instant. *)
Definition satisfies (now : Z) (f : ConditionFilter) (e : FileInfo) : bool :=
  forallb (matchConditionAt now e) (conditions f).

Definition is_empty (f : ConditionFilter) : bool :=
  match conditions f with [] => true | _ => false end.

(** The admission rule:
    [(M is empty or M(e)) and not (X is non-empty and X(e))]. *)
Definition admission_rule (now : Z) (M X : ConditionFilter) (e : FileInfo) : bool :=
  (is_empty M || satisfies now M e) &&
  negb (negb (is_empty X) && satisfies now X e).

(** The entries of a storage with their depths: the entries listed in a
    directory of depth [d] have depth [d]; they come first, in the order of
    the listing, followed by what lies below each directory among them.
    A direct child of the root has depth 1. *)
Fixpoint enumerate (t : tree) (d : Z) {struct t} : list (Z * FileInfo) :=
  match t with
  | Node _ None => []
  | Node _ (Some children) =>
      map (fun c => (d, info c)) children ++
      (fix below (cs : list tree) : list (Z * FileInfo) :=
         match cs with
         | [] => []
         | c :: cs' =>
             (if IsDir (info c) then enumerate c (d + 1) else []) ++ below cs'
         end) children
  end.

(** What a depth cap leaves of a list of entries with their depths: all of
    it without a cap ([D <= 0]), the entries of depth at most [D]
    otherwise. *)
Definition capped (D : Z) (l : list (Z * FileInfo)) : list FileInfo :=
  map snd (List.filter (fun de => (D <=? 0) || (fst de <=? D)) l).

Definition entries_within (D : Z) (storage : tree) : list FileInfo :=
  capped D (enumerate storage 1).

(** Filtering a list with a test that reads the clock, from left to right. *)
Fixpoint filterM (p : FileInfo -> M bool) (l : list FileInfo) : M (list FileInfo) :=
  match l with
  | [] => ret []
  | e :: r =>
      bind (p e) (fun ok =>
      bind (filterM p r) (fun kept => ret (if ok then e :: kept else kept)))
  end.

End Spec.

(** ** The end-to-end scenario of the specification

    The tree [/a/f1] (100 B), [/a/f2] (2 KiB), [/b/g1] (5 MiB), [/b/c/h]
    (10 B), with the keys the local storage builds. *)

Module Scenario.

Import Walker.

Definition file (dir name : string) (size : Z) : FileInfo :=
  mkFileInfo (Filepath.Join2 dir name) size 0 0 0 420 false false true false.

Definition dir (parent name : string) : FileInfo :=
  mkFileInfo (Filepath.Join2 parent name) 0 0 0 0 493 true false false false.

Definition leaf (i : FileInfo) : tree := Node i None.

Definition storage : tree :=
  Node (dir "/" EmptyString)
    (Some [ Node (dir "/" "a")
              (Some [ leaf (file "/a" "f1" 100); leaf (file "/a" "f2" 2048) ]);
            Node (dir "/" "b")
              (Some [ leaf (file "/b" "g1" (5 * 1024 * 1024));
                      Node (dir "/b" "c")
                        (Some [ leaf (file "/b/c" "h" 10) ]) ]) ]).

Definition no_filter : Filter.ConditionFilter := Filter.mkConditionFilter [].

End Scenario.

(** ** The incremental scenario of the specification

    A full scan of the scenario, then the same tree with [f2] renamed to
    [f2.new], the file [/a/f3] added and [g1] touched.  The filter of the
    example has 64 bits and two locations per path, derived from the length
    of the path, so that paths of equal length collide. *)

Module Rescan.

Import Walker Scenario.

Definition touched (i : FileInfo) (t : Z) : FileInfo :=
  mkFileInfo (Key i) (Size i) t t t (Perm i)
             (IsDir i) (IsSymlink i) (IsRegular i) (IsSticky i).

Definition storage : tree :=
  Node (dir "/" EmptyString)
    (Some [ Node (dir "/" "a")
              (Some [ leaf (file "/a" "f1" 100); leaf (file "/a" "f2.new" 2048);
                      leaf (file "/a" "f3" 7) ]);
            Node (dir "/" "b")
              (Some [ leaf (touched (file "/b" "g1" (5 * 1024 * 1024)) 99);
                      Node (dir "/b" "c")
                        (Some [ leaf (file "/b/c" "h" 10) ]) ]) ]).

Definition bits : N := 64.
Definition hashes : nat := 2.
Definition location (data : string) (i : nat) : N :=
  N.of_nat (String.length data * (i + 1)).

Definition scan (s : tree) : list FileInfo :=
  fst (ListAll (fun _ => 0) s 5 0 no_filter no_filter 0%nat).

(** The catalog the full scan leaves, written in batches of two. *)
Definition catalog : Catalog.DB :=
  fst (fst (Scan.ProcessFilesForFullScan ∅ 2 (scan Scenario.storage))).

Definition uuid : string := "123e4567-e89b-12d3-a456-426614174000".

End Rescan.

(** ** A large directory scanned twice

    A directory of 100001 files, one more than the channel of candidates
    holds, and the catalog a full scan of it leaves. *)

Module Crowd.

Definition size : nat := Z.to_nat 100001.

Definition entries : list FileInfo :=
  map (fun i => Scenario.file "/d" (NilEmpty.string_of_uint (Nat.to_uint i)) 1)
      (seq 0 size).

Definition catalog : Catalog.DB :=
  <[Catalog.file_entries := map Db.ProcessFileInfo entries]> ∅.

End Crowd.

(** ** What a regular expression matches

    [matches bot eot r s]: the expression [r] matches the segment [s] of a
    text, where [bot] tells that the segment starts at the beginning of the
    text and [eot] that it stops at its end. *)

Module Denotation.

Import Regexp.

Definition is_nil (s : string) : bool :=
  match s with EmptyString => true | String _ _ => false end.

Inductive matches : bool -> bool -> re -> string -> Prop :=
| M_Eps bot eot : matches bot eot Eps EmptyString
| M_Chr bot eot c : matches bot eot (Chr c) (String c EmptyString)
| M_AnyNotNL bot eot c :
    Ascii.eqb c newline = false ->
    matches bot eot AnyNotNL (String c EmptyString)
| M_AnyChar bot eot c : matches bot eot AnyChar (String c EmptyString)
| M_Bot eot : matches true eot Bot EmptyString
| M_Eot bot : matches bot true Eot EmptyString
| M_Cat bot eot a b s1 s2 :
    matches bot (eot && is_nil s2) a s1 ->
    matches (bot && is_nil s1) eot b s2 ->
    matches bot eot (Cat a b) (s1 +:+ s2)
| M_AltL bot eot a b s : matches bot eot a s -> matches bot eot (Alt a b) s
| M_AltR bot eot a b s : matches bot eot b s -> matches bot eot (Alt a b) s
| M_StarNil bot eot a : matches bot eot (Star a) EmptyString
| M_StarCons bot eot a c s1 s2 :
    matches bot (eot && is_nil s2) a (String c s1) ->
    matches false eot (Star a) s2 ->
    matches bot eot (Star a) (String c s1 +:+ s2).

End Denotation.

(** ** The local storage (object/file.go, object/interface.go) *)

Module Object.

(** The bits of [os.FileMode] the accessors read. *)
Definition ModeDir : Z := 2 ^ 31.
Definition ModeSymlink : Z := 2 ^ 27.
Definition ModeDevice : Z := 2 ^ 26.
Definition ModeNamedPipe : Z := 2 ^ 25.
Definition ModeSocket : Z := 2 ^ 24.
Definition ModeCharDevice : Z := 2 ^ 21.
Definition ModeSticky : Z := 2 ^ 20.
Definition ModeIrregular : Z := 2 ^ 19.
Definition ModeType : Z :=
  Z.lor ModeDir (Z.lor ModeSymlink (Z.lor ModeNamedPipe (Z.lor ModeSocket
    (Z.lor ModeDevice (Z.lor ModeCharDevice ModeIrregular))))).
Definition ModePerm : Z := 511.

(** An [os.FileInfo] as [Readdir] returns it. *)
Record osFileInfo := mkOsFileInfo {
  Name : string;
  osSize : Z;
  ModTime : Z;
  Mode : Z
}.

(** A [fileObject]; its [root] only serves to open the file. *)
Record fileObject := mkFileObject {
  info : osFileInfo;
  dir : string;
  ctime : Z;
  atime : Z
}.

Definition Key (o : fileObject) : string := Filepath.Join2 (dir o) (Name (info o)).
Definition Size (o : fileObject) : Z := osSize (info o).
Definition MTime (o : fileObject) : Z := ModTime (info o).
Definition CTime (o : fileObject) : Z := ctime o.
Definition ATime (o : fileObject) : Z := atime o.
Definition Perm (o : fileObject) : Z := Z.land (Mode (info o)) ModePerm.
Definition IsRegular (o : fileObject) : bool := Z.land (Mode (info o)) ModeType =? 0.
Definition IsDir (o : fileObject) : bool := negb (Z.land (Mode (info o)) ModeDir =? 0).
Definition IsSymlink (o : fileObject) : bool := negb (Z.land (Mode (info o)) ModeSymlink =? 0).
Definition IsSticky (o : fileObject) : bool := negb (Z.land (Mode (info o)) ModeSticky =? 0).

(** The [object.FileInfo] a [fileObject] implements. *)
Definition observe (o : fileObject) : FileInfo :=
  mkFileInfo (Key o) (Size o) (MTime o) (CTime o) (ATime o) (Perm o)
             (IsDir o) (IsSymlink o) (IsRegular o) (IsSticky o).

(** The zero [time.Time], as an instant. *)
Definition zeroTime : Z := - 62135596800 * 1000000000.

(** [localStorage.List] on a directory that could be opened: the entries
    [Readdir] delivers, without [.] and [..].  On Windows the creation and
    access times come from the system data of the entry, when it has some
    ([sys]); elsewhere both are the modification time. *)
Definition List (windows : bool) (sys : osFileInfo -> option (Z * Z))
  (dir : string) (files : list osFileInfo) : list fileObject :=
  flat_map (fun file =>
    if (Name file =? ".")%string || (Name file =? "..")%string then []
    else
      let '(c, a) :=
        if windows then
          match sys file with
          | Some (creation, access) => (creation, access)
          | None => (zeroTime, zeroTime)
          end
        else (ModTime file, ModTime file) in
      [mkFileObject file dir c a]) files.

(** *** [CreateStorage] *)

Inductive backend :=
| S3 (uri : string)
| Nfs (scanPath : string)
| Local (absPath : string).

Inductive error :=
| ErrStat (uri : string)
| ErrAbs (uri : string)
| ErrUnsupported (uri : string).

Definition is_host_char (c : ascii) : bool :=
  let n := nat_of_ascii c in
  ((97 <=? n)%nat && (n <=? 122)%nat) || ((65 <=? n)%nat && (n <=? 90)%nat)
  || ((48 <=? n)%nat && (n <=? 57)%nat)
  || Ascii.eqb c "."%char || Ascii.eqb c "-"%char.

Fixpoint all_chars (p : ascii -> bool) (s : string) : bool :=
  match s with
  | EmptyString => true
  | String c r => p c && all_chars p r
  end.

(** The pattern [^[a-zA-Z0-9.-]+:\S+$]: a run of host characters, which a
    colon must follow, and then at least one character, none of them white
    space. *)
Definition nfsPattern (s : string) : bool :=
  let host := Filter.take_while is_host_char s in
  let rest := Strings.drop_while is_host_char s in
  negb (host =? EmptyString)%string &&
  match rest with
  | String ":" path =>
      negb (path =? EmptyString)%string &&
      all_chars (fun c => negb (Filter.is_re_space c)) path
  | _ => false
  end.

Definition has_prefix (s p : string) : bool :=
  match Strings.strip_prefix p s with Some _ => true | None => false end.

(** [CreateStorage]: [stat] is [os.Stat] (whether the path is a directory,
    when it can be read) and [abs] is [filepath.Abs]. *)
Definition CreateStorage (stat : string -> option bool) (abs : string -> option string)
  (scanPath : string) : error + backend :=
  if has_prefix scanPath "s3://" || has_prefix scanPath "S3://" then inr (S3 scanPath)
  else if nfsPattern scanPath then inr (Nfs scanPath)
  else
    match stat scanPath with
    | None => inl (ErrStat scanPath)
    | Some true =>
        match abs scanPath with
        | None => inl (ErrAbs scanPath)
        | Some absPath => inr (Local absPath)
        end
    | Some false => inl (ErrUnsupported scanPath)
    end.

End Object.

(** ** Storages that differ where the walker does not look *)

Module Shape.

Import Walker.

(** The storage with every failed listing replaced by an empty one, and
    the listing of every entry that is not a directory emptied. *)
Fixpoint settle (t : tree) : tree :=
  match t with
  | Node i None => Node i (Some [])
  | Node i (Some children) =>
      Node i (Some ((fix each (cs : list tree) : list tree :=
                       match cs with
                       | [] => []
                       | c :: cs' =>
                           (if IsDir (info c) then settle c
                            else Node (info c) (Some [])) :: each cs'
                       end) children))
  end.

End Shape.

(** ** Counting and summing over a list of entries *)

Module Tally.

Definition count (p : FileInfo -> bool) (l : list FileInfo) : Z :=
  Z.of_nat (length (List.filter p l)).

Definition sum (f : FileInfo -> Z) (l : list FileInfo) : Z :=
  fold_right (fun e acc => f e + acc) 0 l.

Definition maximum (f : FileInfo -> Z) (l : list FileInfo) : Z :=
  fold_right (fun e acc => Z.max (f e) acc) 0 l.

(** The entries that are not directories. *)
Definition files (l : list FileInfo) : list FileInfo :=
  List.filter (fun e => negb (IsDir e)) l.

Definition name_length (e : FileInfo) : Z := Strings.len (Filepath.Base (Key e)).

End Tally.

(** ** The tests of the diff engine *)

Module Diff.

(** The test of the prefilter once warmed with the stored paths. *)
Definition known (m : N) (k : nat) (location : string -> nat -> N)
  (prior : list Db.FileInfoData) (item : FileInfo) : bool :=
  Bloom.TestString m k location
    (Scan.warm m k location (map Db.dKey prior)) (Key item).

(** A row whose path is the path of a stored row. *)
Definition stored (prior : list Db.FileInfoData) (t : Db.FileInfoData) : bool :=
  existsb (fun f => (Db.dKey t =? Db.dKey f)%string) prior.

(** A stored row of the same path with another [ctime] or [mtime]. *)
Definition differs (t f : Db.FileInfoData) : bool :=
  (Db.dKey t =? Db.dKey f)%string &&
  (negb (Db.dCTime t =? Db.dCTime f) || negb (Db.dMTime t =? Db.dMTime f)).

End Diff.

(** * Properties *)

#[local] Arguments Ascii.eqb : simpl never.
#[local] Arguments String.eqb : simpl never.

(** ** Machine integers *)

Lemma wrap64_id z : Int64.in_range z -> Int64.wrap64 z = z.
Proof.
  unfold Int64.in_range, Int64.min_int, Int64.max_int, Int64.wrap64. intros H.
  rewrite Z.mod_small; lia.
Qed.

Lemma wrap64_range z : Int64.in_range (Int64.wrap64 z).
Proof.
  unfold Int64.in_range, Int64.min_int, Int64.max_int, Int64.wrap64.
  pose proof (Z.mod_pos_bound (z + 2 ^ 63) (2 ^ 64) ltac:(lia)). lia.
Qed.

(** ** Paths: the documented values of [path/filepath] *)

Example Base_file : Filepath.Base "/b/c/h" = "h".
Proof. reflexivity. Qed.
Example Base_slashes : Filepath.Base "//" = "/".
Proof. reflexivity. Qed.
Example Ext_txt : Filepath.Ext "a/b.txt" = ".txt".
Proof. reflexivity. Qed.
Example Ext_dir_dot : Filepath.Ext "a.d/b" = EmptyString.
Proof. reflexivity. Qed.
Example Clean_dots : Filepath.Clean "/a/./b/../../c/" = "/c".
Proof. reflexivity. Qed.
Example Clean_updir : Filepath.Clean "a/../.." = "..".
Proof. reflexivity. Qed.
Example Dir_nested : Filepath.Dir "/b/c/h" = "/b/c".
Proof. reflexivity. Qed.
Example Dir_plain : Filepath.Dir "h" = ".".
Proof. reflexivity. Qed.
Example Join_root : Filepath.Join2 "/" "a" = "/a".
Proof. reflexivity. Qed.


(** ** The cases of the repository's tests (app/scan/filter_test.go) *)

Example TestParseCondition_string :
  Filter.parseCondition "name == 'test.txt'"
  = inr (Filter.mkCondition "name" "==" (Filter.VString "test.txt")).
Proof. reflexivity. Qed.

Example TestParseCondition_like :
  Filter.parseCondition "name like 'main%'"
  = inr (Filter.mkCondition "name" "like" (Filter.VString "main%")).
Proof. reflexivity. Qed.

Example TestParseCondition_number :
  Filter.parseCondition "size > 100"
  = inr (Filter.mkCondition "size" ">" (Filter.VInt64 100)).
Proof. reflexivity. Qed.

Example TestParseCondition_unit :
  Filter.parseCondition "size <= 10K"
  = inr (Filter.mkCondition "size" "<=" (Filter.VInt64 10240)).
Proof. reflexivity. Qed.

Example TestParseCondition_time :
  Filter.parseCondition "modified < 24"
  = inr (Filter.mkCondition "modified" "<" (Filter.VDuration (24 * Filter.Hour))).
Proof. reflexivity. Qed.

Example TestParseCondition_type :
  Filter.parseCondition "type == 'file'"
  = inr (Filter.mkCondition "type" "==" (Filter.VString "file")).
Proof. reflexivity. Qed.

(** The two failing cases of the test fail on the property: the leftmost
    operator of the pattern is the [in] of [contains] and of [invalid]. *)
Example TestParseCondition_bad_operator :
  Filter.parseCondition "name contains 'test'"
  = inl (Filter.ErrProperty "name conta").
Proof. reflexivity. Qed.

Example TestParseCondition_bad_property :
  Filter.parseCondition "invalid > 100" = inl (Filter.ErrProperty EmptyString).
Proof. reflexivity. Qed.

Example TestParseSize :
  Filter.parseSize "100" = inr 100 /\
  Filter.parseSize "10K" = inr (10 * 1024) /\
  Filter.parseSize "2M" = inr (2 * 1024 * 1024) /\
  Filter.parseSize "3G" = inr (3 * 1024 * 1024 * 1024) /\
  Filter.parseSize "1.5K" = inr 1536 /\
  Filter.parseSize "10X" = inl (Filter.ErrSize "10X").
Proof. repeat split; reflexivity. Qed.

Example TestParseDuration :
  Filter.parseDuration "24" = inr (24 * Filter.Hour) /\
  Filter.parseDuration "0.5" = inr (30 * Filter.Minute) /\
  Filter.parseDuration "abc" = inl (Filter.ErrSyntax "abc").
Proof. repeat split; reflexivity. Qed.

Example TestMatchLike :
  Filter.matchString "main.go" "like" "main%" = true /\
  Filter.matchString "app.main" "like" "%main" = true /\
  Filter.matchString "app.main.go" "like" "%main%" = true /\
  Filter.matchString "main" "like" "main" = true /\
  Filter.matchString "main.go" "like" "main._o" = true /\
  Filter.matchString "test.go" "like" "main%" = false.
Proof. repeat split; reflexivity. Qed.

Example TestMatchString :
  Filter.matchString "test.txt" "==" "test.txt" = true /\
  Filter.matchString "test.txt" "!=" "example.txt" = true /\
  Filter.matchString "test.txt" "in" "test" = true /\
  Filter.matchString "Test.txt" "in" "test" = true /\
  Filter.matchString "example.txt" "in" "test" = false.
Proof. repeat split; reflexivity. Qed.

Example TestMatchNumber :
  Filter.matchNumber 100 "==" 100 = true /\
  Filter.matchNumber 100 "!=" 200 = true /\
  Filter.matchNumber 200 ">" 100 = true /\
  Filter.matchNumber 50 "<" 100 = true /\
  Filter.matchNumber 100 ">=" 100 = true /\
  Filter.matchNumber 100 "<=" 100 = true.
Proof. repeat split; reflexivity. Qed.

(** [TestConditionFilter_IsSatisfied], the two cases on [modified > 24]:
    an entry modified 12 hours before the reading passes, one modified 36
    hours before it does not. *)
Example TestConditionFilter_modified :
  forall (now : Z) (n : nat),
    let f := Filter.mkConditionFilter
               [Filter.mkCondition "modified" ">" (Filter.VDuration (24 * Filter.Hour))] in
    let entry mtime := mkFileInfo EmptyString 0 mtime 0 0 0 false false false false in
    fst (Filter.IsSatisfied (fun _ => now) f (entry (now - 12 * Filter.Hour)) n) = true /\
    fst (Filter.IsSatisfied (fun _ => now) f (entry (now - 36 * Filter.Hour)) n) = false.
Proof.
  intros now n f entry. unfold f, entry.
  split; lazy -[Z.ltb Z.sub Z.mul Filter.Hour].
  - replace (now - 24 * Filter.Hour <? now - 12 * Filter.Hour) with true;
      [reflexivity |]. symmetry. apply Z.ltb_lt. unfold Filter.Hour. lia.
  - replace (now - 24 * Filter.Hour <? now - 36 * Filter.Hour) with false;
      [reflexivity |]. symmetry. apply Z.ltb_ge. unfold Filter.Hour. lia.
Qed.

(** ** The regular expression engine on small patterns *)

Example MatchString_anchored :
  Regexp.MatchString "^main.*$" "main.go" = inr true /\
  Regexp.MatchString "^main.*$" "amain.go" = inr false /\
  Regexp.MatchString "main" "amain.go" = inr true.
Proof. repeat split; reflexivity. Qed.

Example MatchString_groups :
  Regexp.MatchString "^a(b|c)*d$" "abcbcd" = inr true /\
  Regexp.MatchString "^a(b|c)*d$" "abcbc" = inr false /\
  Regexp.MatchString "^a|b$" "ac" = inr true /\
  Regexp.MatchString "^(a|b)$" "ac" = inr false /\
  Regexp.MatchString "^a*?b+$" "aabb" = inr true.
Proof. repeat split; reflexivity. Qed.

Example MatchString_rejected :
  Regexp.MatchString "a**" "a" = inl Regexp.SyntaxError /\
  Regexp.MatchString "(a" "a" = inl Regexp.SyntaxError /\
  Regexp.MatchString "a)" "a" = inl Regexp.SyntaxError /\
  Regexp.MatchString "*a" "a" = inl Regexp.SyntaxError.
Proof. repeat split; reflexivity. Qed.

(** ** The scenario: what the unfiltered full scan sees *)

Example scenario_walk :
  map Key (fst (Walker.ListAll (fun _ => 0) Scenario.storage 5 0
                  Scenario.no_filter Scenario.no_filter 0%nat))
  = ["/a"; "/b"; "/a/f1"; "/a/f2"; "/b/g1"; "/b/c"; "/b/c/h"].
Proof. reflexivity. Qed.

Example scenario_stats :
  Stat.scan_stats (fst (Walker.ListAll (fun _ => 0) Scenario.storage 5 0
                          Scenario.no_filter Scenario.no_filter 0%nat))
  = Stat.mkStats 4 3 (5 * 1024 * 1024 + 2048 + 100 + 10) 0 4 7 2 5 2.
Proof. vm_compute. reflexivity. Qed.

(** ** Statistics *)

(** The report summary of statistics without a file is never produced. *)
Lemma summary_without_files (s : Stat.Stats) (extCount : Z) :
  Stat.fileCount s = 0 ->
  Stat.GenerateConsoleReportSummary s extCount = None /\ Stat.Print s = None.
Proof.
  intros H.
  unfold Stat.GenerateConsoleReportSummary, Stat.Print, Stat.GetFileCount.
  rewrite H. split; reflexivity.
Qed.

(** Claim C9, at its failing input.  The scan of an empty directory emits no
    entry, so the statistics keep [fileCount = 0]; the report summary of the
    full scan, and [Stats.Print] as well, then divide [totalSize] by zero:
    neither is produced (the run panics), whereas the guarded averages
    [GetAvgNameLength] and [GetAvgDirDepth] return 0. *)
Theorem empty_scan_summary_panics :
  forall (clock : nat -> Z) (root : FileInfo) (concurrency depth : Z)
         (M X : Filter.ConditionFilter) (n : nat)
         (db : Catalog.DB) (batchSize : Z),
    let scanned :=
      fst (Walker.ListAll clock (Walker.Node root (Some [])) concurrency depth M X n) in
    scanned = [] /\
    Scan.ProcessFilesForFullScan db batchSize scanned
      = (Catalog.CreateTable Catalog.file_entries db, Stat.NewStats, None) /\
    Stat.Print Stat.NewStats = None /\
    Stat.GetAvgNameLength Stat.NewStats = 0 /\
    Stat.GetAvgDirDepth Stat.NewStats = 0.
Proof.
  intros clock root concurrency depth M X n db batchSize scanned.
  assert (Hs : scanned = []).
  { unfold scanned, Walker.ListAll.
    destruct (concurrency <=? 0); [reflexivity |].
    cbn. destruct ((0 <? depth) && (depth <? 1)); reflexivity. }
  split; [exact Hs |].
  rewrite Hs. repeat split.
Qed.

(** What one [Update] does to the name counters. *)
Lemma Update_name_counters (s : Stat.Stats) (e : FileInfo) :
  Stat.totalNameLength (Stat.Update s e)
    = (if IsDir e then Stat.totalNameLength s
       else Int64.add (Stat.totalNameLength s)
                      (Strings.len (Filepath.Base (Key e)))) /\
  Stat.maxNameLength (Stat.Update s e)
    = (if IsDir e then Stat.maxNameLength s
       else Z.max (Stat.maxNameLength s) (Strings.len (Filepath.Base (Key e)))).
Proof.
  unfold Stat.Update.
  destruct (IsDir e), (IsSymlink e); cbn; split; try reflexivity;
    destruct (Z.ltb_spec (Stat.maxNameLength s) (Strings.len (Filepath.Base (Key e))));
    lia.
Qed.

(** Claim C8 as stated fails: the [Update] of the directory [/a] adds
    nothing to [totalNameLength], and the average name length of the
    scenario is not 2. *)
Lemma name_length_counts_directories_counterexample :
  ~ (Stat.totalNameLength (Stat.Update Stat.NewStats (Scenario.dir "/" "a"))
       = Stat.totalNameLength Stat.NewStats
         + Strings.len (Filepath.Base (Key (Scenario.dir "/" "a")))
     \/
     Stat.GetAvgNameLength
       (Stat.scan_stats
          (fst (Walker.ListAll (fun _ => 0) Scenario.storage 1 0
                  Scenario.no_filter Scenario.no_filter 0%nat))) = 2).
Proof. vm_compute. intros [H | H]; discriminate H. Qed.

(** Claim C8, amended.  [Update] touches [totalNameLength] and
    [maxNameLength] for the entries that are not directories only: such an
    entry adds the length of its base name to the total and raises the
    maximum to it, a directory leaves both as they are.  For the unfiltered
    scan of the scenario the four files have names of 2, 2, 2 and 1 bytes:
    [totalNameLength = 7], [fileCount = 4] and the average is 1. *)
Theorem name_length_counts_files_only :
  (forall (s : Stat.Stats) (e : FileInfo),
     Stat.totalNameLength (Stat.Update s e)
       = (if IsDir e then Stat.totalNameLength s
          else Int64.add (Stat.totalNameLength s)
                         (Strings.len (Filepath.Base (Key e)))) /\
     Stat.maxNameLength (Stat.Update s e)
       = (if IsDir e then Stat.maxNameLength s
          else Z.max (Stat.maxNameLength s)
                     (Strings.len (Filepath.Base (Key e))))) /\
  (forall (clock : nat -> Z) (workers : positive) (n : nat),
     let stats :=
       Stat.scan_stats
         (fst (Walker.ListAll clock Scenario.storage (Z.pos workers) 0
                 Scenario.no_filter Scenario.no_filter n)) in
     Stat.fileCount stats = 4 /\ Stat.dirCount stats = 3 /\
     Stat.totalNameLength stats = 7 /\ Stat.maxNameLength stats = 2 /\
     Stat.GetAvgNameLength stats = 1).
Proof.
  split; [exact Update_name_counters |].
  intros clock workers n. cbv zeta.
  unfold Walker.ListAll.
  replace (Z.pos workers <=? 0) with false by (symmetry; apply Z.leb_gt; lia).
  vm_compute. repeat split.
Qed.

(** ** The extension column *)

Lemma app_cons (c : ascii) (a b : string) :
  String c a +:+ b = String c (a +:+ b).
Proof. reflexivity. Qed.

Lemma app_nil (b : string) : EmptyString +:+ b = b.
Proof. reflexivity. Qed.

Lemma str_app (l1 l2 : list ascii) :
  Filepath.str (l1 ++ l2) = Filepath.str l1 +:+ Filepath.str l2.
Proof.
  unfold Filepath.str.
  induction l1 as [| c l1 IH]; simpl; [reflexivity |].
  now rewrite app_cons, IH.
Qed.

Lemma string_app_assoc (a b c : string) : (a +:+ b) +:+ c = a +:+ (b +:+ c).
Proof.
  induction a as [| x a IH]; [reflexivity |].
  now rewrite !app_cons, IH.
Qed.

Lemma from_last_dot_no_dot (s : string) :
  Spec.has_char "."%char s = false -> Spec.from_last_dot s = EmptyString.
Proof.
  induction s as [| c s IH]; cbn; [reflexivity |].
  intros H. apply orb_false_elim in H as [Hc Hs].
  rewrite (IH Hs). rewrite Ascii.eqb_sym, Hc. reflexivity.
Qed.

Lemma from_last_dot_split (x y : string) :
  Spec.has_char "."%char y = false ->
  Spec.from_last_dot (x +:+ String "."%char y) = String "."%char y.
Proof.
  intros Hy. induction x as [| c x IH].
  - rewrite app_nil. cbn. now rewrite (from_last_dot_no_dot y Hy).
  - rewrite app_cons. cbn [Spec.from_last_dot]. now rewrite IH.
Qed.

(** The loop of [filepath.Ext] computes the suffix from the final dot of
    the last path element. *)
Lemma ext_scan_from_last_dot (l : list ascii) (suffix : string) :
  Spec.has_char "."%char suffix = false ->
  Filepath.ext_scan l suffix
    = Spec.from_last_dot
        (Filepath.str
           (rev (Filepath.take_while (fun c => negb (Filepath.IsPathSeparator c)) l))
         +:+ suffix).
Proof.
  revert suffix. induction l as [| c l IH]; intros suffix Hs; cbn.
  - now rewrite from_last_dot_no_dot.
  - destruct (Filepath.IsPathSeparator c) eqn:Hsep; cbn.
    + now rewrite from_last_dot_no_dot.
    + rewrite str_app, string_app_assoc.
      change (Filepath.str [c] +:+ suffix) with (String c suffix).
      destruct (Ascii.eqb c ".") eqn:Hdot.
      * apply Ascii.eqb_eq in Hdot. subst c.
        now rewrite from_last_dot_split.
      * rewrite IH; [reflexivity |].
        cbn. rewrite Ascii.eqb_sym, Hdot. exact Hs.
Qed.

Lemma string_app_empty_r (s : string) : s +:+ EmptyString = s.
Proof.
  induction s as [| c s IH]; [reflexivity |].
  now rewrite app_cons, IH.
Qed.

Lemma Ext_of_Base (key : string) :
  Spec.proper_key key = true ->
  Filepath.Ext key = Spec.from_last_dot (Filepath.Base key).
Proof.
  unfold Spec.proper_key, Filepath.Ext, Filepath.Base. intros Hk.
  destruct key as [| k0 key']; [discriminate Hk |].
  replace (String k0 key' =? EmptyString)%string with false by reflexivity.
  destruct (rev (Filepath.chars (String k0 key'))) as [| c l] eqn:Hrev;
    [discriminate Hk |].
  rewrite ext_scan_from_last_dot by reflexivity.
  rewrite string_app_empty_r.
  apply negb_true_iff in Hk.
  assert (Hd : Filepath.drop_while Filepath.IsPathSeparator (c :: l) = c :: l)
    by (cbn; now rewrite Hk).
  rewrite Hd.
  destruct (rev (Filepath.take_while
                   (fun c0 => negb (Filepath.IsPathSeparator c0)) (c :: l)))
    eqn:Hlast; [| reflexivity].
  apply (f_equal (@length ascii)) in Hlast.
  rewrite length_rev in Hlast. cbn in Hlast. rewrite Hk in Hlast.
  discriminate Hlast.
Qed.

(** Claim C7 as stated fails: the row of the file [a/b.txt] has the
    extension [.txt], with its dot, not [txt]. *)
Lemma ext_without_dot_counterexample :
  Db.dExt (Db.ProcessFileInfo (Scenario.file "a" "b.txt" 1)) <> "txt".
Proof. vm_compute. discriminate. Qed.

(** Claim C7, amended.  For the row derived from an entry whose key is not
    empty and does not end in a separator, the [ext] column is empty for a
    directory and is otherwise the suffix of the base name of the key that
    starts at its final dot, the dot included ([.txt] for [a/b.txt]): it is
    empty for a file whose base name has no dot, and it is the dot followed
    by [y] when the base name is [x.y] with no dot in [y]. *)
Theorem ext_column_keeps_the_dot :
  forall e : FileInfo,
    Spec.proper_key (Key e) = true ->
    Db.dExt (Db.ProcessFileInfo e)
      = (if IsDir e then EmptyString
         else Spec.from_last_dot (Filepath.Base (Key e))) /\
    (IsDir e = false ->
     Spec.has_char "."%char (Filepath.Base (Key e)) = false ->
     Db.dExt (Db.ProcessFileInfo e) = EmptyString) /\
    (forall x y : string,
       IsDir e = false ->
       Filepath.Base (Key e) = x +:+ String "."%char y ->
       Spec.has_char "."%char y = false ->
       Db.dExt (Db.ProcessFileInfo e) = String "."%char y).
Proof.
  intros e Hk.
  assert (H : Db.dExt (Db.ProcessFileInfo e)
              = if IsDir e then EmptyString
                else Spec.from_last_dot (Filepath.Base (Key e))).
  { unfold Db.ProcessFileInfo; cbn.
    destruct (IsDir e); cbn; [reflexivity | now apply Ext_of_Base]. }
  split; [exact H |]. split.
  - intros Hd Hn. rewrite H, Hd. now apply from_last_dot_no_dot.
  - intros x y Hd Hb Hy. rewrite H, Hd, Hb. now apply from_last_dot_split.
Qed.

Lemma ext_column_keeps_the_dot_witness :
  Spec.proper_key "a/b.txt" = true /\
  Db.dExt (Db.ProcessFileInfo (Scenario.file "a" "b.txt" 1)) = ".txt".
Proof.
  split; [reflexivity |].
  destruct (ext_column_keeps_the_dot (Scenario.file "a" "b.txt" 1)) as (_ & _ & H);
    [reflexivity |].
  apply (H "b" "txt"); reflexivity.
Defined.

(** ** The predicate language *)

(** Claim C4, at its failing input and in general.  The expression
    [modified < 0.5] compiles to one condition whose duration is 30 minutes,
    and an entry satisfies it exactly when its modification time is
    _earlier_ than the reading of the clock minus 30 minutes, that is, when
    the entry is older than half an hour: an entry modified 10 minutes
    before the reading is rejected, one modified an hour before it is
    accepted. *)
Theorem modified_lt_half_hour_selects_older :
  exists f : Filter.ConditionFilter,
    Filter.NewConditionFilter (Filter.ParseConditions "modified < 0.5") = inr f /\
    Filter.conditions f = [Filter.mkCondition "modified" "<" (Filter.VDuration (30 * Filter.Minute))] /\
    (forall (clock : nat -> Z) (e : FileInfo) (n : nat),
       fst (Filter.IsSatisfied clock f e n) = true
       <-> MTime e < clock n - 30 * Filter.Minute) /\
    (forall (now size : Z) (n : nat),
       fst (Filter.IsSatisfied (fun _ => now) f
              (mkFileInfo "/a/f1" size (now - 10 * Filter.Minute) 0 0 420
                          false false true false) n) = false) /\
    (forall (now size : Z) (n : nat),
       fst (Filter.IsSatisfied (fun _ => now) f
              (mkFileInfo "/a/f1" size (now - 60 * Filter.Minute) 0 0 420
                          false false true false) n) = true).
Proof.
  exists (Filter.mkConditionFilter
            [Filter.mkCondition "modified" "<"
               (Filter.VDuration (30 * Filter.Minute))]).
  split; [vm_compute; reflexivity |].
  split; [reflexivity |].
  assert (H : forall (clock : nat -> Z) (e : FileInfo) (n : nat),
             fst (Filter.IsSatisfied clock
                    (Filter.mkConditionFilter
                       [Filter.mkCondition "modified" "<"
                          (Filter.VDuration (30 * Filter.Minute))]) e n)
             = (MTime e <? clock n - 30 * Filter.Minute)).
  { intros clock e n. lazy -[Z.ltb Z.sub Z.mul MTime Filter.Minute].
    destruct (MTime e <? clock n - 30 * Filter.Minute); reflexivity. }
  split; [| split].
  - intros clock e n. rewrite H. apply Z.ltb_lt.
  - intros now size n. rewrite H. cbn [MTime].
    apply Z.ltb_ge. unfold Filter.Minute. lia.
  - intros now size n. rewrite H. cbn [MTime].
    apply Z.ltb_lt. unfold Filter.Minute. lia.
Qed.

(** Claim C5, at its failing input.  [ParseConditions] cuts the expression
    at every occurrence of the letters [and], also inside a quoted value:
    [name in 'sandbox'] becomes the two clauses [name in 's] and [box'], the
    second one has no operator, and the compilation of the filter fails.
    The clause itself, handed to [parseCondition] in one piece, is the single
    condition with the value [sandbox]. *)
Theorem and_inside_a_value_cuts_the_clause :
  Filter.ParseConditions "name in 'sandbox'" = ["name in 's"; "box'"] /\
  Filter.NewConditionFilter (Filter.ParseConditions "name in 'sandbox'")
    = inl (Filter.ErrCondition "box'" (Filter.ErrNoOperator "box'")) /\
  Filter.parseCondition "name in 'sandbox'"
    = inr (Filter.mkCondition "name" "in" (Filter.VString "sandbox")) /\
  Filter.ParseConditions "type == 'dir' AND size > 1K"
    = ["type == 'dir'"; "size > 1k"].
Proof. repeat split; vm_compute; reflexivity. Qed.


(** *** Lower-casing by the command line *)

Abbreviation lower := Spec.lower.

Lemma is_upper_lower_char (c : ascii) : Strings.is_upper (Strings.lower_char c) = false.
Proof. destruct c as [[] [] [] [] [] [] [] []]; reflexivity. Qed.

Lemma lower_ToLower (s : string) : lower (Strings.ToLower s).
Proof.
  unfold lower. induction s as [| c s IH]; [reflexivity |].
  cbn. now rewrite is_upper_lower_char, IH.
Qed.

Lemma has_upper_app (a b : string) :
  Strings.has_upper (a +:+ b) = Strings.has_upper a || Strings.has_upper b.
Proof.
  induction a as [| c a IH]; [reflexivity |].
  rewrite app_cons. cbn. now rewrite IH, orb_assoc.
Qed.

Lemma lower_cons (c : ascii) (s : string) :
  lower (String c s) <-> Strings.is_upper c = false /\ lower s.
Proof. unfold lower. cbn. apply orb_false_iff. Qed.

Lemma lower_drop_while (p : ascii -> bool) (s : string) :
  lower s -> lower (Strings.drop_while p s).
Proof.
  induction s as [| c s IH]; [trivial |].
  intros H. cbn. destruct (p c); [| exact H].
  apply IH. now apply lower_cons in H.
Qed.

Lemma lower_drop_while_end (p : ascii -> bool) (s : string) :
  lower s -> lower (Strings.drop_while_end p s).
Proof.
  induction s as [| c s IH]; [trivial |].
  intros H. apply lower_cons in H as [Hc Hs]. specialize (IH Hs).
  cbn. destruct (Strings.drop_while_end p s) eqn:E.
  - destruct (p c); [reflexivity |]. apply lower_cons. now split.
  - apply lower_cons. now split.
Qed.

Lemma lower_TrimSpace (s : string) : lower s -> lower (Strings.TrimSpace s).
Proof. intros H. now apply lower_drop_while_end, lower_drop_while. Qed.

Lemma lower_Trim (s cutset : string) : lower s -> lower (Strings.Trim s cutset).
Proof. intros H. now apply lower_drop_while_end, lower_drop_while. Qed.

Lemma lower_strip_prefix (p s r : string) :
  Strings.strip_prefix p s = Some r -> lower s -> lower r.
Proof.
  revert s. induction p as [| a p IH]; intros s Hp Hs; cbn in Hp.
  - now injection Hp as <-.
  - destruct s as [| b s]; [discriminate |].
    destruct (Ascii.eqb a b); [| discriminate].
    apply lower_cons in Hs as [_ Hs]. now apply (IH s).
Qed.

Lemma lower_split_go (sep s : string) (skip : nat) (cur : string) :
  lower s -> lower cur -> Forall lower (Strings.split_go sep s skip cur).
Proof.
  revert skip cur. induction s as [| c s IH]; intros skip cur Hs Hc; cbn.
  - now constructor.
  - apply lower_cons in Hs as [Hu Hs].
    destruct skip as [| k]; [| now apply IH].
    destruct (Strings.strip_prefix sep (String c s)).
    + constructor; [exact Hc | now apply IH].
    + apply IH; [exact Hs |].
      unfold lower. rewrite has_upper_app. cbn. now rewrite Hc, Hu.
Qed.

(** Every clause [ParseConditions] returns is free of upper-case letters. *)
Lemma lower_ParseConditions (input : string) :
  Forall lower (Filter.ParseConditions input).
Proof.
  unfold Filter.ParseConditions.
  apply List.Forall_forall. intros c Hc.
  apply List.filter_In in Hc as [Hc _].
  apply in_map_iff in Hc as (p & <- & Hp).
  apply lower_TrimSpace.
  pose proof (lower_split_go "and" (Strings.ToLower input) 0 EmptyString
                (lower_ToLower input) eq_refl) as H.
  rewrite List.Forall_forall in H. now apply H.
Qed.

Lemma lower_first_alternative (ops : list string) (s op rest : string) :
  Filter.first_alternative ops s = Some (op, rest) -> lower s -> lower rest.
Proof.
  induction ops as [| o ops IH]; cbn; [discriminate |].
  destruct (Strings.strip_prefix o s) eqn:E.
  - intros [= <- <-] Hs. now apply (lower_strip_prefix o s).
  - exact IH.
Qed.

Lemma lower_match_operator (s op rest : string) :
  Filter.match_operator s = Some (op, rest) -> lower s -> lower rest.
Proof.
  unfold Filter.match_operator.
  destruct (Filter.first_alternative _ _) as [[o r] |] eqn:E; [| discriminate].
  intros [= <- <-] Hs. apply lower_drop_while.
  apply (lower_first_alternative _ _ _ _ E). now apply lower_drop_while.
Qed.

Lemma lower_find_operator (s before b op rest : string) :
  Filter.find_operator s before = Some (b, op, rest) ->
  lower s -> lower before -> lower b /\ lower rest.
Proof.
  revert before. induction s as [| c s IH]; intros before; cbn.
  - discriminate.
  - destruct (Filter.match_operator (String c s)) as [[o r] |] eqn:E.
    + intros [= <- <- <-] Hs Hb. split; [exact Hb |].
      now apply (lower_match_operator _ _ _ E).
    + intros H Hs Hb. apply lower_cons in Hs as [Hu Hs].
      apply (IH _ H Hs).
      unfold lower. rewrite has_upper_app. cbn. now rewrite Hb, Hu.
Qed.

(** A string value compiled from a lower-case clause is lower-case. *)
Lemma lower_parseCondition (condStr : string) (cond : Filter.Condition) (v : string) :
  Filter.parseCondition condStr = inr cond ->
  lower condStr ->
  Filter.CValue cond = Filter.VString v ->
  lower v.
Proof.
  unfold Filter.parseCondition.
  destruct (Filter.find_operator condStr EmptyString) as [[[b op] rest] |] eqn:E;
    [| discriminate].
  intros H Hl Hv.
  destruct (lower_find_operator _ _ _ _ _ E Hl eq_refl) as [_ Hrest].
  destruct (_ || _).
  - injection H as <-. cbn in Hv. injection Hv as <-.
    now apply lower_Trim, lower_TrimSpace.
  - destruct (_ =? "size")%string.
    + destruct (Filter.parseSize _); [discriminate |].
      injection H as <-. discriminate Hv.
    + destruct (_ =? "modified")%string; [| discriminate].
      destruct (Filter.parseDuration _); [discriminate |].
      injection H as <-. discriminate Hv.
Qed.

Lemma compile_all_In (conds : list string) (acc cs : list Filter.Condition) :
  Filter.compile_all conds acc = inr cs ->
  forall cond, In cond cs ->
    In cond acc \/ exists c, In c conds /\ Filter.parseCondition c = inr cond.
Proof.
  revert acc. induction conds as [| c conds IH]; intros acc; cbn.
  - intros [= <-] cond H. now left.
  - destruct (Filter.parseCondition c) as [e | cd] eqn:E; [discriminate |].
    intros H cond Hin.
    destruct (IH _ H cond Hin) as [Hacc | (c' & Hc' & Hp)].
    + apply in_app_or in Hacc as [Hacc | [<- | []]]; [now left |].
      right. exists c. split; [now left | exact E].
    + right. exists c'. split; [now right | exact Hp].
Qed.

Lemma NewConditionFilter_In (conds : list string) (f : Filter.ConditionFilter) :
  Filter.NewConditionFilter conds = inr f ->
  forall cond, In cond (Filter.conditions f) ->
    exists c, In c conds /\ Filter.parseCondition c = inr cond.
Proof.
  unfold Filter.NewConditionFilter.
  destruct (Filter.compile_all conds []) as [e | cs] eqn:E; [discriminate |].
  intros [= <-] cond Hin. cbn in Hin.
  destruct (compile_all_In _ _ _ E cond Hin) as [[] | H]. exact H.
Qed.

Lemma eqb_upper_lower (a b : string) :
  Strings.has_upper a = true -> lower b -> (a =? b)%string = false.
Proof.
  intros Ha Hb. apply String.eqb_neq. intros ->.
  unfold lower in Hb. congruence.
Qed.

(** A condition that fails at every instant makes its filter fail. *)
Lemma IsSatisfied_false (clock : nat -> Z) (conds : list Filter.Condition)
  (e : FileInfo) (cond : Filter.Condition) :
  In cond conds ->
  (forall now, Filter.matchConditionAt now e cond = false) ->
  forall n, fst (Filter.satisfied_loop clock conds e n) = false.
Proof.
  intros Hin Hf. induction conds as [| c conds IH]; [destruct Hin |].
  intros n. cbn. unfold Filter.bind, Filter.matchCondition, Filter.bind,
    Filter.time_Now, Filter.ret. cbn.
  destruct (Filter.matchConditionAt (clock n) e c) eqn:E; [| reflexivity].
  destruct Hin as [-> | Hin]; [now rewrite Hf in E |].
  now apply IH.
Qed.

(** Claim C10 as stated fails for [!=] and for [like]: compiled through
    the command line, [name != 'README.md'] is satisfied by the entry
    [/README.md], and [name like 'read%'] by the entry [/readME.md]; both
    base names contain upper-case letters. *)
Lemma upper_case_name_matches_counterexample :
  (exists f : Filter.ConditionFilter,
     Filter.NewConditionFilter (Filter.ParseConditions "name != 'README.md'") = inr f /\
     Strings.has_upper (Filepath.Base (Key (Scenario.file "/" "README.md" 1))) = true /\
     fst (Filter.IsSatisfied (fun _ => 0) f (Scenario.file "/" "README.md" 1) 0%nat)
       <> false) /\
  (exists f : Filter.ConditionFilter,
     Filter.NewConditionFilter (Filter.ParseConditions "name like 'read%'") = inr f /\
     Strings.has_upper (Filepath.Base (Key (Scenario.file "/" "readME.md" 1))) = true /\
     fst (Filter.IsSatisfied (fun _ => 0) f (Scenario.file "/" "readME.md" 1) 0%nat)
       <> false).
Proof.
  split; eexists; (split; [vm_compute; reflexivity |]);
    (split; [reflexivity |]); vm_compute; discriminate.
Qed.

(** Claim C10, amended.  Compilation through the command line lower-cases
    the whole expression, quoted values included, before it is parsed: every
    clause and every compiled string value is free of upper-case letters, and
    a condition [name == ...] of the compiled filter is satisfied by no entry
    whose base name contains an upper-case letter, so neither is the filter.
    (Nothing of the kind holds for [!=] and [like].) *)
Theorem cli_filter_is_lower_case :
  forall (input : string) (f : Filter.ConditionFilter),
    Filter.NewConditionFilter (Filter.ParseConditions input) = inr f ->
    Forall (fun clause => Strings.has_upper clause = false)
           (Filter.ParseConditions input) /\
    (forall (cond : Filter.Condition) (v : string),
       In cond (Filter.conditions f) ->
       Filter.CValue cond = Filter.VString v ->
       Strings.has_upper v = false) /\
    (forall (cond : Filter.Condition) (e : FileInfo),
       In cond (Filter.conditions f) ->
       Filter.Property cond = "name" ->
       Filter.Operator cond = "==" ->
       Strings.has_upper (Filepath.Base (Key e)) = true ->
       (forall now : Z, Filter.matchConditionAt now e cond = false) /\
       (forall (clock : nat -> Z) (n : nat),
          fst (Filter.IsSatisfied clock f e n) = false)).
Proof.
  intros input f Hf.
  assert (Hv : forall cond v, In cond (Filter.conditions f) ->
                 Filter.CValue cond = Filter.VString v -> lower v).
  { intros cond v Hin Hval.
    destruct (NewConditionFilter_In _ _ Hf cond Hin) as (c & Hc & Hp).
    apply (lower_parseCondition c cond v Hp); [| exact Hval].
    pose proof (lower_ParseConditions input) as Hl.
    rewrite List.Forall_forall in Hl. now apply Hl. }
  split; [exact (lower_ParseConditions input) |].
  split; [exact Hv |].
  intros cond e Hin Hprop Hop Hup.
  assert (Hnow : forall now : Z, Filter.matchConditionAt now e cond = false).
  { intros now. unfold Filter.matchConditionAt. rewrite Hprop.
    replace ("name" =? "name")%string with true by reflexivity.
    destruct (Filter.CValue cond) as [v | |] eqn:Hval; try reflexivity.
    unfold Filter.matchString. rewrite Hop.
    replace ("==" =? "==")%string with true by reflexivity.
    apply eqb_upper_lower; [exact Hup | now apply (Hv cond)]. }
  split; [exact Hnow |].
  intros clock n. unfold Filter.IsSatisfied.
  now apply (IsSatisfied_false clock _ e cond).
Qed.

Lemma cli_filter_is_lower_case_witness :
  Filter.NewConditionFilter (Filter.ParseConditions "name == 'README.md'")
    = inr (Filter.mkConditionFilter
             [Filter.mkCondition "name" "==" (Filter.VString "readme.md")]) /\
  fst (Filter.IsSatisfied (fun _ => 0)
         (Filter.mkConditionFilter
            [Filter.mkCondition "name" "==" (Filter.VString "readme.md")])
         (Scenario.file "/" "README.md" 1) 0%nat) = false.
Proof.
  split; [reflexivity |].
  destruct (cli_filter_is_lower_case "name == 'README.md'"
              (Filter.mkConditionFilter
                 [Filter.mkCondition "name" "==" (Filter.VString "readme.md")])
              eq_refl) as (_ & _ & H).
  destruct (H (Filter.mkCondition "name" "==" (Filter.VString "readme.md"))
              (Scenario.file "/" "README.md" 1)) as [_ H'];
    [now left | reflexivity | reflexivity | reflexivity |].
  apply H'.
Defined.

(** ** The walker *)

Ltac unfold_monad := unfold Filter.bind, Filter.ret in *.

Lemma bind_ext {A B : Type} (m1 m2 : Filter.M A) (k1 k2 : A -> Filter.M B) (n : nat) :
  (forall n, m1 n = m2 n) ->
  (forall a n, k1 a n = k2 a n) ->
  Filter.bind m1 k1 n = Filter.bind m2 k2 n.
Proof.
  intros Hm Hk. unfold Filter.bind. rewrite Hm.
  destruct (m2 n) as [a n']. apply Hk.
Qed.

Section WalkerFacts.

Variable clock : nat -> Z.
Variable depth : Z.
Variables M X : Filter.ConditionFilter.

Abbreviation admission := (Walker.admission clock M X).

Abbreviation capped := (Spec.capped depth).

Lemma emit_loop_filterM (q : list FileInfo) (n : nat) :
  Walker.emit_loop clock M X q n = Spec.filterM admission q n.
Proof.
  revert n. induction q as [| o q IH]; intros n; [reflexivity |].
  cbn. unfold_monad. destruct (admission o n) as [ok n1].
  now rewrite IH.
Qed.

Lemma filterM_app (p : FileInfo -> Filter.M bool) (l1 l2 : list FileInfo) (n : nat) :
  Spec.filterM p (l1 ++ l2) n
  = Filter.bind (Spec.filterM p l1) (fun a =>
    Filter.bind (Spec.filterM p l2) (fun b => Filter.ret (a ++ b))) n.
Proof.
  revert n. induction l1 as [| e l1 IH]; intros n; cbn; unfold_monad.
  - now destruct (Spec.filterM p l2 n).
  - destruct (p e n) as [ok n1]. rewrite IH.
    destruct (Spec.filterM p l1 n1) as [a n2].
    destruct (Spec.filterM p l2 n2) as [b n3].
    now destruct ok.
Qed.

Lemma capped_app (l1 l2 : list (Z * FileInfo)) :
  capped (l1 ++ l2) = capped l1 ++ capped l2.
Proof. unfold capped. now rewrite List.filter_app, map_app. Qed.

(** Everything enumerated below a directory of depth [d] is at least that
    deep. *)
Lemma enumerate_depths (t : Walker.tree) :
  forall d, Forall (fun de => d <= fst de) (Spec.enumerate t d).
Proof.
  induction t as [i l IH] using Walker.tree_listing_ind. intros d.
  destruct l as [cs |]; cbn; [| constructor].
  apply Forall_app. split.
  - apply List.Forall_forall. intros de Hde.
    apply in_map_iff in Hde as (c & <- & _). cbn. lia.
  - induction IH as [| c cs' Hc _ IHcs]; [constructor |].
    apply Forall_app. split; [| exact IHcs].
    destruct (IsDir (Walker.info c)); [| constructor].
    eapply Forall_impl; [apply (Hc (d + 1)) |].
    cbn. intros de Hde. lia.
Qed.

Lemma capped_beyond (t : Walker.tree) (d : Z) :
  0 < depth -> depth < d -> capped (Spec.enumerate t d) = [].
Proof.
  intros H0 Hd. unfold capped.
  pose proof (enumerate_depths t d) as Hall.
  induction Hall as [| de l Hde _ IH]; [reflexivity |].
  cbn [List.filter].
  replace (depth <=? 0) with false in * by (symmetry; apply Z.leb_gt; lia).
  replace (fst de <=? depth) with false by (symmetry; apply Z.leb_gt; lia).
  exact IH.
Qed.

Lemma capped_level (cs : list Walker.tree) (d : Z) :
  (0 <? depth) && (depth <? d) = false ->
  capped (map (fun c => (d, Walker.info c)) cs) = map Walker.info cs.
Proof.
  intros H. unfold capped.
  assert (Hk : (depth <=? 0) || (d <=? depth) = true).
  { apply andb_false_iff in H as [H | H].
    - apply Z.ltb_ge in H. apply orb_true_iff. left. now apply Z.leb_le.
    - apply Z.ltb_ge in H. apply orb_true_iff. right. now apply Z.leb_le. }
  induction cs as [| c cs IH]; [reflexivity |].
  cbn. rewrite Hk. cbn. now rewrite IH.
Qed.

(** The worker sends what the admission test keeps of the entries below
    its directory that the depth cap leaves. *)
Lemma worker_filterM (t : Walker.tree) :
  forall (d : Z) (n : nat),
    Walker.worker clock depth M X t d n
    = Spec.filterM admission (capped (Spec.enumerate t d)) n.
Proof.
  induction t as [i l IH] using Walker.tree_listing_ind. intros d n.
  cbn [Walker.worker].
  destruct ((0 <? depth) && (depth <? d)) eqn:Hcap.
  - apply andb_true_iff in Hcap as [H0 Hd].
    apply Z.ltb_lt in H0. apply Z.ltb_lt in Hd.
    now rewrite capped_beyond.
  - destruct l as [cs |]; [| reflexivity].
    cbn [Spec.enumerate].
    rewrite capped_app, filterM_app, capped_level by exact Hcap.
    apply bind_ext; [apply emit_loop_filterM |].
    intros sent n1. apply bind_ext; [| reflexivity].
    clear n n1 sent.
    induction IH as [| c cs' Hc _ IHcs]; intros m; [reflexivity |].
    rewrite capped_app, filterM_app.
    destruct (IsDir (Walker.info c)).
    + apply bind_ext; [apply Hc |].
      intros a m1. apply bind_ext; [apply IHcs | reflexivity].
    + rewrite IHcs. cbn. unfold_monad.
      now destruct (Spec.filterM admission _ m).
Qed.

End WalkerFacts.

(** The verdict of the evaluation loop when the readings of the clock make
    no difference to its conditions. *)
Lemma satisfied_loop_steady (clock : nat -> Z) (now : Z)
  (conds : list Filter.Condition) (e : FileInfo) :
  (forall c, In c conds ->
     forall k, Filter.matchConditionAt (clock k) e c = Filter.matchConditionAt now e c) ->
  forall n, fst (Filter.satisfied_loop clock conds e n)
            = forallb (Filter.matchConditionAt now e) conds.
Proof.
  induction conds as [| c conds IH]; intros Hc n; [reflexivity |].
  cbn. unfold Filter.matchCondition, Filter.time_Now. unfold_monad.
  rewrite (Hc c) by now left.
  destruct (Filter.matchConditionAt now e c); [| reflexivity].
  apply IH. intros c' Hc'. apply Hc. now right.
Qed.

Lemma admission_steady (clock : nat -> Z) (now : Z) (M X : Filter.ConditionFilter)
  (e : FileInfo) :
  (forall c, In c (Filter.conditions M ++ Filter.conditions X) ->
     forall k, Filter.matchConditionAt (clock k) e c = Filter.matchConditionAt now e c) ->
  forall n, fst (Walker.admission clock M X e n) = Spec.admission_rule now M X e.
Proof.
  intros Hc n.
  assert (HM : forall n, fst (Filter.satisfied_loop clock (Filter.conditions M) e n)
                         = forallb (Filter.matchConditionAt now e) (Filter.conditions M)).
  { apply satisfied_loop_steady. intros c H. apply Hc, in_or_app. now left. }
  assert (HX : forall n, fst (Filter.satisfied_loop clock (Filter.conditions X) e n)
                         = forallb (Filter.matchConditionAt now e) (Filter.conditions X)).
  { apply satisfied_loop_steady. intros c H. apply Hc, in_or_app. now right. }
  unfold Walker.admission, Spec.admission_rule, Spec.is_empty, Spec.satisfies,
    Filter.IsSatisfied.
  unfold Filter.bind at 1.
  destruct (Filter.conditions M) as [| m ms] eqn:EM.
  - unfold Filter.ret at 1. unfold Filter.bind.
    destruct (Filter.conditions X) as [| x xs] eqn:EX; [reflexivity |].
    specialize (HX n).
    destruct (Filter.satisfied_loop clock (x :: xs) e n) as [b n1].
    cbn [fst] in HX. cbn. now rewrite HX.
  - specialize (HM n).
    destruct (Filter.satisfied_loop clock (m :: ms) e n) as [a n1].
    cbn [fst] in HM. rewrite HM. unfold Filter.bind.
    destruct (Filter.conditions X) as [| x xs] eqn:EX; [reflexivity |].
    specialize (HX n1).
    destruct (Filter.satisfied_loop clock (x :: xs) e n1) as [b n2].
    cbn [fst] in HX. now rewrite HX.
Qed.

(** A condition on a property other than [modified] does not depend on the
    instant. *)
Lemma matchConditionAt_timeless (now1 now2 : Z) (e : FileInfo) (c : Filter.Condition) :
  (Filter.Property c =? "modified")%string = false ->
  Filter.matchConditionAt now1 e c = Filter.matchConditionAt now2 e c.
Proof.
  intros H. unfold Filter.matchConditionAt. rewrite H. reflexivity.
Qed.

Lemma timeless_In (f : Filter.ConditionFilter) (c : Filter.Condition) :
  Spec.timeless f = true -> In c (Filter.conditions f) ->
  (Filter.Property c =? "modified")%string = false.
Proof.
  unfold Spec.timeless. rewrite forallb_forall. intros H Hin.
  apply negb_true_iff. now apply H.
Qed.

Lemma filterM_pure (p : FileInfo -> Filter.M bool) (q : FileInfo -> bool)
  (l : list FileInfo) :
  (forall e n, fst (p e n) = q e) ->
  forall n, fst (Spec.filterM p l n) = List.filter q l.
Proof.
  intros Hp. induction l as [| e l IH]; intros n; [reflexivity |].
  cbn. unfold_monad. specialize (Hp e n).
  destruct (p e n) as [ok n1]. cbn in Hp. subst ok.
  specialize (IH n1). destruct (Spec.filterM p l n1) as [kept n2].
  cbn in IH. subst kept. now destruct (q e).
Qed.

(** With at least one worker, the walk of the storage is the walk of the
    root at depth 1. *)
Lemma ListAll_filterM
  (clock : nat -> Z) (storage : Walker.tree) (concurrency depth : Z)
  (M X : Filter.ConditionFilter) (n : nat) :
  0 < concurrency ->
  Walker.ListAll clock storage concurrency depth M X n
  = Spec.filterM (Walker.admission clock M X) (Spec.entries_within depth storage) n.
Proof.
  intros Hc. unfold Walker.ListAll.
  replace (concurrency <=? 0) with false by (symmetry; apply Z.leb_gt; lia).
  apply worker_filterM.
Qed.

(** Claim C2.  Started with at least one worker, the walker sends exactly
    the entries that pass the admission test, among the entries of the
    storage that the depth cap leaves: its output is that list of entries,
    which depends on neither filter and so contains what lies below a
    directory whether or not the directory itself passes, filtered by the
    test in the order of the walk.  The test reads the clock; when the
    filters have no condition on [modified], or when the clock stands still
    at [now], it is the rule
    [(M is empty or M(e)) and not (X is non-empty and X(e))]. *)
Theorem walker_emits_what_passes_admission :
  forall (clock : nat -> Z) (storage : Walker.tree) (concurrency depth : Z)
         (M X : Filter.ConditionFilter) (n : nat),
    0 < concurrency ->
    Walker.ListAll clock storage concurrency depth M X n
      = Spec.filterM (Walker.admission clock M X) (Spec.entries_within depth storage) n /\
    (Spec.timeless M = true ->
     Spec.timeless X = true ->
     forall now : Z,
       fst (Walker.ListAll clock storage concurrency depth M X n)
         = List.filter (Spec.admission_rule now M X) (Spec.entries_within depth storage)) /\
    (forall now : Z,
       (forall k, clock k = now) ->
       fst (Walker.ListAll clock storage concurrency depth M X n)
         = List.filter (Spec.admission_rule now M X) (Spec.entries_within depth storage)).
Proof.
  intros clock storage concurrency depth M X n Hc.
  pose proof (ListAll_filterM clock storage concurrency depth M X n Hc) as H.
  split; [exact H |]. split.
  - intros HM HX now. rewrite H.
    apply filterM_pure. intros e k. apply admission_steady.
    intros c Hin j. apply matchConditionAt_timeless.
    apply in_app_or in Hin as [Hin | Hin];
      [apply (timeless_In M) | apply (timeless_In X)]; assumption.
  - intros now Hnow. rewrite H.
    apply filterM_pure. intros e k. apply admission_steady.
    intros c _ j. now rewrite Hnow.
Qed.

Lemma walker_emits_what_passes_admission_witness :
  0 < 5 /\
  map Key
    (fst (Walker.ListAll (fun _ => 0) Scenario.storage 5 0
            (Filter.mkConditionFilter
               [Filter.mkCondition "size" ">" (Filter.VInt64 1024)])
            (Filter.mkConditionFilter
               [Filter.mkCondition "name" "like" (Filter.VString "g%")])
            0%nat))
  = ["/a/f2"].
Proof.
  split; [lia |].
  rewrite (proj1 (proj2 (walker_emits_what_passes_admission
                    (fun _ => 0) Scenario.storage 5 0
                    (Filter.mkConditionFilter
                       [Filter.mkCondition "size" ">" (Filter.VInt64 1024)])
                    (Filter.mkConditionFilter
                       [Filter.mkCondition "name" "like" (Filter.VString "g%")])
                    0%nat ltac:(lia))) eq_refl eq_refl 0).
  reflexivity.
Defined.

Lemma filterM_no_filter (clock : nat -> Z) (l : list FileInfo) (n : nat) :
  Spec.filterM (Walker.admission clock Scenario.no_filter Scenario.no_filter) l n = (l, n).
Proof.
  revert n. induction l as [| e l IH]; intros n; [reflexivity |].
  cbn. unfold_monad. cbn. now rewrite IH.
Qed.

Lemma filter_all {A : Type} (p : A -> bool) (l : list A) :
  Forall (fun x => p x = true) l -> List.filter p l = l.
Proof.
  induction 1 as [| x l Hx _ IH]; [reflexivity |].
  cbn. now rewrite Hx, IH.
Qed.

Lemma filter_none {A : Type} (p : A -> bool) (l : list A) :
  Forall (fun x => p x = false) l -> List.filter p l = [].
Proof.
  induction 1 as [| x l Hx _ IH]; [reflexivity |].
  cbn. now rewrite Hx, IH.
Qed.

(** With the cap 1 only the listing of the root is left. *)
Lemma entries_within_one (i : FileInfo) (cs : list Walker.tree) :
  Spec.entries_within 1 (Walker.Node i (Some cs)) = map Walker.info cs.
Proof.
  unfold Spec.entries_within, Spec.capped. cbn [Spec.enumerate].
  rewrite List.filter_app, map_app.
  rewrite filter_all, filter_none.
  - rewrite app_nil_r, map_map. reflexivity.
  - induction cs as [| c cs IH]; [constructor |].
    apply Forall_app. split; [| exact IH].
    destruct (IsDir (Walker.info c)); [| constructor].
    eapply Forall_impl; [apply (enumerate_depths c (1 + 1)) |].
    cbn. intros de Hde. apply Z.leb_gt. lia.
  - apply List.Forall_forall. intros de Hde.
    apply in_map_iff in Hde as (c & <- & _). reflexivity.
Qed.

(** Claim C3.  Started with at least one worker and without filters, the
    walker sends, for a cap [D > 0], exactly the entries of depth at most
    [D], every entry having a depth of at least 1 (the depth of the direct
    children of the root); for [D = 0] it sends all the entries; and for
    [D = 1] what it sends is the listing of the root. *)
Theorem depth_cap_bounds_the_emitted_depths :
  forall (clock : nat -> Z) (storage : Walker.tree) (concurrency : Z) (n : nat),
    0 < concurrency ->
    let emitted D :=
      fst (Walker.ListAll clock storage concurrency D
             Scenario.no_filter Scenario.no_filter n) in
    Forall (fun de => 1 <= fst de) (Spec.enumerate storage 1) /\
    (forall D : Z,
       0 < D ->
       emitted D = map snd (List.filter (fun de => fst de <=? D)
                                        (Spec.enumerate storage 1))) /\
    emitted 0 = map snd (Spec.enumerate storage 1) /\
    emitted 1 = match Walker.listing storage with
                | Some children => map Walker.info children
                | None => []
                end.
Proof.
  intros clock storage concurrency n Hc emitted.
  assert (H : forall D, emitted D = Spec.entries_within D storage).
  { intros D. unfold emitted.
    rewrite (ListAll_filterM
               clock storage concurrency D _ _ n Hc).
    now rewrite filterM_no_filter. }
  split; [apply enumerate_depths |].
  split; [| split].
  - intros D HD. rewrite H. unfold Spec.entries_within, Spec.capped.
    replace (D <=? 0) with false by (symmetry; apply Z.leb_gt; lia).
    reflexivity.
  - rewrite H. unfold Spec.entries_within, Spec.capped. cbn [Z.leb Z.compare orb].
    now rewrite filter_all by (apply List.Forall_forall; reflexivity).
  - rewrite H. destruct storage as [i [cs |]]; [apply entries_within_one |].
    reflexivity.
Qed.

Lemma depth_cap_bounds_the_emitted_depths_witness :
  0 < 5 /\
  map Key (fst (Walker.ListAll (fun _ => 0) Scenario.storage 5 1
                  Scenario.no_filter Scenario.no_filter 0%nat))
  = ["/a"; "/b"] /\
  map Key (fst (Walker.ListAll (fun _ => 0) Scenario.storage 5 2
                  Scenario.no_filter Scenario.no_filter 0%nat))
  = ["/a"; "/b"; "/a/f1"; "/a/f2"; "/b/g1"; "/b/c"].
Proof.
  split; [lia |].
  destruct (depth_cap_bounds_the_emitted_depths
              (fun _ => 0) Scenario.storage 5 0%nat ltac:(lia))
    as (_ & HD & _ & H1).
  split.
  - cbv zeta in H1. rewrite H1. reflexivity.
  - cbv zeta in HD. rewrite (HD 2 ltac:(lia)). reflexivity.
Defined.

(** ** The incremental diff engine *)

Section BloomFacts.

Variable m : N.
Variable k : nat.
Variable location : string -> nat -> N.

Lemma TestString_mono (f g : Bloom.BloomFilter) (data : string) :
  f ⊆ g ->
  Bloom.TestString m k location f data = true ->
  Bloom.TestString m k location g data = true.
Proof.
  unfold Bloom.TestString. intros Hfg H.
  rewrite forallb_forall in *. intros l Hl.
  specialize (H l Hl). apply bool_decide_eq_true in H.
  apply bool_decide_eq_true. set_solver.
Qed.

Lemma TestString_AddString (f : Bloom.BloomFilter) (data : string) :
  Bloom.TestString m k location (Bloom.AddString m k location f data) data = true.
Proof.
  unfold Bloom.TestString, Bloom.AddString.
  apply forallb_forall. intros l Hl.
  apply bool_decide_eq_true. apply elem_of_union. right.
  apply elem_of_list_to_set. now apply list_elem_of_In.
Qed.

Lemma fold_AddString_subset (paths : list string) (f : Bloom.BloomFilter) :
  f ⊆ fold_left (Bloom.AddString m k location) paths f.
Proof.
  revert f. induction paths as [| p paths IH]; intros f; cbn; [done |].
  etrans; [| apply IH]. unfold Bloom.AddString. set_solver.
Qed.

(** No false negative: a path the filter was warmed with tests positive. *)
Lemma warm_no_false_negative (paths : list string) (p : string) :
  In p paths -> Bloom.TestString m k location (Scan.warm m k location paths) p = true.
Proof.
  unfold Scan.warm. generalize Bloom.New.
  induction paths as [| q paths IH]; intros f; [intros [] |].
  intros [-> | Hin]; cbn.
  - eapply TestString_mono; [apply fold_AddString_subset |].
    apply TestString_AddString.
  - now apply IH.
Qed.

End BloomFacts.

Lemma SaveEntries_existing (buffer : list FileInfo) (name : string)
  (db : Catalog.DB) (rows : list Db.FileInfoData) :
  name <> EmptyString ->
  db !! name = Some rows ->
  Catalog.SaveEntries buffer name db
  = Some (<[name := rows ++ map Db.ProcessFileInfo buffer]> db).
Proof.
  intros Hn Hl. unfold Catalog.SaveEntries.
  destruct buffer as [| e buffer].
  - cbn. rewrite app_nil_r. now rewrite insert_id.
  - apply String.eqb_neq in Hn. rewrite Hn, Hl. reflexivity.
Qed.

(** The batching loop appends the rows of the whole stream, in order. *)
Lemma save_loop_existing (stream : list FileInfo) :
  forall (buffer : list FileInfo) (name : string) (batchSize : Z)
         (db : Catalog.DB) (rows : list Db.FileInfoData),
    name <> EmptyString ->
    db !! name = Some rows ->
    Scan.save_loop stream buffer name batchSize db
    = <[name := rows ++ map Db.ProcessFileInfo (buffer ++ stream)]> db.
Proof.
  induction stream as [| e stream IH]; intros buffer name batchSize db rows Hn Hl.
  - cbn [Scan.save_loop]. rewrite app_nil_r.
    destruct buffer as [| b buffer].
    + cbn. rewrite app_nil_r. now rewrite insert_id.
    + now rewrite (SaveEntries_existing _ _ _ rows).
  - cbn [Scan.save_loop].
    destruct (batchSize <=? Z.of_nat (length (buffer ++ [e]))).
    + rewrite (SaveEntries_existing _ _ _ rows) by assumption.
      rewrite (IH [] name batchSize _ (rows ++ map Db.ProcessFileInfo (buffer ++ [e])))
        by (try assumption; apply lookup_insert_eq).
      rewrite insert_insert_eq. cbn [app].
      now rewrite <- app_assoc, <- map_app, <- app_assoc.
    + rewrite (IH (buffer ++ [e]) name batchSize db rows) by assumption.
      now rewrite <- app_assoc.
Qed.

Lemma tempTableName_not_empty (uuid : string) :
  Scan.tempTableName uuid <> EmptyString.
Proof. discriminate. Qed.

Lemma existsb_key (key : string) (fs : list Db.FileInfoData) :
  existsb (fun f => (key =? Db.dKey f)%string) fs = true
  <-> In key (map Db.dKey fs).
Proof.
  rewrite existsb_exists, in_map_iff. split.
  - intros (f & Hf & He). apply String.eqb_eq in He. now exists f.
  - intros (f & He & Hf). exists f. split; [exact Hf |].
    apply String.eqb_eq. now symmetry.
Qed.

(** The loader on a fresh temporary table. *)
Lemma loadCandidatesToTemp_fresh (cands : list FileInfo) (db : Catalog.DB)
  (name : string) (batchSize : Z) :
  0 <= batchSize ->
  name <> EmptyString ->
  db !! name = None ->
  Scan.loadCandidatesToTemp cands (Catalog.CreateTable name db) name batchSize
  = Some (<[name := map Db.ProcessFileInfo cands]> db).
Proof.
  intros Hb Hname Hfresh. unfold Scan.loadCandidatesToTemp, Catalog.CreateTable.
  rewrite Hfresh. destruct cands as [| c cands]; [reflexivity |].
  replace (batchSize <? 0) with false by (symmetry; apply Z.ltb_ge; lia).
  rewrite (save_loop_existing (c :: cands) [] name batchSize _ [])
    by (try exact Hname; apply lookup_insert_eq).
  now rewrite insert_insert_eq.
Qed.

Lemma candidates_fit (p : FileInfo -> bool) (scanned : list FileInfo) :
  Z.of_nat (length scanned) <= 100000 ->
  (Scan.candidateCap <? Z.of_nat (length (List.filter p scanned))) = false.
Proof.
  intros H. apply Z.ltb_ge. unfold Scan.candidateCap.
  pose proof (List.filter_length_le p scanned). lia.
Qed.

Lemma filter_length_mono {A : Type} (p q : A -> bool) (l : list A) :
  (forall x, p x = true -> q x = true) ->
  (length (List.filter p l) <= length (List.filter q l))%nat.
Proof.
  intros H. induction l as [| x l IH]; [reflexivity |].
  cbn [List.filter]. destruct (p x) eqn:E.
  - rewrite (H x E). cbn [length]. lia.
  - destruct (q x); cbn [length]; lia.
Qed.

(** Claim C1.  Let the catalog hold the table [file_entries] with the rows
    [prior], and let the name of the temporary table be fresh.  The engine
    does not return for every stream of scanned entries:
    - when more than 100000 of the scanned entries have a stored path, the
      prefilter fills the channel of candidates, which nothing reads yet, and
      never returns: no new file is ever reported;
    - when the batch size is negative and an entry has a stored path, the
      loader panics.
    For a batch size that is not negative and a stream of at most 100000
    entries, whatever the filter's dimensions and hash, the engine returns
    its two outputs, and
    - every row of [newFiles] and of [changedFiles] is the row of a scanned
      entry;
    - no path of [newFiles] is a path of [file_entries];
    - every path of [changedFiles] is the path of a row of [file_entries]
      that differs from it in [ctime] or in [mtime];
    - every scanned entry whose path is not in [file_entries] has its row
      in [newFiles]: the prefilter loses none. *)
Theorem incremental_diff_blocks_on_a_full_candidate_queue :
  forall (m : N) (k : nat) (location : string -> nat -> N)
         (db : Catalog.DB) (prior : list Db.FileInfoData)
         (uuid : string) (batchSize : Z) (scanned : list FileInfo),
    db !! Catalog.file_entries = Some prior ->
    db !! Scan.tempTableName uuid = None ->
    (100000 < Z.of_nat (length (List.filter
                                  (fun e => existsb (fun f => (Key e =? Db.dKey f)%string) prior)
                                  scanned)) ->
     Scan.ProcessFilesForIncrementalScan m k location db uuid batchSize scanned = None) /\
    (batchSize < 0 ->
     (exists e, In e scanned /\ In (Key e) (map Db.dKey prior)) ->
     Scan.ProcessFilesForIncrementalScan m k location db uuid batchSize scanned = None) /\
    (0 <= batchSize ->
     Z.of_nat (length scanned) <= 100000 ->
     exists (newFiles changedFiles : list Db.FileInfoData) (db' : Catalog.DB),
       Scan.ProcessFilesForIncrementalScan m k location db uuid batchSize scanned
         = Some (newFiles, changedFiles, db') /\
       (forall r, In r (newFiles ++ changedFiles) ->
          exists e, In e scanned /\ r = Db.ProcessFileInfo e) /\
       (forall r, In r newFiles -> ~ In (Db.dKey r) (map Db.dKey prior)) /\
       (forall r, In r changedFiles ->
          exists f, In f prior /\ Db.dKey f = Db.dKey r /\
                    (Db.dCTime f <> Db.dCTime r \/ Db.dMTime f <> Db.dMTime r)) /\
       (forall e, In e scanned ->
          ~ In (Key e) (map Db.dKey prior) ->
          In (Db.ProcessFileInfo e) newFiles)).
Proof.
  intros m k location db prior uuid batchSize scanned Hprior Hfresh.
  set (name := Scan.tempTableName uuid) in *.
  set (known := fun item : FileInfo =>
         Bloom.TestString m k location
           (Scan.warm m k location (map Db.dKey prior)) (Key item)).
  set (cands := List.filter known scanned).
  assert (Hne : name <> Catalog.file_entries) by (intros E; congruence).
  assert (Hknown : forall e, In (Key e) (map Db.dKey prior) -> known e = true).
  { intros e He. unfold known. now apply warm_no_false_negative. }
  unfold Scan.ProcessFilesForIncrementalScan, Scan.bloomPreFilter,
    Catalog.QueryPaths.
  rewrite Hprior. fold known. fold cands. fold name.
  split; [| split].
  - intros Hmany.
    replace (Scan.candidateCap <? Z.of_nat (length cands)) with true; [reflexivity |].
    symmetry. apply Z.ltb_lt. unfold Scan.candidateCap.
    pose proof (filter_length_mono
                  (fun e => existsb (fun f => (Key e =? Db.dKey f)%string) prior)
                  known scanned) as Hle.
    assert (Hle' : (length (List.filter
                              (fun e => existsb (fun f => (Key e =? Db.dKey f)%string) prior)
                              scanned) <= length cands)%nat).
    { apply Hle. intros e He. apply Hknown. now apply existsb_key. }
    lia.
  - intros Hb (e & He & Hk).
    destruct (Scan.candidateCap <? Z.of_nat (length cands)); [reflexivity |].
    assert (Hc : In e cands).
    { apply List.filter_In. split; [exact He | now apply Hknown]. }
    unfold Scan.loadCandidatesToTemp.
    destruct cands as [| c cands']; [destruct Hc |].
    replace (batchSize <? 0) with true by (symmetry; apply Z.ltb_lt; lia).
    reflexivity.
  - intros Hb Hlen.
    rewrite (candidates_fit known scanned Hlen : (_ <? Z.of_nat (length cands)) = false).
    rewrite (loadCandidatesToTemp_fresh cands db name batchSize Hb
               (tempTableName_not_empty uuid) Hfresh).
    unfold Catalog.QueryExactNewFiles, Catalog.QueryChangedFiles.
    rewrite lookup_insert_eq, lookup_insert_ne, Hprior by exact Hne.
    eexists _, _, _. split; [reflexivity |].
    assert (Hcand : forall r, In r (map Db.ProcessFileInfo cands) ->
                      exists e, In e scanned /\ r = Db.ProcessFileInfo e).
    { intros r Hr. apply in_map_iff in Hr as (e & <- & He).
      apply List.filter_In in He as [He _]. now exists e. }
    split; [| split; [| split]].
    + intros r Hr. rewrite !in_app_iff in Hr. destruct Hr as [[Hr | Hr] | Hr].
      * apply in_map_iff in Hr as (e & <- & He).
        apply List.filter_In in He as [He _]. now exists e.
      * apply List.filter_In in Hr as [Hr _]. now apply Hcand.
      * apply in_flat_map in Hr as (t & Ht & Hr).
        apply in_map_iff in Hr as (f & <- & _). now apply Hcand.
    + intros r Hr Hin. apply in_app_or in Hr as [Hr | Hr].
      * apply in_map_iff in Hr as (e & <- & He).
        apply List.filter_In in He as [_ He]. apply negb_true_iff in He.
        cbn in Hin. pose proof (Hknown e Hin) as Hk. unfold known in Hk.
        congruence.
      * apply List.filter_In in Hr as [_ Hr]. apply negb_true_iff in Hr.
        apply existsb_key in Hin. congruence.
    + intros r Hr. apply in_flat_map in Hr as (t & Ht & Hr).
      apply in_map_iff in Hr as (f & <- & Hf).
      apply List.filter_In in Hf as [Hf Hd].
      apply andb_true_iff in Hd as [Hk Hd]. apply String.eqb_eq in Hk.
      exists f. split; [exact Hf |]. split; [now symmetry |].
      apply orb_true_iff in Hd as [Hd | Hd]; apply negb_true_iff in Hd;
        apply Z.eqb_neq in Hd; [left | right]; congruence.
    + intros e He Hout. apply in_or_app.
      destruct (known e) eqn:Hk.
      * right. apply List.filter_In. split.
        -- apply in_map. apply List.filter_In. now split.
        -- apply negb_true_iff. apply not_true_is_false.
           intros Hex. now apply existsb_key in Hex.
      * left. apply in_map. apply List.filter_In. split; [exact He |].
        change (negb (known e) = true). now rewrite Hk.
Qed.

(** The failing input: the incremental scan of the large directory, after
    its full scan, never returns; the rescan of the small scenario does. *)
Lemma incremental_diff_blocks_on_a_full_candidate_queue_witness :
  Scan.ProcessFilesForIncrementalScan Rescan.bits Rescan.hashes Rescan.location
    Crowd.catalog Rescan.uuid 1000 Crowd.entries = None /\
  exists (newFiles changedFiles : list Db.FileInfoData) (db' : Catalog.DB),
    Scan.ProcessFilesForIncrementalScan Rescan.bits Rescan.hashes Rescan.location
      Rescan.catalog Rescan.uuid 3 (Rescan.scan Rescan.storage)
      = Some (newFiles, changedFiles, db') /\
    (forall e, In e (Rescan.scan Rescan.storage) ->
       ~ In (Key e)
            (map Db.dKey (map Db.ProcessFileInfo (Rescan.scan Scenario.storage))) ->
       In (Db.ProcessFileInfo e) newFiles).
Proof.
  split.
  - destruct (incremental_diff_blocks_on_a_full_candidate_queue
                Rescan.bits Rescan.hashes Rescan.location Crowd.catalog
                (map Db.ProcessFileInfo Crowd.entries) Rescan.uuid 1000 Crowd.entries)
      as (Hblocks & _ & _).
    + apply lookup_insert_eq.
    + unfold Crowd.catalog. rewrite lookup_insert_ne by discriminate.
      apply lookup_empty.
    + apply Hblocks.
      rewrite filter_all.
      * unfold Crowd.entries. rewrite length_map, length_seq.
        unfold Crowd.size. rewrite Z2Nat.id; lia.
      * apply List.Forall_forall. intros e He. apply existsb_key.
        rewrite map_map. now apply (in_map (fun x => Db.dKey (Db.ProcessFileInfo x))).
  - destruct (incremental_diff_blocks_on_a_full_candidate_queue
                Rescan.bits Rescan.hashes Rescan.location Rescan.catalog
                (map Db.ProcessFileInfo (Rescan.scan Scenario.storage))
                Rescan.uuid 3 (Rescan.scan Rescan.storage))
      as (_ & _ & Hreturns); [vm_compute; reflexivity .. |].
    destruct Hreturns as (n & c & db' & He & _ & _ & _ & Hnew);
      [lia | vm_compute; discriminate |].
    exists n, c, db'. split; [exact He | exact Hnew].
Defined.

(** The outputs of the engine on the rescan: the renamed and the added file
    are new (the added one through the exact query, its path colliding with
    a stored one in the filter), the touched file is changed. *)
Example rescan_outputs :
  option_map (fun out => (map Db.dKey (fst (fst out)), map Db.dKey (snd (fst out))))
    (Scan.ProcessFilesForIncrementalScan Rescan.bits Rescan.hashes Rescan.location
       Rescan.catalog Rescan.uuid 3 (Rescan.scan Rescan.storage))
  = Some (["/a/f2.new"; "/a/f3"], ["/b/g1"]) /\
  Scan.bloomPreFilter Rescan.bits Rescan.hashes Rescan.location
    (Rescan.scan Rescan.storage) Rescan.catalog
  = Some ([Scenario.file "/a" "f2.new" 2048],
          List.filter (fun e => negb (Key e =? "/a/f2.new")%string)
                      (Rescan.scan Rescan.storage)).
Proof. split; vm_compute; reflexivity. Qed.

(** ** Regular expressions: the matcher computes the denotation *)

Section RegexpFacts.

Import Regexp Denotation.

Lemma string_app_nil (a b : string) :
  a +:+ b = EmptyString -> a = EmptyString /\ b = EmptyString.
Proof. destruct a; [now cbn | discriminate]. Qed.

Lemma null_matches (r : re) :
  forall bot eot, null bot eot r = true <-> matches bot eot r EmptyString.
Proof.
  intros bot eot. split.
  - revert bot eot.
    induction r as [| | c | | | | | a IHa b IHb | a IHa b IHb | a IHa];
      intros bot eot H; cbn in H; try discriminate.
    + constructor.
    + subst. constructor.
    + subst. constructor.
    + apply andb_true_iff in H as [Ha Hb].
      change EmptyString with (EmptyString +:+ EmptyString).
      constructor; cbn [is_nil]; rewrite andb_true_r; auto.
    + apply orb_true_iff in H as [H | H]; [apply M_AltL | apply M_AltR]; auto.
    + constructor.
  - intros H. remember EmptyString as s eqn:Es.
    induction H as [ | | | | | | bot eot a b s1 s2 H1 IH1 H2 IH2
                     | bot eot a b s H IH | bot eot a b s H IH | | ];
      cbn; try discriminate; try reflexivity.
    + apply string_app_nil in Es as [-> ->]. cbn [is_nil] in *.
      rewrite andb_true_r in *. now rewrite IH1, IH2.
    + now rewrite IH.
    + rewrite IH by assumption. apply orb_true_r.
Qed.

Lemma matches_Fail (bot eot : bool) (s : string) : ~ matches bot eot Fail s.
Proof. intros H. inversion H. Qed.

(** The derivative matches the rest of what the expression matches. *)
Lemma deriv_sound (c : ascii) (r : re) :
  forall bot eot s,
    matches false eot (deriv bot c r) s -> matches bot eot r (String c s).
Proof.
  induction r as [| | d | | | | | a IHa b IHb | a IHa b IHb | a IHa];
    intros bot eot s H; cbn in H.
  - inversion H.
  - inversion H.
  - destruct (Ascii.eqb c d) eqn:E; [| inversion H].
    apply Ascii.eqb_eq in E. subst d. inversion H; subst. constructor.
  - destruct (Ascii.eqb c newline) eqn:E; [inversion H |].
    inversion H; subst. now constructor.
  - inversion H; subst. constructor.
  - inversion H.
  - inversion H.
  - inversion H as [ | | | | | | | ? ? ? ? ? H' | ? ? ? ? ? H' | | ]; subst.
    + inversion H' as [ | | | | | | ? ? ? ? s1 s2 H1 H2 | | | | ]; subst.
      apply IHa in H1. cbn [andb] in H2.
      change (String c (s1 +:+ s2)) with (String c s1 +:+ s2).
      constructor; [exact H1 |].
      cbn [is_nil]. now rewrite andb_false_r.
    + destruct (null bot false a) eqn:En; [| inversion H'].
      apply null_matches in En. apply IHb in H'.
      change (String c s) with (EmptyString +:+ String c s).
      constructor; cbn [is_nil]; [now rewrite andb_false_r | now rewrite andb_true_r].
  - inversion H; subst; [apply M_AltL | apply M_AltR]; auto.
  - inversion H as [ | | | | | | ? ? ? ? s1 s2 H1 H2 | | | | ]; subst.
    apply IHa in H1. cbn [andb] in H2.
    change (String c (s1 +:+ s2)) with (String c s1 +:+ s2).
    now constructor.
Qed.

Lemma deriv_complete (c : ascii) (r : re) (bot eot : bool) (cs : string) :
  matches bot eot r cs ->
  forall s, cs = String c s -> matches false eot (deriv bot c r) s.
Proof.
  induction 1 as [ | bot eot d | bot eot d Hd | bot eot d | | 
                   | bot eot a b s1 s2 H1 IH1 H2 IH2
                   | bot eot a b s0 H IH | bot eot a b s0 H IH
                   | | bot eot a d s1 s2 H1 IH1 H2 IH2 ];
    intros s Es; try discriminate.
  - injection Es as -> <-. cbn. rewrite Ascii.eqb_refl. constructor.
  - injection Es as -> <-. cbn. rewrite Hd. constructor.
  - injection Es as -> <-. cbn. constructor.
  - cbn [deriv]. destruct s1 as [| d s1].
    + change (s2 = String c s) in Es. subst s2. cbn [is_nil] in *.
      rewrite andb_false_r in H1. rewrite andb_true_r in H2, IH2.
      apply M_AltR. apply null_matches in H1. rewrite H1. now apply IH2.
    + injection Es as -> <-. apply M_AltL.
      constructor; [now apply IH1 |].
      cbn [is_nil] in H2. now rewrite andb_false_r in H2.
  - cbn. apply M_AltL. now apply IH.
  - cbn. apply M_AltR. now apply IH.
  - injection Es as -> <-. cbn [deriv].
    constructor; [now apply IH1 | exact H2].
Qed.

Lemma deriv_matches (c : ascii) (r : re) (bot eot : bool) (s : string) :
  matches false eot (deriv bot c r) s <-> matches bot eot r (String c s).
Proof.
  split; [apply deriv_sound |].
  intros H. now apply (deriv_complete c r bot eot (String c s)).
Qed.

(** [run] decides the denotation. *)
Lemma run_matches (s : string) :
  forall bot r, run bot r s = true <-> matches bot true r s.
Proof.
  induction s as [| c s IH]; intros bot r; cbn.
  - apply null_matches.
  - rewrite IH. apply deriv_matches.
Qed.

End RegexpFacts.

(** ** [like] on patterns without regular-expression characters *)

Section LikeFacts.

Import Regexp Denotation.

Abbreviation like_body := Spec.like_body.

Lemma ReplaceChar_app (a b : string) (old : ascii) (new : string) :
  Strings.ReplaceChar (a +:+ b) old new
  = Strings.ReplaceChar a old new +:+ Strings.ReplaceChar b old new.
Proof.
  induction a as [| c a IH]; [reflexivity |].
  rewrite app_cons. cbn [Strings.ReplaceChar].
  destruct (Ascii.eqb c old).
  - now rewrite IH, string_app_assoc.
  - now rewrite IH, app_cons.
Qed.

Lemma like_body_cons (c : ascii) (p : string) :
  like_body (String c p)
  = (if Ascii.eqb c "%"%char then ".*"
     else if Ascii.eqb c "_"%char then "."
     else String c EmptyString) +:+ like_body p.
Proof.
  unfold like_body. cbn [Strings.ReplaceChar].
  destruct (Ascii.eqb c "%") eqn:E1.
  - now rewrite ReplaceChar_app.
  - cbn [Strings.ReplaceChar]. now destruct (Ascii.eqb c "_").
Qed.

Lemma step_literal (st : pstate) (c : ascii) :
  Spec.is_meta c = false ->
  Ascii.eqb c "%"%char = false ->
  Ascii.eqb c "_"%char = false ->
  step st c = inr (push_item st (Chr c)).
Proof.
  intros H _ _.
  destruct c as [[] [] [] [] [] [] [] []]; (discriminate H || reflexivity).
Qed.

(** The parser reads the body of a [like] pattern as its items. *)
Lemma parse_like_body (p : string) :
  Spec.has_meta p = false ->
  forall (rest : string) (st : pstate),
  exists b1 b2 b3 : bool,
    parse_go (like_body p +:+ rest) st
    = parse_go rest
        (mkPState (mkFrame (alts (top st)) (rev (Spec.like_items p) ++ cur (top st)))
                  (stack st) b1 b2 b3).
Proof.
  induction p as [| c p IH]; intros Hm rest st.
  - exists (last_rep st), (lazy_ok st), (after_open st). now destruct st as [[] ? ? ? ?].
  - cbn in Hm. apply orb_false_elim in Hm as [Hc Hp].
    rewrite like_body_cons, string_app_assoc.
    cbn [Spec.like_items]. unfold Spec.like_item.
    destruct (Ascii.eqb c "%") eqn:E1; [| destruct (Ascii.eqb c "_") eqn:E2].
    + destruct (IH Hp rest
                  (mkPState (mkFrame (alts (top st)) (Star AnyNotNL :: cur (top st)))
                            (stack st) true true false)) as (b1 & b2 & b3 & H).
      cbn [top alts cur stack] in H.
      exists b1, b2, b3. cbn [rev]. rewrite <- app_assoc. cbn [app].
      rewrite <- H. reflexivity.
    + destruct (IH Hp rest (push_item st AnyNotNL)) as (b1 & b2 & b3 & H).
      unfold push_item in H. cbn [top alts cur stack] in H.
      exists b1, b2, b3. cbn [rev]. rewrite <- app_assoc. cbn [app].
      rewrite <- H. reflexivity.
    + destruct (IH Hp rest (push_item st (Chr c))) as (b1 & b2 & b3 & H).
      unfold push_item in H. cbn [top alts cur stack] in H.
      exists b1, b2, b3. cbn [rev]. rewrite <- app_assoc. cbn [app].
      rewrite <- H. rewrite app_cons, app_nil. cbn [parse_go].
      now rewrite (step_literal st c Hc E1 E2).
Qed.

Lemma step_end_anchor (st : pstate) : step st "$"%char = inr (push_item st Eot).
Proof. reflexivity. Qed.

Lemma Compile_like_regex (p : string) :
  Spec.has_meta p = false ->
  Compile (Filter.like_regex p)
  = inr (Alt (Cat Bot (mk_cat (Spec.like_items p ++ [Eot]))) Fail).
Proof.
  intros Hm. unfold Compile, Filter.like_regex. fold (like_body p).
  rewrite app_cons, app_nil. cbn [parse_go].
  change (step init "^"%char) with (inr (A := error) (push_item init Bot)).
  destruct (parse_like_body p Hm "$" (push_item init Bot)) as (b1 & b2 & b3 & H).
  rewrite H. cbn [parse_go]. rewrite step_end_anchor.
  unfold push_item, close_frame. cbn [top stack cur alts rev app init].
  rewrite rev_app_distr, rev_involutive. reflexivity.
Qed.

End LikeFacts.

Section LikeSemantics.

Import Regexp Denotation.

Lemma sql_like_percent (p s : string) :
  Spec.sql_like (String "%" p) s
  = Spec.sql_like p s ||
    match s with
    | EmptyString => false
    | String _ s' => Spec.sql_like (String "%" p) s'
    end.
Proof. destruct s; reflexivity. Qed.

Lemma sql_like_percent_iff (p s : string) :
  Spec.sql_like (String "%" p) s = true
  <-> exists s1 s2, s = s1 +:+ s2 /\ Spec.sql_like p s2 = true.
Proof.
  split.
  - induction s as [| d s IH]; rewrite sql_like_percent; intros H.
    + rewrite orb_false_r in H. now exists EmptyString, EmptyString.
    + apply orb_true_iff in H as [H | H].
      * now exists EmptyString, (String d s).
      * destruct (IH H) as (s1 & s2 & -> & H2).
        now exists (String d s1), s2.
  - intros (s1 & s2 & -> & H). induction s1 as [| d s1 IH].
    + rewrite app_nil, sql_like_percent, H. reflexivity.
    + rewrite app_cons, sql_like_percent, IH. apply orb_true_r.
Qed.

Lemma has_char_app (c : ascii) (a b : string) :
  Spec.has_char c (a +:+ b) = Spec.has_char c a || Spec.has_char c b.
Proof.
  induction a as [| d a IH]; [reflexivity |].
  rewrite app_cons. cbn. now rewrite IH, orb_assoc.
Qed.

Lemma star_any_matches (s : string) :
  Spec.has_char newline s = false ->
  forall bot eot, matches bot eot (Star AnyNotNL) s.
Proof.
  induction s as [| d s IH]; intros H bot eot; [constructor |].
  cbn in H. apply orb_false_elim in H as [Hd Hs].
  change (String d s) with (String d EmptyString +:+ s).
  constructor; [| now apply IH].
  constructor. now rewrite Ascii.eqb_sym.
Qed.

(** The items of a pattern, closed by the end anchor, match what the SQL
    pattern matches, up to the end of the text. *)
Lemma like_items_matches (p : string) :
  forall (bot eot : bool) (s : string),
    Spec.has_char newline s = false ->
    matches bot eot (mk_cat (Spec.like_items p ++ [Eot])) s
    <-> eot = true /\ Spec.sql_like p s = true.
Proof.
  induction p as [| c p IH]; intros bot eot s Hnl.
  - cbn. split.
    + intros H.
      inversion H as [ | | | | | | ? ? ? ? s1 s2 H1 H2 | | | | ]; subst.
      inversion H1; subst. inversion H2; subst. cbn [is_nil] in *.
      match goal with
      | E : true = _ && true |- _ => rewrite andb_true_r in E; symmetry in E
      end.
      rewrite app_nil. now split.
    + intros [-> Hs]. destruct s; [| discriminate].
      change EmptyString with (EmptyString +:+ EmptyString). repeat constructor.
  - cbn [Spec.like_items app mk_cat fold_right]. fold (mk_cat (Spec.like_items p ++ [Eot])).
    unfold Spec.like_item. split.
    + intros H.
      inversion H as [ | | | | | | ? ? ? ? s1 s2 H1 H2 | | | | ]; subst.
      rewrite has_char_app in Hnl. apply orb_false_elim in Hnl as [Hn1 Hn2].
      apply IH in H2 as [-> H2]; [| exact Hn2]. split; [reflexivity |].
      destruct (Ascii.eqb c "%") eqn:E1.
      * apply Ascii.eqb_eq in E1. subst c.
        apply sql_like_percent_iff. now exists s1, s2.
      * destruct (Ascii.eqb c "_") eqn:E2.
        -- inversion H1; subst. rewrite app_cons, app_nil.
           cbn [Spec.sql_like]. now rewrite E1, E2, H2.
        -- inversion H1; subst. rewrite app_cons, app_nil.
           cbn [Spec.sql_like]. now rewrite E1, E2, Ascii.eqb_refl, H2.
    + intros [-> Hs].
      destruct (Ascii.eqb c "%") eqn:E1.
      * apply Ascii.eqb_eq in E1. subst c.
        apply sql_like_percent_iff in Hs as (s1 & s2 & -> & H2).
        rewrite has_char_app in Hnl. apply orb_false_elim in Hnl as [Hn1 Hn2].
        constructor; [now apply star_any_matches |].
        apply IH; [exact Hn2 | now split].
      * destruct s as [| d s]; cbn [Spec.sql_like] in Hs; rewrite E1 in Hs;
          [discriminate |].
        apply andb_true_iff in Hs as [Hc Hs].
        cbn in Hnl. apply orb_false_elim in Hnl as [Hd Hn].
        change (String d s) with (String d EmptyString +:+ s).
        constructor; [| apply IH; [exact Hn | now split]].
        destruct (Ascii.eqb c "_") eqn:E2.
        -- constructor. now rewrite Ascii.eqb_sym.
        -- cbn in Hc. apply Ascii.eqb_eq in Hc. subst d. constructor.
Qed.

(** On a pattern without regular-expression characters and a value without
    line feed, [like] is the SQL match. *)
Lemma like_is_sql_like (value target : string) :
  Spec.has_meta target = false ->
  Spec.has_char newline value = false ->
  Filter.matchString value "like" target = Spec.sql_like target value.
Proof.
  intros Hm Hnl.
  unfold Filter.matchString.
  replace ("like" =? "==")%string with false by reflexivity.
  replace ("like" =? "!=")%string with false by reflexivity.
  replace ("like" =? "in")%string with false by reflexivity.
  replace ("like" =? "like")%string with true by reflexivity.
  unfold MatchString. rewrite (Compile_like_regex target Hm).
  set (body := mk_cat (Spec.like_items target ++ [Eot])).
  apply eq_true_iff_eq. unfold search. rewrite run_matches. split.
  - intros H.
    inversion H as [ | | | | | | ? ? ? ? s0 s12 H0 H12 | | | | ]; subst.
    inversion H12 as [ | | | | | | ? ? ? ? s1 s2 H1 H2 | | | | ]; subst.
    inversion H1 as [ | | | | | | | ? ? ? ? ? HX | ? ? ? ? ? HX | | ]; subst;
      [| inversion HX].
    inversion HX as [ | | | | | | ? ? ? ? t1 t2 Hb Hy | | | | ]; subst.
    inversion Hb as [ | | | | eot' Hbot | | | | | | ]; subst.
    rewrite app_nil in *.
    destruct s0; [| discriminate]. rewrite app_nil in Hnl.
    rewrite has_char_app in Hnl. apply orb_false_elim in Hnl as [Hn1 Hn2].
    apply (like_items_matches target _ _ t2 Hn1) in Hy as [He Hy].
    destruct s2; [| cbn in He; discriminate].
    now rewrite app_nil, string_app_empty_r.
  - intros Hs.
    assert (Hy : matches true true body value)
      by (apply like_items_matches; [exact Hnl | now split]).
    change value with (EmptyString +:+ value). constructor; [constructor |].
    rewrite <- (string_app_empty_r value). constructor; [| constructor].
    cbn [is_nil andb]. apply M_AltL.
    change value with (EmptyString +:+ value). constructor; [constructor |].
    cbn [is_nil andb]. exact Hy.
Qed.

End LikeSemantics.

(** Claim C6, at its failing inputs.  The pattern of [like] is handed to the
    regular expression engine with only [%] and [_] translated, so the other
    characters of the pattern keep their meaning there: the dot of [main.go]
    matches the [X] of [mainXgo], [%.txt] matches [footxt], [a+b] matches
    [aab] and not [a+b] itself; and since the dot of the engine does not
    match a line feed, [_] does not match one either.  The SQL match gives
    the opposite answer in each case.  The two agree on the patterns without
    regular-expression characters, for the values without line feed. *)
Theorem like_pattern_is_a_regular_expression :
  (Filter.matchString "mainXgo" "like" "main.go" = true /\
   Spec.sql_like "main.go" "mainXgo" = false) /\
  (Filter.matchString "footxt" "like" "%.txt" = true /\
   Spec.sql_like "%.txt" "footxt" = false) /\
  (Filter.matchString "aab" "like" "a+b" = true /\
   Spec.sql_like "a+b" "aab" = false) /\
  (Filter.matchString "a+b" "like" "a+b" = false /\
   Spec.sql_like "a+b" "a+b" = true) /\
  (Filter.matchString (String "a" (String Regexp.newline "b")) "like" "a_b" = false /\
   Spec.sql_like "a_b" (String "a" (String Regexp.newline "b")) = true) /\
  (forall value target : string,
     Spec.has_meta target = false ->
     Spec.has_char Regexp.newline value = false ->
     Filter.matchString value "like" target = Spec.sql_like target value).
Proof.
  repeat split; try (vm_compute; reflexivity).
  apply like_is_sql_like.
Qed.

Lemma like_pattern_is_a_regular_expression_witness :
  Spec.has_meta "%main_go" = false /\
  Spec.has_char Regexp.newline "app-main-go" = false /\
  Filter.matchString "app-main-go" "like" "%main_go" = true.
Proof.
  split; [reflexivity |]. split; [reflexivity |].
  destruct like_pattern_is_a_regular_expression as (_ & _ & _ & _ & _ & H).
  rewrite (H "app-main-go" "%main_go" eq_refl eq_refl). reflexivity.
Defined.

(** * Further properties of the code *)

(** ** The statistics in closed form *)

Lemma wrap64_add_l (a b : Z) : Int64.wrap64 (Int64.wrap64 a + b) = Int64.wrap64 (a + b).
Proof.
  unfold Int64.wrap64. f_equal.
  replace ((a + 2 ^ 63) mod 2 ^ 64 - 2 ^ 63 + b + 2 ^ 63)
    with ((a + 2 ^ 63) mod 2 ^ 64 + b) by lia.
  rewrite Zplus_mod_idemp_l. f_equal. lia.
Qed.

Lemma Int64_add_assoc (a b c : Z) :
  Int64.add (Int64.add a b) c = Int64.wrap64 (a + (b + c)).
Proof. unfold Int64.add. rewrite wrap64_add_l. f_equal. lia. Qed.

Lemma filter_nil_existsb {A : Type} (p : A -> bool) (l : list A) :
  existsb p l = false -> List.filter p l = [].
Proof.
  induction l as [| x l IH]; [reflexivity |].
  cbn. destruct (p x); [discriminate | exact IH].
Qed.

Section FoldUpdate.

(** A counter that [Update] advances by [step e], with wrap-around, for the
    entries selected by [sel]. *)
Variable field : Stat.Stats -> Z.
Variable sel : FileInfo -> bool.
Variable step : FileInfo -> Z.
Hypothesis Update_field :
  forall s e, field (Stat.Update s e)
              = if sel e then Int64.add (field s) (step e) else field s.

Lemma fold_counter (l : list FileInfo) :
  forall s, field (fold_left Stat.Update l s)
            = if existsb sel l
              then Int64.wrap64 (field s + Tally.sum step (List.filter sel l))
              else field s.
Proof.
  induction l as [| e l IH]; intros s; [reflexivity |].
  cbn [fold_left existsb List.filter]. rewrite IH, Update_field.
  destruct (sel e); cbn [orb Tally.sum fold_right].
  - fold (Tally.sum step (List.filter sel l)).
    destruct (existsb sel l) eqn:Ex.
    + unfold Int64.add. rewrite wrap64_add_l. f_equal. lia.
    + rewrite (filter_nil_existsb sel l Ex). cbn. unfold Int64.add. f_equal. lia.
  - reflexivity.
Qed.

End FoldUpdate.

Lemma wrap64_zero : Int64.wrap64 0 = 0.
Proof. reflexivity. Qed.

Lemma scan_counter (field : Stat.Stats -> Z) (sel : FileInfo -> bool)
  (step : FileInfo -> Z) (l : list FileInfo) :
  (forall s e, field (Stat.Update s e)
               = if sel e then Int64.add (field s) (step e) else field s) ->
  field Stat.NewStats = 0 ->
  field (Stat.scan_stats l) = Int64.wrap64 (Tally.sum step (List.filter sel l)).
Proof.
  intros HU H0. unfold Stat.scan_stats.
  rewrite (fold_counter field sel step HU), H0.
  destruct (existsb sel l) eqn:Ex; [reflexivity |].
  now rewrite (filter_nil_existsb sel l Ex).
Qed.

Lemma sum_ones (l : list FileInfo) : Tally.sum (fun _ => 1) l = Z.of_nat (length l).
Proof.
  induction l as [| e l IH]; [reflexivity |].
  cbn [Tally.sum fold_right length]. fold (Tally.sum (fun _ => 1) l). lia.
Qed.

Lemma count_le_length (p : FileInfo -> bool) (l : list FileInfo) :
  0 <= Tally.count p l <= Z.of_nat (length l).
Proof.
  unfold Tally.count. split; [lia |].
  apply inj_le. induction l as [| e l IH]; [reflexivity |].
  cbn. destruct (p e); cbn; lia.
Qed.

Lemma count_split (p : FileInfo -> bool) (l : list FileInfo) :
  Tally.count p l + Tally.count (fun e => negb (p e)) l = Z.of_nat (length l).
Proof.
  unfold Tally.count. induction l as [| e l IH]; [reflexivity |].
  cbn [List.filter]. destruct (p e); cbn [negb length]; lia.
Qed.

Lemma Update_fileCount (s : Stat.Stats) (e : FileInfo) :
  Stat.fileCount (Stat.Update s e)
  = if negb (IsDir e) then Int64.add (Stat.fileCount s) 1 else Stat.fileCount s.
Proof. unfold Stat.Update. destruct (IsDir e), (IsSymlink e); reflexivity. Qed.

Lemma Update_dirCount (s : Stat.Stats) (e : FileInfo) :
  Stat.dirCount (Stat.Update s e)
  = if IsDir e then Int64.add (Stat.dirCount s) 1 else Stat.dirCount s.
Proof. unfold Stat.Update. destruct (IsDir e), (IsSymlink e); reflexivity. Qed.

Lemma Update_totalSymlink (s : Stat.Stats) (e : FileInfo) :
  Stat.totalSymlink (Stat.Update s e)
  = if IsSymlink e then Int64.add (Stat.totalSymlink s) 1 else Stat.totalSymlink s.
Proof. unfold Stat.Update. destruct (IsDir e), (IsSymlink e); reflexivity. Qed.

Lemma Update_totalRegularFile (s : Stat.Stats) (e : FileInfo) :
  Stat.totalRegularFile (Stat.Update s e)
  = if negb (IsDir e) && IsRegular e then Int64.add (Stat.totalRegularFile s) 1
    else Stat.totalRegularFile s.
Proof.
  unfold Stat.Update. destruct (IsDir e), (IsSymlink e), (IsRegular e); reflexivity.
Qed.

Lemma Update_totalSize (s : Stat.Stats) (e : FileInfo) :
  Stat.totalSize (Stat.Update s e)
  = if negb (IsDir e) then Int64.add (Stat.totalSize s) (Size e) else Stat.totalSize s.
Proof. unfold Stat.Update. destruct (IsDir e), (IsSymlink e); reflexivity. Qed.

Lemma Update_totalNameLength (s : Stat.Stats) (e : FileInfo) :
  Stat.totalNameLength (Stat.Update s e)
  = if negb (IsDir e) then Int64.add (Stat.totalNameLength s) (Tally.name_length e)
    else Stat.totalNameLength s.
Proof. unfold Stat.Update. destruct (IsDir e), (IsSymlink e); reflexivity. Qed.

Lemma Update_totalDirDepth (s : Stat.Stats) (e : FileInfo) :
  Stat.totalDirDepth (Stat.Update s e)
  = if negb (IsDir e) then Int64.add (Stat.totalDirDepth s) (Stat.dir_depth (Key e))
    else Stat.totalDirDepth s.
Proof. unfold Stat.Update. destruct (IsDir e), (IsSymlink e); reflexivity. Qed.

Section FoldMax.

(** A field that [Update] raises to [value e] for the entries that are not
    directories. *)
Variable field : Stat.Stats -> Z.
Variable value : FileInfo -> Z.
Hypothesis Update_field :
  forall s e, field (Stat.Update s e)
              = if IsDir e then field s else Z.max (field s) (value e).

Lemma fold_maximum (l : list FileInfo) :
  forall s, 0 <= field s ->
    field (fold_left Stat.Update l s)
    = Z.max (field s) (Tally.maximum value (Tally.files l)).
Proof.
  induction l as [| e l IH]; intros s Hs.
  - cbn. lia.
  - cbn [fold_left]. rewrite IH; rewrite Update_field.
    + unfold Tally.files. cbn [List.filter].
      destruct (IsDir e); cbn [negb Tally.maximum fold_right]; [reflexivity |].
      fold (Tally.maximum value (List.filter (fun e => negb (IsDir e)) l)). lia.
    + destruct (IsDir e); lia.
Qed.

End FoldMax.

Lemma Update_maxNameLength (s : Stat.Stats) (e : FileInfo) :
  Stat.maxNameLength (Stat.Update s e)
  = if IsDir e then Stat.maxNameLength s
    else Z.max (Stat.maxNameLength s) (Tally.name_length e).
Proof. apply Update_name_counters. Qed.

Lemma Update_maxDirDepth (s : Stat.Stats) (e : FileInfo) :
  Stat.maxDirDepth (Stat.Update s e)
  = if IsDir e then Stat.maxDirDepth s
    else Z.max (Stat.maxDirDepth s) (Stat.dir_depth (Key e)).
Proof.
  unfold Stat.Update.
  destruct (IsDir e), (IsSymlink e); cbn; try reflexivity;
    destruct (Z.ltb_spec (Stat.maxDirDepth s) (Stat.dir_depth (Key e))); lia.
Qed.

Lemma maximum_nonneg (f : FileInfo -> Z) (l : list FileInfo) : 0 <= Tally.maximum f l.
Proof.
  induction l as [| e l IH]; [reflexivity |].
  cbn [Tally.maximum fold_right]. fold (Tally.maximum f l). lia.
Qed.

(** The statistics of a scan, field by field, from the list of the entries
    received. *)
Lemma scan_stats_closed_form (l : list FileInfo) :
  Stat.scan_stats l
  = Stat.mkStats
      (Int64.wrap64 (Tally.count (fun e => negb (IsDir e)) l))
      (Int64.wrap64 (Tally.count IsDir l))
      (Int64.wrap64 (Tally.sum Size (Tally.files l)))
      (Int64.wrap64 (Tally.count IsSymlink l))
      (Int64.wrap64 (Tally.count (fun e => negb (IsDir e) && IsRegular e) l))
      (Int64.wrap64 (Tally.sum Tally.name_length (Tally.files l)))
      (Tally.maximum Tally.name_length (Tally.files l))
      (Int64.wrap64 (Tally.sum (fun e => Stat.dir_depth (Key e)) (Tally.files l)))
      (Tally.maximum (fun e => Stat.dir_depth (Key e)) (Tally.files l)).
Proof.
  destruct (Stat.scan_stats l) as [fc dc ts sl rf nl mn dd md] eqn:E.
  pose proof (f_equal Stat.fileCount E) as H1.
  pose proof (f_equal Stat.dirCount E) as H2.
  pose proof (f_equal Stat.totalSize E) as H3.
  pose proof (f_equal Stat.totalSymlink E) as H4.
  pose proof (f_equal Stat.totalRegularFile E) as H5.
  pose proof (f_equal Stat.totalNameLength E) as H6.
  pose proof (f_equal Stat.maxNameLength E) as H7.
  pose proof (f_equal Stat.totalDirDepth E) as H8.
  pose proof (f_equal Stat.maxDirDepth E) as H9.
  cbn in H1, H2, H3, H4, H5, H6, H7, H8, H9.
  rewrite (scan_counter Stat.fileCount _ (fun _ => 1) l Update_fileCount eq_refl),
    sum_ones in H1.
  rewrite (scan_counter Stat.dirCount _ (fun _ => 1) l Update_dirCount eq_refl),
    sum_ones in H2.
  rewrite (scan_counter Stat.totalSize _ Size l Update_totalSize eq_refl) in H3.
  rewrite (scan_counter Stat.totalSymlink _ (fun _ => 1) l Update_totalSymlink eq_refl),
    sum_ones in H4.
  rewrite (scan_counter Stat.totalRegularFile _ (fun _ => 1) l
             Update_totalRegularFile eq_refl), sum_ones in H5.
  rewrite (scan_counter Stat.totalNameLength _ Tally.name_length l
             Update_totalNameLength eq_refl) in H6.
  rewrite (scan_counter Stat.totalDirDepth _ (fun e => Stat.dir_depth (Key e)) l
             Update_totalDirDepth eq_refl) in H8.
  unfold Stat.scan_stats in H7, H9.
  rewrite (fold_maximum Stat.maxNameLength Tally.name_length Update_maxNameLength)
    in H7 by reflexivity.
  rewrite (fold_maximum Stat.maxDirDepth (fun e => Stat.dir_depth (Key e))
             Update_maxDirDepth) in H9 by reflexivity.
  cbn [Stat.maxNameLength Stat.maxDirDepth Stat.NewStats] in H7, H9.
  rewrite Z.max_r in H7 by apply maximum_nonneg.
  rewrite Z.max_r in H9 by apply maximum_nonneg.
  unfold Tally.count, Tally.files. clear E. subst. reflexivity.
Qed.

Lemma wrap64_small (z n : Z) :
  0 <= z <= n -> n <= Int64.max_int -> Int64.wrap64 z = z.
Proof.
  intros Hz Hn. apply wrap64_id.
  unfold Int64.in_range, Int64.min_int, Int64.max_int in *. lia.
Qed.

(** X1.  As long as fewer than [2^63] entries are received, the statistics
    count every entry exactly once: [fileCount] is the number of entries
    that are not directories, [dirCount] the number of directories, and the
    two add up to the number of entries; [totalSymlink] counts the symlinks
    whatever their kind, and [totalRegularFile] the regular entries among
    the non-directories, so it never exceeds [fileCount]. *)
Theorem stats_count_every_entry_once :
  forall l : list FileInfo,
    Z.of_nat (length l) <= Int64.max_int ->
    let s := Stat.scan_stats l in
    Stat.fileCount s = Tally.count (fun e => negb (IsDir e)) l /\
    Stat.dirCount s = Tally.count IsDir l /\
    Stat.fileCount s + Stat.dirCount s = Z.of_nat (length l) /\
    Stat.totalSymlink s = Tally.count IsSymlink l /\
    Stat.totalRegularFile s
      = Tally.count (fun e => negb (IsDir e) && IsRegular e) l /\
    Stat.totalRegularFile s <= Stat.fileCount s.
Proof.
  intros l Hl s. unfold s. rewrite scan_stats_closed_form. cbn.
  rewrite !(wrap64_small _ (Z.of_nat (length l))) by (try apply count_le_length; exact Hl).
  pose proof (count_split IsDir l) as Hs.
  repeat split; try lia.
  unfold Tally.count. apply inj_le.
  clear. induction l as [| e l IH]; [reflexivity |].
  cbn. destruct (IsDir e), (IsRegular e); cbn; lia.
Qed.

Lemma stats_count_every_entry_once_witness :
  let l := fst (Walker.ListAll (fun _ => 0) Scenario.storage 5 0
                  Scenario.no_filter Scenario.no_filter 0%nat) in
  Z.of_nat (length l) <= Int64.max_int /\
  Stat.fileCount (Stat.scan_stats l) + Stat.dirCount (Stat.scan_stats l) = 7.
Proof.
  cbv zeta. split; [vm_compute; discriminate |].
  destruct (stats_count_every_entry_once
              (fst (Walker.ListAll (fun _ => 0) Scenario.storage 5 0
                      Scenario.no_filter Scenario.no_filter 0%nat)))
    as (_ & _ & H & _); [vm_compute; discriminate |].
  exact H.
Defined.

Lemma maximum_ge (f : FileInfo -> Z) (l : list FileInfo) (e : FileInfo) :
  In e l -> f e <= Tally.maximum f l.
Proof.
  induction l as [| x l IH]; [intros [] |].
  cbn [Tally.maximum fold_right]. fold (Tally.maximum f l).
  intros [-> | H]; [lia |]. specialize (IH H). lia.
Qed.

(** X2.  The totals are sums over the entries that are not directories,
    modulo [2^64]: the size of a directory is never added to [totalSize],
    nor its name or depth to the name and depth totals; and the maxima bound
    the name length and the depth of every such entry. *)
Theorem stats_totals_skip_directories :
  forall l : list FileInfo,
    let s := Stat.scan_stats l in
    Stat.totalSize s = Int64.wrap64 (Tally.sum Size (Tally.files l)) /\
    Stat.totalNameLength s
      = Int64.wrap64 (Tally.sum Tally.name_length (Tally.files l)) /\
    Stat.totalDirDepth s
      = Int64.wrap64 (Tally.sum (fun e => Stat.dir_depth (Key e)) (Tally.files l)) /\
    (forall e, In e l -> IsDir e = false ->
       Tally.name_length e <= Stat.maxNameLength s /\
       Stat.dir_depth (Key e) <= Stat.maxDirDepth s) /\
    (forall d, IsDir d = true ->
       Stat.totalSize (Stat.scan_stats (l ++ [d])) = Stat.totalSize s).
Proof.
  intros l s. unfold s. rewrite scan_stats_closed_form. cbn.
  repeat split; try reflexivity.
  - apply maximum_ge. apply List.filter_In. split; [assumption |].
    now apply negb_true_iff.
  - apply (maximum_ge (fun e => Stat.dir_depth (Key e))).
    apply List.filter_In. split; [assumption |]. now apply negb_true_iff.
  - intros d Hd. rewrite scan_stats_closed_form. cbn.
    unfold Tally.files. rewrite List.filter_app. cbn. rewrite Hd. cbn.
    now rewrite app_nil_r.
Qed.

Lemma stats_totals_skip_directories_witness :
  Stat.totalSize
    (Stat.scan_stats ([Scenario.file "/a" "f1" 100] ++ [Scenario.dir "/" "a"])) = 100.
Proof.
  destruct (stats_totals_skip_directories [Scenario.file "/a" "f1" 100])
    as (_ & _ & _ & _ & H).
  rewrite (H (Scenario.dir "/" "a") eq_refl). reflexivity.
Defined.

Lemma sum_filter_perm (f : FileInfo -> Z) (p : FileInfo -> bool) (l1 l2 : list FileInfo) :
  Permutation l1 l2 ->
  Tally.sum f (List.filter p l1) = Tally.sum f (List.filter p l2).
Proof.
  induction 1 as [| x l1 l2 _ IH | x y l | l1 l2 l3 _ IH1 _ IH2].
  - reflexivity.
  - cbn [List.filter]. destruct (p x); cbn [Tally.sum fold_right];
      [fold (Tally.sum f (List.filter p l1)); fold (Tally.sum f (List.filter p l2)); lia
      | exact IH].
  - cbn [List.filter]. destruct (p x), (p y); cbn; lia.
  - congruence.
Qed.

Lemma maximum_filter_perm (f : FileInfo -> Z) (p : FileInfo -> bool)
  (l1 l2 : list FileInfo) :
  Permutation l1 l2 ->
  Tally.maximum f (List.filter p l1) = Tally.maximum f (List.filter p l2).
Proof.
  induction 1 as [| x l1 l2 _ IH | x y l | l1 l2 l3 _ IH1 _ IH2].
  - reflexivity.
  - cbn [List.filter]. destruct (p x); cbn [Tally.maximum fold_right];
      [fold (Tally.maximum f (List.filter p l1));
       fold (Tally.maximum f (List.filter p l2)); lia
      | exact IH].
  - cbn [List.filter]. destruct (p x), (p y); cbn; lia.
  - congruence.
Qed.

Lemma count_perm (p : FileInfo -> bool) (l1 l2 : list FileInfo) :
  Permutation l1 l2 -> Tally.count p l1 = Tally.count p l2.
Proof.
  intros H. unfold Tally.count. rewrite <- !sum_ones.
  now apply sum_filter_perm.
Qed.

(** X3.  The statistics do not depend on the order in which the entries
    arrive: two streams that are permutations of each other give the same
    statistics. *)
Theorem stats_ignore_the_order_of_arrival :
  forall l1 l2 : list FileInfo,
    Permutation l1 l2 -> Stat.scan_stats l1 = Stat.scan_stats l2.
Proof.
  intros l1 l2 H. rewrite !scan_stats_closed_form. unfold Tally.files.
  rewrite (count_perm _ l1 l2 H), (count_perm IsDir l1 l2 H),
    (count_perm IsSymlink l1 l2 H),
    (count_perm (fun e => negb (IsDir e) && IsRegular e) l1 l2 H),
    (sum_filter_perm Size _ l1 l2 H),
    (sum_filter_perm Tally.name_length _ l1 l2 H),
    (sum_filter_perm (fun e => Stat.dir_depth (Key e)) _ l1 l2 H),
    (maximum_filter_perm Tally.name_length _ l1 l2 H),
    (maximum_filter_perm (fun e => Stat.dir_depth (Key e)) _ l1 l2 H).
  reflexivity.
Qed.

Lemma stats_ignore_the_order_of_arrival_witness :
  Stat.scan_stats [Scenario.file "/a" "f1" 100; Scenario.dir "/" "a"]
  = Stat.scan_stats [Scenario.dir "/" "a"; Scenario.file "/a" "f1" 100].
Proof.
  apply stats_ignore_the_order_of_arrival. apply perm_swap.
Defined.

Lemma count_zero_forallb (l : list FileInfo) :
  Tally.count (fun e => negb (IsDir e)) l = 0 <-> forallb IsDir l = true.
Proof.
  unfold Tally.count. induction l as [| e l IH]; [easy |].
  cbn. destruct (IsDir e); cbn; [exact IH |]. split; [lia | discriminate].
Qed.

Lemma fileCount_exact (l : list FileInfo) :
  Z.of_nat (length l) <= Int64.max_int ->
  Stat.fileCount (Stat.scan_stats l) = Tally.count (fun e => negb (IsDir e)) l.
Proof.
  intros Hl. rewrite scan_stats_closed_form. cbn [Stat.fileCount].
  apply (wrap64_small _ (Z.of_nat (length l))); [apply count_le_length | exact Hl].
Qed.

(** X4.  The full scan, with a batch size that is not negative, produces
    its report summary exactly when it has received an entry that is not a
    directory: a scan that only finds directories, like a scan that finds
    nothing, ends in the division by zero of the average size. *)
Theorem summary_needs_a_file :
  forall (db : Catalog.DB) (batchSize : Z) (scanned : list FileInfo),
    0 <= batchSize ->
    Z.of_nat (length scanned) <= Int64.max_int ->
    snd (Scan.ProcessFilesForFullScan db batchSize scanned) = None
    <-> forallb IsDir scanned = true.
Proof.
  intros db batchSize scanned _ Hl.
  unfold Scan.ProcessFilesForFullScan. cbn [snd].
  unfold Stat.GenerateConsoleReportSummary, Stat.GetFileCount, Int64.div.
  rewrite (fileCount_exact scanned Hl), <- count_zero_forallb.
  destruct (Z.eqb_spec (Tally.count (fun e => negb (IsDir e)) scanned) 0) as [E | E];
    cbn; split; (congruence || discriminate || easy).
Qed.

Lemma summary_needs_a_file_witness :
  Z.of_nat (length [Scenario.dir "/" "a"; Scenario.dir "/" "b"]) <= Int64.max_int /\
  snd (Scan.ProcessFilesForFullScan ∅ 100 [Scenario.dir "/" "a"; Scenario.dir "/" "b"])
  = None.
Proof.
  split; [vm_compute; discriminate |].
  apply summary_needs_a_file; [lia | vm_compute; discriminate | reflexivity].
Defined.

(** ** The catalog writer *)

Lemma save_loop_default_table (stream : list FileInfo) :
  forall (buffer : list FileInfo) (batchSize : Z) (db : Catalog.DB),
    Scan.save_loop stream buffer EmptyString batchSize db
    = Scan.save_loop stream buffer Catalog.file_entries batchSize db.
Proof.
  induction stream as [| e stream IH]; intros buffer batchSize db.
  - cbn [Scan.save_loop]. destruct buffer; reflexivity.
  - cbn [Scan.save_loop].
    destruct (batchSize <=? Z.of_nat (length (buffer ++ [e]))); [| apply IH].
    replace (Catalog.SaveEntries (buffer ++ [e]) EmptyString db)
      with (Catalog.SaveEntries (buffer ++ [e]) Catalog.file_entries db)
      by (destruct (buffer ++ [e]); reflexivity).
    apply IH.
Qed.

Lemma full_scan_catalog (db : Catalog.DB) (batchSize : Z) (scanned : list FileInfo) :
  fst (fst (Scan.ProcessFilesForFullScan db batchSize scanned))
  = <[Catalog.file_entries :=
        default [] (db !! Catalog.file_entries) ++ map Db.ProcessFileInfo scanned]> db.
Proof.
  unfold Scan.ProcessFilesForFullScan. cbn [fst].
  rewrite save_loop_default_table. unfold Catalog.CreateTable.
  destruct (db !! Catalog.file_entries) as [old |] eqn:E.
  - now rewrite (save_loop_existing scanned [] _ batchSize db old).
  - rewrite (save_loop_existing scanned [] _ batchSize _ [])
      by (try discriminate; apply lookup_insert_eq).
    now rewrite insert_insert_eq.
Qed.

(** X5.  Whatever the batch size, zero included (a negative size is refused
    by the run time when the channel of the writer is made), the catalog
    writer of the full scan appends the row of every entry received to
    [file_entries], in the order received, after the rows the table already
    had, and touches no other table.  As everywhere in the catalog, an
    insertion into a table that exists is taken to succeed. *)
Theorem full_scan_stores_every_entry :
  forall (db : Catalog.DB) (batchSize : Z) (scanned : list FileInfo),
    0 <= batchSize ->
    let db' := fst (fst (Scan.ProcessFilesForFullScan db batchSize scanned)) in
    db' !! Catalog.file_entries
      = Some (default [] (db !! Catalog.file_entries)
              ++ map Db.ProcessFileInfo scanned) /\
    (forall name : string, name <> Catalog.file_entries -> db' !! name = db !! name).
Proof.
  intros db batchSize scanned _ db'. unfold db'. rewrite full_scan_catalog. split.
  - apply lookup_insert_eq.
  - intros name Hn. now apply lookup_insert_ne.
Qed.

Lemma full_scan_stores_every_entry_witness :
  fst (fst (Scan.ProcessFilesForFullScan ∅ 0 (Rescan.scan Scenario.storage)))
    !! Catalog.file_entries
  = Some (map Db.ProcessFileInfo (Rescan.scan Scenario.storage)).
Proof.
  destruct (full_scan_stores_every_entry ∅ 0 (Rescan.scan Scenario.storage))
    as [H _]; [lia | exact H].
Defined.

(** X6.  When the table does not exist every batch fails to be inserted and
    is dropped: the loader, given a batch size that is not negative, runs to
    the end of its stream and leaves the catalog as it was. *)
Theorem batches_for_a_missing_table_are_dropped :
  forall (candidates : list FileInfo) (db : Catalog.DB) (tableName : string)
         (batchSize : Z),
    0 <= batchSize ->
    db !! (if (tableName =? EmptyString)%string then Catalog.file_entries
           else tableName) = None ->
    Scan.loadCandidatesToTemp candidates db tableName batchSize = Some db.
Proof.
  intros candidates db tableName batchSize Hb Hm.
  assert (Hloop : Scan.save_loop candidates [] tableName batchSize db = db);
    [| unfold Scan.loadCandidatesToTemp; destruct candidates; [reflexivity |];
       replace (batchSize <? 0) with false by (symmetry; apply Z.ltb_ge; lia);
       now rewrite Hloop].
  generalize (@nil FileInfo) as buffer.
  assert (Hs : forall b, match Catalog.SaveEntries b tableName db with
                         | Some db' => db'
                         | None => db
                         end = db).
  { intros b. unfold Catalog.SaveEntries. destruct b; [reflexivity |].
    now rewrite Hm. }
  induction candidates as [| e candidates IH]; intros buffer.
  - cbn [Scan.save_loop]. destruct buffer; [reflexivity | apply Hs].
  - cbn [Scan.save_loop].
    destruct (batchSize <=? Z.of_nat (length (buffer ++ [e]))); [| apply IH].
    rewrite Hs. apply IH.
Qed.

Lemma batches_for_a_missing_table_are_dropped_witness :
  Scan.loadCandidatesToTemp [Scenario.file "/a" "f1" 100] ∅ "temp_files_1" 1 = Some ∅.
Proof. apply batches_for_a_missing_table_are_dropped; [lia | reflexivity]. Defined.

(** ** More on the incremental diff engine *)

Section EngineFacts.

Variable m : N.
Variable k : nat.
Variable location : string -> nat -> N.

Abbreviation known := (Diff.known m k location).
Abbreviation stored := Diff.stored.
Abbreviation differs := Diff.differs.

(** The outputs of the engine, spelled out. *)
Lemma engine_outputs (db : Catalog.DB) (prior : list Db.FileInfoData)
  (uuid : string) (batchSize : Z) (scanned : list FileInfo) :
  0 <= batchSize ->
  Z.of_nat (length scanned) <= 100000 ->
  db !! Catalog.file_entries = Some prior ->
  db !! Scan.tempTableName uuid = None ->
  Scan.ProcessFilesForIncrementalScan m k location db uuid batchSize scanned
  = Some (map Db.ProcessFileInfo (List.filter (fun e => negb (known prior e)) scanned)
          ++ List.filter (fun t => negb (stored prior t))
               (map Db.ProcessFileInfo (List.filter (known prior) scanned)),
          flat_map (fun t => map (fun _ => t) (List.filter (differs t) prior))
            (map Db.ProcessFileInfo (List.filter (known prior) scanned)),
          <[Scan.tempTableName uuid :=
              map Db.ProcessFileInfo (List.filter (known prior) scanned)]> db).
Proof.
  intros Hb Hlen Hprior Hfresh.
  set (name := Scan.tempTableName uuid) in *.
  assert (Hne : name <> Catalog.file_entries) by (intros E; congruence).
  unfold Scan.ProcessFilesForIncrementalScan, Scan.bloomPreFilter,
    Catalog.QueryPaths.
  rewrite Hprior. fold name.
  change (fun item : FileInfo =>
            Bloom.TestString m k location
              (Scan.warm m k location (map Db.dKey prior)) (Key item))
    with (Diff.known m k location prior).
  set (cands := List.filter (known prior) scanned).
  rewrite (candidates_fit (known prior) scanned Hlen
           : (_ <? Z.of_nat (length cands)) = false).
  rewrite (loadCandidatesToTemp_fresh cands db name batchSize Hb
             (tempTableName_not_empty uuid) Hfresh).
  unfold Catalog.QueryExactNewFiles, Catalog.QueryChangedFiles.
  rewrite lookup_insert_eq, lookup_insert_ne, Hprior by exact Hne.
  reflexivity.
Qed.

Lemma known_stored (prior : list Db.FileInfoData) (e : FileInfo) :
  In (Key e) (map Db.dKey prior) -> known prior e = true.
Proof. intros H. unfold Diff.known. now apply warm_no_false_negative. Qed.

Lemma stored_key (prior : list Db.FileInfoData) (e : FileInfo) :
  stored prior (Db.ProcessFileInfo e) = true <-> In (Key e) (map Db.dKey prior).
Proof. unfold Diff.stored. apply existsb_key. Qed.

End EngineFacts.

Lemma flat_map_nil {A B : Type} (f : A -> list B) (l : list A) :
  (forall x, In x l -> f x = []) -> flat_map f l = [].
Proof.
  induction l as [| x l IH]; intros H; [reflexivity |].
  cbn. rewrite (H x) by now left. apply IH. intros y Hy. apply H. now right.
Qed.

Lemma key_determines_entry (l : list FileInfo) (e e' : FileInfo) :
  NoDup (map Key l) -> In e l -> In e' l -> Key e = Key e' -> e = e'.
Proof.
  induction l as [| x l IH]; [intros _ [] |].
  cbn [map]. intros Hnd He He' Hk.
  apply NoDup_cons in Hnd as [Hx Hl].
  destruct He as [-> | He], He' as [-> | He'].
  - reflexivity.
  - exfalso. apply Hx. rewrite Hk. apply list_elem_of_In. now apply in_map.
  - exfalso. apply Hx. rewrite <- Hk. apply list_elem_of_In. now apply in_map.
  - now apply IH.
Qed.

(** X7.  Under the conditions of the engine (the table [file_entries] is
    there, the name of the temporary table is fresh, the batch size is not
    negative, and the entries are no more than the 100000 that the channel
    of candidates holds before it is read), the engine reports a
    scanned entry as changed as soon as one stored row of its path has
    another [ctime] or [mtime]; and it is silent about an entry whose path is
    stored with the same times in every row of that path: the row of such an
    entry is in neither output. *)
Theorem changed_entries_are_reported_and_unchanged_are_not :
  forall (m : N) (k : nat) (location : string -> nat -> N)
         (db : Catalog.DB) (prior : list Db.FileInfoData)
         (uuid : string) (batchSize : Z) (scanned : list FileInfo),
    0 <= batchSize ->
    Z.of_nat (length scanned) <= 100000 ->
    db !! Catalog.file_entries = Some prior ->
    db !! Scan.tempTableName uuid = None ->
    exists (newFiles changedFiles : list Db.FileInfoData) (db' : Catalog.DB),
      Scan.ProcessFilesForIncrementalScan m k location db uuid batchSize scanned
        = Some (newFiles, changedFiles, db') /\
      (forall e f, In e scanned -> In f prior -> Db.dKey f = Key e ->
         Db.dCTime f <> CTime e \/ Db.dMTime f <> MTime e ->
         In (Db.ProcessFileInfo e) changedFiles) /\
      (forall e, In e scanned -> In (Key e) (map Db.dKey prior) ->
         (forall f, In f prior -> Db.dKey f = Key e ->
            Db.dCTime f = CTime e /\ Db.dMTime f = MTime e) ->
         ~ In (Db.ProcessFileInfo e) newFiles /\
         ~ In (Db.ProcessFileInfo e) changedFiles).
Proof.
  intros m k location db prior uuid batchSize scanned Hb Hlen Hprior Hfresh.
  rewrite (engine_outputs m k location db prior uuid batchSize scanned
             Hb Hlen Hprior Hfresh).
  eexists _, _, _. split; [reflexivity |]. split.
  - intros e f He Hf Hk Hd.
    apply in_flat_map. exists (Db.ProcessFileInfo e). split.
    + apply in_map. apply List.filter_In. split; [exact He |].
      apply known_stored. rewrite <- Hk. now apply in_map.
    + apply in_map_iff. exists f. split; [reflexivity |].
      apply List.filter_In. split; [exact Hf |].
      unfold Diff.differs. cbn [Db.dKey Db.dCTime Db.dMTime Db.ProcessFileInfo].
      apply andb_true_iff. split; [now apply String.eqb_eq |].
      apply orb_true_iff.
      destruct Hd as [Hd | Hd]; [left | right];
        apply negb_true_iff, Z.eqb_neq; congruence.
  - intros e He Hin Hsame. split.
    + intros Hn. apply in_app_or in Hn as [Hn | Hn].
      * apply in_map_iff in Hn as (e' & He' & Hn).
        apply List.filter_In in Hn as [_ Hn]. apply negb_true_iff in Hn.
        assert (Hk : Key e' = Key e)
          by (apply (f_equal Db.dKey) in He'; exact He').
        rewrite (known_stored m k location prior e') in Hn; [discriminate |].
        now rewrite Hk.
      * apply List.filter_In in Hn as [_ Hn]. apply negb_true_iff in Hn.
        apply (stored_key prior e) in Hin. congruence.
    + intros Hc. apply in_flat_map in Hc as (t & Ht & Hc).
      apply in_map_iff in Hc as (f & Heq & Hf). cbn beta in Heq. subst t.
      apply List.filter_In in Hf as [Hf Hd].
      unfold Diff.differs in Hd. cbn [Db.dKey Db.dCTime Db.dMTime Db.ProcessFileInfo] in Hd.
      apply andb_true_iff in Hd as [Hk Hd]. apply String.eqb_eq in Hk.
      destruct (Hsame f Hf (eq_sym Hk)) as [Hc Hm].
      apply orb_true_iff in Hd as [Hd | Hd]; apply negb_true_iff, Z.eqb_neq in Hd;
        congruence.
Qed.

Lemma changed_entries_are_reported_and_unchanged_are_not_witness :
  Rescan.catalog !! Catalog.file_entries
    = Some (map Db.ProcessFileInfo (Rescan.scan Scenario.storage)) /\
  Rescan.catalog !! Scan.tempTableName Rescan.uuid = None /\
  exists (newFiles changedFiles : list Db.FileInfoData) (db' : Catalog.DB),
    Scan.ProcessFilesForIncrementalScan Rescan.bits Rescan.hashes Rescan.location
      Rescan.catalog Rescan.uuid 3 (Rescan.scan Rescan.storage)
      = Some (newFiles, changedFiles, db') /\
    In (Db.ProcessFileInfo (Rescan.touched (Scenario.file "/b" "g1" (5 * 1024 * 1024)) 99))
       changedFiles /\
    ~ In (Db.ProcessFileInfo (Scenario.file "/a" "f1" 100)) (newFiles ++ changedFiles).
Proof.
  split; [vm_compute; reflexivity |]. split; [vm_compute; reflexivity |].
  destruct (changed_entries_are_reported_and_unchanged_are_not
              Rescan.bits Rescan.hashes Rescan.location Rescan.catalog
              (map Db.ProcessFileInfo (Rescan.scan Scenario.storage))
              Rescan.uuid 3 (Rescan.scan Rescan.storage))
    as (n & c & db' & He & Hc & Hu);
    [lia | vm_compute; discriminate | vm_compute; reflexivity .. |].
  exists n, c, db'. split; [exact He |]. split.
  - apply (Hc _ (Db.ProcessFileInfo (Scenario.file "/b" "g1" (5 * 1024 * 1024)))).
    + vm_compute. tauto.
    + vm_compute. tauto.
    + reflexivity.
    + left. vm_compute. discriminate.
  - destruct (Hu (Scenario.file "/a" "f1" 100)) as [H1 H2].
    + vm_compute. tauto.
    + vm_compute. tauto.
    + intros f Hf Hk. vm_compute in Hf.
      repeat (destruct Hf as [<- | Hf]; [try discriminate Hk; split; reflexivity |]).
      destruct Hf.
    + intros H. apply in_app_or in H as [H | H]; tauto.
Defined.

Lemma tempTableName_not_file_entries (uuid : string) :
  Scan.tempTableName uuid <> Catalog.file_entries.
Proof. discriminate. Qed.

(** X8.  A full scan into a catalog without the table [file_entries],
    followed by an incremental scan of the same entries, each path met once
    and no more than 100000 of them (what the channel of candidates holds),
    reports nothing: no new file and no changed file, whatever the two batch
    sizes, zero included, and the geometry of the prefilter. *)
Theorem rescan_of_an_unchanged_tree_reports_nothing :
  forall (m : N) (k : nat) (location : string -> nat -> N)
         (db : Catalog.DB) (uuid : string) (b1 b2 : Z) (scanned : list FileInfo),
    0 <= b1 ->
    0 <= b2 ->
    Z.of_nat (length scanned) <= 100000 ->
    db !! Catalog.file_entries = None ->
    db !! Scan.tempTableName uuid = None ->
    NoDup (map Key scanned) ->
    exists db' : Catalog.DB,
      Scan.ProcessFilesForIncrementalScan m k location
        (fst (fst (Scan.ProcessFilesForFullScan db b1 scanned))) uuid b2 scanned
      = Some ([], [], db').
Proof.
  intros m k location db uuid b1 b2 scanned _ Hb2 Hlen Hnone Hfresh Hnd.
  rewrite full_scan_catalog, Hnone. cbn [default app].
  set (prior := map Db.ProcessFileInfo scanned).
  assert (Hkeys : map Db.dKey prior = map Key scanned).
  { unfold prior. rewrite map_map. reflexivity. }
  rewrite (engine_outputs m k location _ prior uuid b2 scanned Hb2 Hlen).
  2: apply lookup_insert_eq.
  2: { rewrite lookup_insert_ne; [exact Hfresh |].
       intros H. symmetry in H. now apply tempTableName_not_file_entries in H. }
  assert (Hknown : forall e, In e scanned -> Diff.known m k location prior e = true).
  { intros e He. apply known_stored. rewrite Hkeys. now apply in_map. }
  rewrite (filter_none (fun e => negb (Diff.known m k location prior e)) scanned).
  2: { apply List.Forall_forall. intros e He. now rewrite Hknown. }
  rewrite (filter_all (Diff.known m k location prior) scanned)
    by (apply List.Forall_forall; exact Hknown).
  rewrite (filter_none (fun t => negb (Diff.stored prior t))).
  2: { apply List.Forall_forall. intros t Ht.
       apply in_map_iff in Ht as (e & <- & He).
       apply negb_false_iff. apply stored_key. rewrite Hkeys. now apply in_map. }
  rewrite flat_map_nil.
  - eexists. reflexivity.
  - intros t Ht. apply in_map_iff in Ht as (e & <- & He).
    rewrite filter_none; [reflexivity |].
    apply List.Forall_forall. intros f Hf. apply in_map_iff in Hf as (e' & <- & He').
    unfold Diff.differs. cbn [Db.dKey Db.dCTime Db.dMTime Db.ProcessFileInfo].
    destruct (String.eqb_spec (Key e) (Key e')) as [Hk | Hk]; [| reflexivity].
    rewrite (key_determines_entry scanned e e' Hnd He He' Hk).
    now rewrite !Z.eqb_refl.
Qed.

Lemma rescan_of_an_unchanged_tree_reports_nothing_witness :
  exists db' : Catalog.DB,
    Scan.ProcessFilesForIncrementalScan Rescan.bits Rescan.hashes Rescan.location
      (fst (fst (Scan.ProcessFilesForFullScan ∅ 2 (Rescan.scan Scenario.storage))))
      Rescan.uuid 3 (Rescan.scan Scenario.storage)
    = Some ([], [], db').
Proof.
  apply (rescan_of_an_unchanged_tree_reports_nothing
           Rescan.bits Rescan.hashes Rescan.location ∅ Rescan.uuid 2 3
           (Rescan.scan Scenario.storage)).
  - lia.
  - lia.
  - vm_compute. discriminate.
  - reflexivity.
  - reflexivity.
  - vm_compute.
    repeat (constructor;
      [intros H; apply list_elem_of_In in H; cbn [In] in H; intuition discriminate |]).
    constructor.
Defined.

Section PrefilterFacts.

Variable m : N.
Variable k : nat.
Variable location : string -> nat -> N.
Variable prior : list Db.FileInfoData.





End PrefilterFacts.





(** ** The compiler of filters *)

Lemma first_alternative_In (ops : list string) (s op rest : string) :
  Filter.first_alternative ops s = Some (op, rest) -> In op ops.
Proof.
  induction ops as [| o ops IH]; [discriminate |].
  cbn [Filter.first_alternative].
  destruct (Strings.strip_prefix o s); [intros [= <- _]; now left |].
  intros H. right. now apply IH.
Qed.

Lemma find_operator_In (s : string) :
  forall before b op rest,
    Filter.find_operator s before = Some (b, op, rest) -> In op Filter.operators.
Proof.
  induction s as [| c s IH]; intros before b op rest; cbn [Filter.find_operator];
    unfold Filter.match_operator;
    destruct (Filter.first_alternative Filter.operators _) as [[o r] |] eqn:E.
  - intros [= _ <- _]. now apply first_alternative_In in E.
  - discriminate.
  - intros [= _ <- _]. now apply first_alternative_In in E.
  - apply IH.
Qed.

Lemma ToLower_operator (op : string) :
  In op Filter.operators -> Strings.ToLower op = op.
Proof.
  intros H. cbn in H.
  repeat (destruct H as [<- | H]; [reflexivity |]). destruct H.
Qed.

Lemma parseCondition_well_formed (condStr : string) (c : Filter.Condition) :
  Filter.parseCondition condStr = inr c ->
  In (Filter.Operator c) Filter.operators /\
  match Filter.CValue c with
  | Filter.VString _ =>
      Filter.Property c = "name" \/ Filter.Property c = "type"
      \/ Filter.Property c = "path"
  | Filter.VInt64 _ => Filter.Property c = "size"
  | Filter.VDuration _ => Filter.Property c = "modified"
  end.
Proof.
  unfold Filter.parseCondition.
  destruct (Filter.find_operator condStr EmptyString) as [[[b op] rest] |] eqn:E;
    [| discriminate].
  apply find_operator_In in E.
  set (lprop := Strings.ToLower (Strings.TrimSpace b)).
  destruct (String.eqb_spec lprop "name") as [Hn | Hn].
  { cbn [orb]. intros [= <-]. cbn. rewrite ToLower_operator by exact E.
    split; [exact E | now left]. }
  destruct (String.eqb_spec lprop "type") as [Ht | Ht].
  { cbn [orb]. intros [= <-]. cbn. rewrite ToLower_operator by exact E.
    split; [exact E | right; now left]. }
  destruct (String.eqb_spec lprop "path") as [Hp | Hp].
  { cbn [orb]. intros [= <-]. cbn. rewrite ToLower_operator by exact E.
    split; [exact E | right; now right]. }
  cbn [orb].
  destruct (String.eqb_spec lprop "size") as [Hs | Hs].
  { destruct (Filter.parseSize _); [discriminate |].
    intros [= <-]. cbn. rewrite ToLower_operator by exact E. now split. }
  destruct (String.eqb_spec lprop "modified") as [Hm | Hm]; [| discriminate].
  destruct (Filter.parseDuration _); [discriminate |].
  intros [= <-]. cbn. rewrite ToLower_operator by exact E. now split.
Qed.

(** X11.  In a filter that [NewConditionFilter] returns, every condition has
    one of the five properties, one of the eight operators, in lower case,
    and a value of the type of its property: a string for [name], [type] and
    [path], an integer for [size], a duration for [modified].  The type
    assertions of [matchCondition] therefore never fail on such a filter. *)
Theorem compiled_conditions_are_well_typed :
  forall (conds : list string) (f : Filter.ConditionFilter),
    Filter.NewConditionFilter conds = inr f ->
    Forall (fun c =>
              In (Filter.Operator c) [">="; "<="; "=="; "!="; "in"; "like"; ">"; "<"] /\
              match Filter.CValue c with
              | Filter.VString _ =>
                  Filter.Property c = "name" \/ Filter.Property c = "type"
                  \/ Filter.Property c = "path"
              | Filter.VInt64 _ => Filter.Property c = "size"
              | Filter.VDuration _ => Filter.Property c = "modified"
              end)
           (Filter.conditions f).
Proof.
  intros conds f H. apply List.Forall_forall. intros c Hc.
  destruct (NewConditionFilter_In conds f H c Hc) as (s & _ & Hs).
  exact (parseCondition_well_formed s c Hs).
Qed.

Lemma compiled_conditions_are_well_typed_witness :
  exists f : Filter.ConditionFilter,
    Filter.NewConditionFilter ["size >= 1K"; "MODIFIED<0.5"; "name in 'x'"] = inr f /\
    Forall (fun c =>
              In (Filter.Operator c) [">="; "<="; "=="; "!="; "in"; "like"; ">"; "<"] /\
              match Filter.CValue c with
              | Filter.VString _ =>
                  Filter.Property c = "name" \/ Filter.Property c = "type"
                  \/ Filter.Property c = "path"
              | Filter.VInt64 _ => Filter.Property c = "size"
              | Filter.VDuration _ => Filter.Property c = "modified"
              end)
           (Filter.conditions f).
Proof.
  destruct (Filter.NewConditionFilter ["size >= 1K"; "MODIFIED<0.5"; "name in 'x'"])
    as [e | f] eqn:E.
  - vm_compute in E. discriminate E.
  - exists f. split; [reflexivity |].
    exact (compiled_conditions_are_well_typed _ f E).
Defined.

Lemma compile_all_clauses (conds : list string) :
  forall acc : list Filter.Condition,
    match Filter.compile_all conds acc with
    | inr cs =>
        exists new, cs = acc ++ new /\
          Forall2 (fun s c => Filter.parseCondition s = inr c) conds new
    | inl e =>
        exists pre s post cause,
          conds = pre ++ s :: post /\
          Forall (fun s' => exists c, Filter.parseCondition s' = inr c) pre /\
          Filter.parseCondition s = inl cause /\
          e = Filter.ErrCondition s cause
    end.
Proof.
  induction conds as [| s conds IH]; intros acc; cbn [Filter.compile_all].
  - exists []. split; [now rewrite app_nil_r | constructor].
  - destruct (Filter.parseCondition s) as [cause | c] eqn:E.
    + exists [], s, conds, cause. repeat split; [constructor | exact E].
    + specialize (IH (acc ++ [c])).
      destruct (Filter.compile_all conds (acc ++ [c])) as [e | cs].
      * destruct IH as (pre & s' & post & cause & -> & Hpre & Hs' & ->).
        exists (s :: pre), s', post, cause. repeat split; [| exact Hs'].
        constructor; [now exists c | exact Hpre].
      * destruct IH as (new & -> & Hnew).
        exists (c :: new). split; [now rewrite <- app_assoc |].
        now constructor.
Qed.

(** X12.  [NewConditionFilter] compiles its clauses one by one and in order.
    When it returns a filter, the filter has one condition for each clause,
    the condition [parseCondition] makes of it, at the same place; when it
    fails, the error names the first clause that [parseCondition] rejects,
    with the cause of the rejection, and no filter is returned although the
    clauses before it were accepted. *)
Theorem filter_is_compiled_clause_by_clause :
  forall conds : list string,
    match Filter.NewConditionFilter conds with
    | inr f =>
        Forall2 (fun s c => Filter.parseCondition s = inr c) conds (Filter.conditions f)
    | inl e =>
        exists pre s post cause,
          conds = pre ++ s :: post /\
          Forall (fun s' => exists c, Filter.parseCondition s' = inr c) pre /\
          Filter.parseCondition s = inl cause /\
          e = Filter.ErrCondition s cause
    end.
Proof.
  intros conds. unfold Filter.NewConditionFilter.
  pose proof (compile_all_clauses conds []) as H.
  destruct (Filter.compile_all conds []) as [e | cs]; [exact H |].
  destruct H as (new & -> & Hnew). exact Hnew.
Qed.

(** ** Averages *)

Lemma CountChar_nonneg (s : string) (c : ascii) : 0 <= Strings.CountChar s c.
Proof.
  induction s as [| a s IH]; [reflexivity |].
  cbn [Strings.CountChar]. destruct (Ascii.eqb a c); lia.
Qed.

Lemma dir_depth_nonneg (key : string) : 0 <= Stat.dir_depth key.
Proof.
  unfold Stat.dir_depth.
  destruct (_ || _); [reflexivity | apply CountChar_nonneg].
Qed.

Lemma name_length_nonneg (e : FileInfo) : 0 <= Tally.name_length e.
Proof. unfold Tally.name_length, Strings.len. lia. Qed.

Lemma sum_below_maximum (f : FileInfo -> Z) (l : list FileInfo) :
  (forall e, 0 <= f e) ->
  0 <= Tally.sum f l <= Z.of_nat (length l) * Tally.maximum f l.
Proof.
  intros Hf. induction l as [| e l IH]; [cbn; lia |].
  cbn [Tally.sum Tally.maximum fold_right length].
  fold (Tally.sum f l). fold (Tally.maximum f l).
  pose proof (Hf e). pose proof (maximum_nonneg f l). nia.
Qed.

Lemma average_below_maximum (f : FileInfo -> Z) (l : list FileInfo) :
  (forall e, 0 <= f e) ->
  Tally.sum f l <= Int64.max_int ->
  l <> [] ->
  Int64.quot (Int64.wrap64 (Tally.sum f l)) (Z.of_nat (length l))
    = Tally.sum f l / Z.of_nat (length l) /\
  0 <= Tally.sum f l / Z.of_nat (length l) <= Tally.maximum f l.
Proof.
  intros Hf Hs Hl.
  pose proof (sum_below_maximum f l Hf) as [H0 H1].
  assert (Hn : 0 < Z.of_nat (length l)) by (destruct l; [congruence | cbn; lia]).
  rewrite (wrap64_small _ Int64.max_int) by (try split; lia || reflexivity).
  unfold Int64.quot. rewrite Z.quot_div_nonneg by lia.
  assert (Hq : 0 <= Tally.sum f l / Z.of_nat (length l) <= Tally.maximum f l).
  { split; [apply Z.div_pos; lia |].
    apply Z.div_le_upper_bound; [lia | exact H1]. }
  split; [| exact Hq].
  apply (wrap64_small _ (Tally.sum f l)); [| exact Hs].
  split; [lia |]. apply Z.div_le_upper_bound; [lia | nia].
Qed.

(** X13.  As long as the name lengths and the depths of the entries that are
    not directories add up to less than [2^63], the averages of the report
    are the totals over those entries divided by their number, rounded
    down, and each lies between 0 and the maximum of the report; without
    such an entry both averages are 0. *)
Theorem averages_lie_below_the_maxima :
  forall l : list FileInfo,
    Tally.sum Tally.name_length (Tally.files l) <= Int64.max_int ->
    Tally.sum (fun e => Stat.dir_depth (Key e)) (Tally.files l) <= Int64.max_int ->
    Z.of_nat (length l) <= Int64.max_int ->
    let s := Stat.scan_stats l in
    let n := Z.of_nat (length (Tally.files l)) in
    Stat.GetAvgNameLength s
      = (if n =? 0 then 0 else Tally.sum Tally.name_length (Tally.files l) / n) /\
    Stat.GetAvgDirDepth s
      = (if n =? 0 then 0
         else Tally.sum (fun e => Stat.dir_depth (Key e)) (Tally.files l) / n) /\
    0 <= Stat.GetAvgNameLength s <= Stat.GetMaxNameLength s /\
    0 <= Stat.GetAvgDirDepth s <= Stat.GetMaxDirDepth s.
Proof.
  intros l Hname Hdepth Hlen s n. unfold s.
  rewrite scan_stats_closed_form.
  unfold Stat.GetAvgNameLength, Stat.GetAvgDirDepth, Stat.GetMaxNameLength,
    Stat.GetMaxDirDepth.
  cbn [Stat.fileCount Stat.totalNameLength Stat.totalDirDepth
       Stat.maxNameLength Stat.maxDirDepth].
  assert (Hcount : Int64.wrap64 (Tally.count (fun e => negb (IsDir e)) l) = n).
  { apply (wrap64_small _ (Z.of_nat (length l))); [| exact Hlen].
    apply count_le_length. }
  rewrite Hcount.
  destruct (n =? 0) eqn:Hn.
  - repeat split; try reflexivity; try lia; apply maximum_nonneg.
  - apply Z.eqb_neq in Hn.
    assert (Hne : Tally.files l <> []).
    { intros E. apply Hn. unfold n. now rewrite E. }
    destruct (average_below_maximum Tally.name_length (Tally.files l)
                name_length_nonneg Hname Hne) as [E1 B1].
    destruct (average_below_maximum (fun e => Stat.dir_depth (Key e)) (Tally.files l)
                (fun e => dir_depth_nonneg (Key e)) Hdepth Hne) as [E2 B2].
    fold n in E1, E2, B1, B2. rewrite E1, E2. tauto.
Qed.

Lemma averages_lie_below_the_maxima_witness :
  let s := Stat.scan_stats (Rescan.scan Scenario.storage) in
  0 <= Stat.GetAvgNameLength s <= Stat.GetMaxNameLength s /\
  0 <= Stat.GetAvgDirDepth s <= Stat.GetMaxDirDepth s.
Proof.
  apply (averages_lie_below_the_maxima (Rescan.scan Scenario.storage));
    vm_compute; discriminate.
Defined.

(** ** The clock of a filter *)

Lemma satisfied_loop_readings (clock : nat -> Z) (e : FileInfo)
  (conds : list Filter.Condition) :
  forall n : nat,
    (fst (Filter.satisfied_loop clock conds e n) = true
     <-> forall (i : nat) (c : Filter.Condition),
           conds !! i = Some c ->
           Filter.matchConditionAt (clock (n + i)%nat) e c = true) /\
    (n <= snd (Filter.satisfied_loop clock conds e n) <= n + length conds)%nat /\
    (fst (Filter.satisfied_loop clock conds e n) = true ->
     snd (Filter.satisfied_loop clock conds e n) = (n + length conds)%nat).
Proof.
  induction conds as [| c conds IH]; intros n.
  - cbn. repeat split; try lia. intros _ i c H. destruct i; discriminate H.
  - cbn [Filter.satisfied_loop length].
    unfold Filter.matchCondition, Filter.time_Now, Filter.bind, Filter.ret.
    destruct (Filter.matchConditionAt (clock n) e c) eqn:E.
    + destruct (IH (S n)) as (Hiff & Hb & Hall).
      split; [| split].
      * rewrite Hiff. split.
        -- intros H [| i] c' Hc'.
           ++ cbn in Hc'. injection Hc' as <-. now rewrite Nat.add_0_r.
           ++ cbn in Hc'. rewrite Nat.add_succ_r. now apply (H i c').
        -- intros H i c' Hc'. specialize (H (S i) c' Hc').
           now rewrite Nat.add_succ_r in H.
      * lia.
      * intros H. rewrite (Hall H). lia.
    + cbn [fst snd]. split; [| split].
      * split; [discriminate |]. intros H.
        specialize (H 0%nat c eq_refl). rewrite Nat.add_0_r in H. congruence.
      * lia.
      * discriminate.
Qed.

(** X14.  On a compiled filter, [IsSatisfied] reads the clock once for every
    condition it evaluates, and stops at the first condition that fails.  Started at the
    [n]-th reading, it answers [true] exactly when every condition holds at
    its own reading, the [i]-th condition at reading [n + i]; it then has
    made as many readings as the filter has conditions, and never makes
    more.  A filter without conditions is satisfied without a reading. *)
Theorem filter_reads_the_clock_once_per_condition :
  forall (clock : nat -> Z) (f : Filter.ConditionFilter) (e : FileInfo) (n : nat),
    (exists conds, Filter.NewConditionFilter conds = inr f) ->
    let ok := fst (Filter.IsSatisfied clock f e n) in
    let n' := snd (Filter.IsSatisfied clock f e n) in
    (ok = true
     <-> forall (i : nat) (c : Filter.Condition),
           Filter.conditions f !! i = Some c ->
           Filter.matchConditionAt (clock (n + i)%nat) e c = true) /\
    (n <= n' <= n + length (Filter.conditions f))%nat /\
    (ok = true -> n' = (n + length (Filter.conditions f))%nat).
Proof.
  intros clock f e n _. apply satisfied_loop_readings.
Qed.

Lemma filter_reads_the_clock_once_per_condition_witness :
  let e := Scenario.file "/a" "f1" 100 in
  let clock := fun k : nat => 2 * Filter.Hour + Z.of_nat k in
  exists f : Filter.ConditionFilter,
    Filter.NewConditionFilter ["type == file"; "modified > 1"; "size > 1k"] = inr f /\
    (fst (Filter.IsSatisfied clock f e 5%nat) = true
     <-> forall (i : nat) (c : Filter.Condition),
           Filter.conditions f !! i = Some c ->
           Filter.matchConditionAt (clock (5 + i)%nat) e c = true) /\
    (5 <= snd (Filter.IsSatisfied clock f e 5%nat) <= 5 + length (Filter.conditions f))%nat.
Proof.
  intros e clock.
  destruct (Filter.NewConditionFilter ["type == file"; "modified > 1"; "size > 1k"])
    as [err | f] eqn:E; [vm_compute in E; discriminate E |].
  exists f. split; [reflexivity |].
  destruct (filter_reads_the_clock_once_per_condition clock f e 5%nat) as (H1 & H2 & _).
  - eexists. exact E.
  - split; [exact H1 | exact H2].
Defined.

(** ** What the walker does not look at *)

Lemma settle_info (c : Walker.tree) :
  Walker.info (Shape.settle c) = Walker.info c.
Proof. destruct c as [i [cs |]]; reflexivity. Qed.

Lemma enumerate_settle (t : Walker.tree) :
  forall d, Spec.enumerate (Shape.settle t) d = Spec.enumerate t d.
Proof.
  induction t as [i l IH] using Walker.tree_listing_ind. intros d.
  destruct l as [cs |]; [| reflexivity].
  cbn [Shape.settle Spec.enumerate]. f_equal.
  - induction cs as [| c cs IHcs]; [reflexivity |].
    apply Forall_cons in IH as [_ IH].
    cbn [map]. rewrite (IHcs IH). f_equal.
    destruct (IsDir (Walker.info c)); [now rewrite settle_info | reflexivity].
  - induction cs as [| c cs IHcs]; [reflexivity |].
    apply Forall_cons in IH as [Hc IH].
    rewrite (IHcs IH).
    destruct (IsDir (Walker.info c)) eqn:E.
    + rewrite settle_info, E. now rewrite Hc.
    + cbn [Walker.info]. now rewrite E.
Qed.

(** X15.  A failed listing is not an error of the scan: the walker sends the
    same entries, with the same readings of the clock, as on the storage
    where every directory that cannot be listed is empty.  Nor does it ever
    list an entry that is not a directory: what the storage would answer
    there has no effect. *)
Theorem failed_listings_are_walked_as_empty_directories :
  forall (clock : nat -> Z) (storage : Walker.tree) (concurrency depth : Z)
         (M X : Filter.ConditionFilter) (n : nat),
    (exists conds, Filter.NewConditionFilter conds = inr M) ->
    (exists conds, Filter.NewConditionFilter conds = inr X) ->
    Walker.ListAll clock (Shape.settle storage) concurrency depth M X n
    = Walker.ListAll clock storage concurrency depth M X n.
Proof.
  intros clock storage concurrency depth M X n _ _. unfold Walker.ListAll.
  destruct (concurrency <=? 0); [reflexivity |].
  rewrite !worker_filterM. now rewrite enumerate_settle.
Qed.

Lemma failed_listings_are_walked_as_empty_directories_witness :
  let broken :=
    Walker.Node (Scenario.dir "/" EmptyString)
      (Some [Walker.Node (Scenario.dir "/" "a") None;
             Walker.Node (Scenario.file "/" "f" 1)
               (Some [Walker.Node (Scenario.file "/f" "ghost" 1) None])]) in
  Walker.ListAll (fun _ => 0) (Shape.settle broken) 5 0
    Scenario.no_filter Scenario.no_filter 0%nat
  = Walker.ListAll (fun _ => 0) broken 5 0 Scenario.no_filter Scenario.no_filter 0%nat.
Proof.
  intros broken.
  apply failed_listings_are_walked_as_empty_directories;
    exists []; reflexivity.
Defined.

(** ** How the two filters compose *)

Lemma emitted_timeless (clock : nat -> Z) (storage : Walker.tree)
  (concurrency depth : Z) (M X : Filter.ConditionFilter) (n : nat) (now : Z) :
  0 < concurrency ->
  Spec.timeless M = true ->
  Spec.timeless X = true ->
  fst (Walker.ListAll clock storage concurrency depth M X n)
  = List.filter (Spec.admission_rule now M X) (Spec.entries_within depth storage).
Proof.
  intros Hc HM HX. rewrite ListAll_filterM by exact Hc.
  apply filterM_pure. intros e k. apply admission_steady.
  intros c Hin j. apply matchConditionAt_timeless.
  apply in_app_or in Hin as [Hin | Hin].
  - now apply (timeless_In M).
  - now apply (timeless_In X).
Qed.

Lemma filter_filter_and {A : Type} (p q : A -> bool) (l : list A) :
  List.filter p (List.filter q l) = List.filter (fun x => q x && p x) l.
Proof.
  induction l as [| x l IH]; [reflexivity |].
  cbn [List.filter]. destruct (q x); cbn [List.filter andb]; now rewrite IH.
Qed.

(** X16.  For compiled filters without a condition on [modified], the two
    filters act
    independently of each other: what the walker sends under [--match M] and
    [--exclude X] is what it sends under [M] alone, less the entries that
    satisfy [X]; it is also what it sends under [X] alone, restricted to the
    entries that satisfy [M].  Nothing is pruned on the way: the entries
    below an excluded directory are tested like the others.  And a filter
    with a condition, given as both, leaves nothing. *)
Theorem exclusion_filters_the_matching_walk :
  forall (clock : nat -> Z) (storage : Walker.tree) (concurrency depth : Z)
         (M X : Filter.ConditionFilter) (n n1 n2 : nat) (now : Z),
    (exists conds, Filter.NewConditionFilter conds = inr M) ->
    (exists conds, Filter.NewConditionFilter conds = inr X) ->
    0 < concurrency ->
    Spec.timeless M = true ->
    Spec.timeless X = true ->
    let emitted M X k := fst (Walker.ListAll clock storage concurrency depth M X k) in
    emitted M X n
      = List.filter (fun e => negb (negb (Spec.is_empty X) && Spec.satisfies now X e))
          (emitted M Scenario.no_filter n1) /\
    emitted M X n
      = List.filter (fun e => Spec.is_empty M || Spec.satisfies now M e)
          (emitted Scenario.no_filter X n2) /\
    (Spec.is_empty M = false -> emitted M M n = []).
Proof.
  intros clock storage concurrency depth M X n n1 n2 now _ _ Hc HM HX emitted.
  unfold emitted.
  rewrite !(emitted_timeless clock storage concurrency depth _ _ _ now Hc)
    by (assumption || reflexivity).
  rewrite !filter_filter_and. repeat split.
  - apply List.filter_ext. intros e. unfold Spec.admission_rule.
    cbn. now rewrite andb_true_r.
  - apply List.filter_ext. intros e. unfold Spec.admission_rule.
    cbn. apply andb_comm.
  - intros Hne. apply filter_none. apply List.Forall_forall. intros e _.
    unfold Spec.admission_rule. rewrite Hne. cbn.
    now destruct (Spec.satisfies now M e).
Qed.

Lemma exclusion_filters_the_matching_walk_witness :
  exists M X : Filter.ConditionFilter,
    Filter.NewConditionFilter ["type == file"] = inr M /\
    Filter.NewConditionFilter ["size > 1k"] = inr X /\
    fst (Walker.ListAll (fun _ => 0) Scenario.storage 5 0 M X 0%nat)
      = List.filter (fun e => negb (negb (Spec.is_empty X) && Spec.satisfies 0 X e))
          (fst (Walker.ListAll (fun _ => 0) Scenario.storage 5 0 M Scenario.no_filter 0%nat)) /\
    fst (Walker.ListAll (fun _ => 0) Scenario.storage 5 0 M M 0%nat) = [].
Proof.
  destruct (Filter.NewConditionFilter ["type == file"]) as [e | M] eqn:EM;
    [vm_compute in EM; discriminate EM |].
  destruct (Filter.NewConditionFilter ["size > 1k"]) as [e | X] eqn:EX;
    [vm_compute in EX; discriminate EX |].
  exists M, X. split; [reflexivity |]. split; [reflexivity |].
  assert (HM : Spec.timeless M = true)
    by (vm_compute in EM; injection EM as <-; reflexivity).
  assert (HX : Spec.timeless X = true)
    by (vm_compute in EX; injection EX as <-; reflexivity).
  assert (CM : exists conds, Filter.NewConditionFilter conds = inr M)
    by (eexists; exact EM).
  assert (CX : exists conds, Filter.NewConditionFilter conds = inr X)
    by (eexists; exact EX).
  destruct (exclusion_filters_the_matching_walk (fun _ => 0) Scenario.storage 5 0
              M X 0%nat 0%nat 0%nat 0 CM CX ltac:(lia) HM HX) as (H1 & _ & _).
  destruct (exclusion_filters_the_matching_walk (fun _ => 0) Scenario.storage 5 0
              M M 0%nat 0%nat 0%nat 0 CM CM ltac:(lia) HM HM) as (_ & _ & H3).
  split; [exact H1 |]. apply H3.
  vm_compute in EM. injection EM as <-. reflexivity.
Defined.

(** ** The depth cap, from one value to the next *)

Lemma filter_sublist_mono {A : Type} (p q : A -> bool) (l : list A) :
  (forall x, p x = true -> q x = true) ->
  sublist (List.filter p l) (List.filter q l).
Proof.
  intros H. induction l as [| x l IH]; [constructor |].
  cbn [List.filter]. destruct (p x) eqn:E.
  - rewrite (H x E). now constructor.
  - destruct (q x); [now constructor | exact IH].
Qed.

Lemma sublist_filter_both {A : Type} (p : A -> bool) (l1 l2 : list A) :
  sublist l1 l2 -> sublist (List.filter p l1) (List.filter p l2).
Proof.
  induction 1 as [| x l1 l2 _ IH | x l1 l2 _ IH]; cbn [List.filter].
  - constructor.
  - destruct (p x); [now constructor | exact IH].
  - destruct (p x); [now constructor | exact IH].
Qed.

Lemma sublist_map {A B : Type} (f : A -> B) (l1 l2 : list A) :
  sublist l1 l2 -> sublist (map f l1) (map f l2).
Proof.
  induction 1; cbn [map]; now constructor.
Qed.

Lemma entries_within_uncapped (D : Z) (storage : Walker.tree) :
  D <= 0 -> Spec.entries_within D storage = map snd (Spec.enumerate storage 1).
Proof.
  intros HD. unfold Spec.entries_within, Spec.capped.
  rewrite filter_all; [reflexivity |].
  apply List.Forall_forall. intros de _.
  replace (D <=? 0) with true by (symmetry; apply Z.leb_le; lia). reflexivity.
Qed.

Lemma entries_within_mono (D1 D2 : Z) (storage : Walker.tree) :
  0 < D1 <= D2 \/ D2 <= 0 ->
  sublist (Spec.entries_within D1 storage) (Spec.entries_within D2 storage).
Proof.
  intros H. unfold Spec.entries_within, Spec.capped.
  apply sublist_map, filter_sublist_mono. intros de Hde.
  destruct H as [H | H].
  - replace (D1 <=? 0) with false in Hde by (symmetry; apply Z.leb_gt; lia).
    cbn [orb] in Hde. apply Z.leb_le in Hde.
    apply orb_true_iff. right. apply Z.leb_le. lia.
  - replace (D2 <=? 0) with true by (symmetry; apply Z.leb_le; lia). reflexivity.
Qed.

(** X17.  A depth of zero or less is no cap at all: the walk under
    [--depth -1] is the walk under [--depth 0], entry for entry and reading
    for reading.  And for filters without a condition on [modified], a
    larger cap only adds entries: what is sent under a cap [D1 > 0] is a
    subsequence, in the order of the walk modelled, of what is sent under
    every cap [D2 >= D1] and of what is sent without a cap. *)
Theorem a_larger_depth_only_adds_entries :
  forall (clock : nat -> Z) (storage : Walker.tree) (concurrency : Z)
         (M X : Filter.ConditionFilter) (n : nat),
    (exists conds, Filter.NewConditionFilter conds = inr M) ->
    (exists conds, Filter.NewConditionFilter conds = inr X) ->
    (forall D : Z,
       D <= 0 ->
       Walker.ListAll clock storage concurrency D M X n
       = Walker.ListAll clock storage concurrency 0 M X n) /\
    (0 < concurrency ->
     Spec.timeless M = true ->
     Spec.timeless X = true ->
     forall (D1 D2 : Z) (n1 n2 : nat),
       0 < D1 <= D2 \/ D2 <= 0 ->
       sublist (fst (Walker.ListAll clock storage concurrency D1 M X n1))
               (fst (Walker.ListAll clock storage concurrency D2 M X n2))).
Proof.
  intros clock storage concurrency M X n _ _. split.
  - intros D HD. unfold Walker.ListAll.
    destruct (concurrency <=? 0); [reflexivity |].
    rewrite !worker_filterM.
    change (Spec.capped D (Spec.enumerate storage 1)) with (Spec.entries_within D storage).
    change (Spec.capped 0 (Spec.enumerate storage 1)) with (Spec.entries_within 0 storage).
    now rewrite !entries_within_uncapped by lia.
  - intros Hc HM HX D1 D2 n1 n2 HD.
    rewrite !(emitted_timeless clock storage concurrency _ M X _ 0 Hc HM HX).
    now apply sublist_filter_both, entries_within_mono.
Qed.

Lemma a_larger_depth_only_adds_entries_witness :
  Walker.ListAll (fun _ => 0) Scenario.storage 5 (-1) Scenario.no_filter Scenario.no_filter 0%nat
  = Walker.ListAll (fun _ => 0) Scenario.storage 5 0 Scenario.no_filter Scenario.no_filter 0%nat /\
  sublist
    (fst (Walker.ListAll (fun _ => 0) Scenario.storage 5 1
            Scenario.no_filter Scenario.no_filter 0%nat))
    (fst (Walker.ListAll (fun _ => 0) Scenario.storage 5 2
            Scenario.no_filter Scenario.no_filter 0%nat)).
Proof.
  destruct (a_larger_depth_only_adds_entries (fun _ => 0) Scenario.storage 5
              Scenario.no_filter Scenario.no_filter 0%nat) as [H1 H2];
    [exists []; reflexivity | exists []; reflexivity |].
  split.
  - apply H1. lia.
  - apply H2; [lia | reflexivity | reflexivity | left; lia].
Defined.

(** ** The local storage *)

Lemma List_cons (windows : bool) (sys : Object.osFileInfo -> option (Z * Z))
  (dir : string) (file : Object.osFileInfo) (files : list Object.osFileInfo) :
  Object.List windows sys dir (file :: files)
  = Object.List windows sys dir [file] ++ Object.List windows sys dir files.
Proof. unfold Object.List. cbn [flat_map]. now rewrite app_nil_r. Qed.

(** X18.  The listing of a local directory delivers the entries [Readdir]
    returns, in their order and one object for each, except the entries
    named [.] and [..], which are never delivered.  Every object carries the
    directory listed, so its key is the join of that directory and its name;
    off Windows both its creation time and its access time are its
    modification time, whatever the file system says. *)
Theorem local_listing_skips_dot_entries :
  forall (sys : Object.osFileInfo -> option (Z * Z)) (windows : bool)
         (dir : string) (files : list Object.osFileInfo),
    let listed := Object.List windows sys dir files in
    map Object.info listed
      = List.filter (fun file => negb ((Object.Name file =? ".")%string
                                       || (Object.Name file =? "..")%string)) files /\
    Forall (fun o =>
              Object.Name (Object.info o) <> "." /\
              Object.Name (Object.info o) <> ".." /\
              Object.Key o = Filepath.Join2 dir (Object.Name (Object.info o)) /\
              (windows = false ->
               Object.CTime o = Object.MTime o /\ Object.ATime o = Object.MTime o))
           listed.
Proof.
  intros sys windows dir files listed. unfold listed. clear listed.
  induction files as [| file files [IH1 IH2]]; [split; [reflexivity | constructor] |].
  rewrite List_cons. cbn [List.filter].
  unfold Object.List at 1 3. cbn [flat_map].
  destruct (String.eqb_spec (Object.Name file) ".") as [E1 | E1].
  { cbn [orb negb app]. now split. }
  destruct (String.eqb_spec (Object.Name file) "..") as [E2 | E2].
  { cbn [orb negb app]. now split. }
  cbn [orb negb]. rewrite app_nil_r.
  destruct windows.
  - destruct (sys file) as [[c a] |]; cbn [app map Object.info]; (split;
      [now rewrite IH1 | constructor; [| exact IH2]]);
      repeat split; try assumption; discriminate.
  - cbn [app map Object.info]. split; [now rewrite IH1 |].
    constructor; [| exact IH2].
    repeat split; assumption.
Qed.

Lemma land_type_bit (mode bit : Z) :
  Z.land Object.ModeType bit = bit ->
  Z.land mode Object.ModeType = 0 -> Z.land mode bit = 0.
Proof.
  intros Hb H. rewrite <- Hb, Z.land_assoc, H. apply Z.land_0_l.
Qed.

Lemma regular_is_a_file (o : Object.fileObject) :
  Object.IsRegular o = true ->
  Object.IsDir o = false /\ Object.IsSymlink o = false.
Proof.
  unfold Object.IsRegular, Object.IsDir, Object.IsSymlink. intros H.
  apply Z.eqb_eq in H. split; apply negb_false_iff, Z.eqb_eq.
  - now apply land_type_bit.
  - now apply land_type_bit.
Qed.

Lemma count_ext (p q : FileInfo -> bool) (l : list FileInfo) :
  (forall e, In e l -> p e = q e) -> Tally.count p l = Tally.count q l.
Proof.
  intros H. unfold Tally.count. f_equal. f_equal.
  induction l as [| e l IH]; [reflexivity |].
  cbn [List.filter]. rewrite (H e) by now left.
  rewrite IH; [reflexivity |]. intros x Hx. apply H. now right.
Qed.

(** X19.  For the objects of the local storage the kinds are read off the
    mode bits, and a regular file is never a directory nor a symbolic link;
    the permissions are the nine low bits, between 0 and 0777.  Hence, in
    the statistics of fewer than [2^63] such objects, [totalRegularFile] is
    the number of the regular ones, no entry counts both as a regular file
    and as a directory, and a symbolic link is never counted as a regular
    file. *)
Theorem regular_files_are_neither_directories_nor_links :
  forall os : list Object.fileObject,
    Z.of_nat (length os) <= Int64.max_int ->
    let s := Stat.scan_stats (map Object.observe os) in
    Forall (fun o =>
              (Object.IsRegular o = true ->
               Object.IsDir o = false /\ Object.IsSymlink o = false) /\
              0 <= Object.Perm o <= 511)
           os /\
    Stat.totalRegularFile s
      = Z.of_nat (length (List.filter Object.IsRegular os)) /\
    Stat.totalRegularFile s + Stat.dirCount s <= Z.of_nat (length os) /\
    Stat.totalRegularFile s + Stat.totalSymlink s <= Z.of_nat (length os).
Proof.
  intros os Hlen s.
  assert (Hlen' : Z.of_nat (length (map Object.observe os)) <= Int64.max_int)
    by now rewrite length_map.
  assert (Hreg : Tally.count (fun e => negb (IsDir e) && IsRegular e) (map Object.observe os)
                 = Tally.count IsRegular (map Object.observe os)).
  { apply count_ext. intros e He. apply in_map_iff in He as (o & <- & _).
    cbn [IsDir IsRegular Object.observe].
    destruct (Object.IsRegular o) eqn:E; [| apply andb_false_r].
    destruct (regular_is_a_file o E) as [-> _]. reflexivity. }
  assert (Hdisj : forall p,
             (forall o, In o os -> Object.IsRegular o = true -> p (Object.observe o) = false) ->
             Tally.count IsRegular (map Object.observe os)
             + Tally.count p (map Object.observe os) <= Z.of_nat (length os)).
  { intros p Hp.
    rewrite <- (length_map Object.observe os).
    rewrite <- (count_split IsRegular (map Object.observe os)).
    apply Z.add_le_mono_l. unfold Tally.count. apply inj_le.
    clear -Hp. induction os as [| o os IH]; [reflexivity |].
    cbn [map List.filter].
    change (IsRegular (Object.observe o)) with (Object.IsRegular o).
    assert (IH' := IH (fun x Hx => Hp x (or_intror Hx))).
    destruct (Object.IsRegular o) eqn:E.
    - rewrite (Hp o (or_introl eq_refl) E). cbn [negb]. exact IH'.
    - cbn [negb length]. destruct (p (Object.observe o)); cbn [length]; lia. }
  unfold s. rewrite scan_stats_closed_form.
  cbn [Stat.totalRegularFile Stat.dirCount Stat.totalSymlink].
  rewrite !(wrap64_small _ (Z.of_nat (length (map Object.observe os))))
    by (try apply count_le_length; exact Hlen').
  rewrite Hreg. split; [| split; [| split]].
  - apply List.Forall_forall. intros o _. split; [apply regular_is_a_file |].
    unfold Object.Perm, Object.ModePerm. split.
    + apply Z.land_nonneg. right. lia.
    + change 511 with (Z.ones 9). rewrite Z.land_ones by lia.
      pose proof (Z.mod_pos_bound (Object.Mode (Object.info o)) (2 ^ 9)).
      rewrite Z.ones_equiv. lia.
  - unfold Tally.count. f_equal.
    clear. induction os as [| o os IH]; [reflexivity |].
    cbn [map List.filter].
    change (IsRegular (Object.observe o)) with (Object.IsRegular o).
    destruct (Object.IsRegular o); cbn [length]; now rewrite IH.
  - apply Hdisj. intros o _ E. cbn [IsDir Object.observe].
    now destruct (regular_is_a_file o E).
  - apply Hdisj. intros o _ E. cbn [IsSymlink Object.observe].
    now destruct (regular_is_a_file o E).
Qed.

Lemma regular_files_are_neither_directories_nor_links_witness :
  let os := Object.List false (fun _ => None) "/data"
              [Object.mkOsFileInfo "." 0 0 Object.ModeDir;
               Object.mkOsFileInfo "sub" 4096 7 (Z.lor Object.ModeDir 493);
               Object.mkOsFileInfo "a.txt" 12 9 420;
               Object.mkOsFileInfo "l" 5 9 (Z.lor Object.ModeSymlink 511)] in
  let s := Stat.scan_stats (map Object.observe os) in
  Stat.totalRegularFile s = 1 /\
  Stat.totalRegularFile s + Stat.dirCount s <= 3 /\
  Stat.totalRegularFile s + Stat.totalSymlink s <= 3.
Proof.
  intros os s.
  destruct (regular_files_are_neither_directories_nor_links os)
    as (_ & H1 & H2 & H3); [vm_compute; discriminate |].
  split; [exact H1 |]. split; [exact H2 | exact H3].
Defined.

(** ** The choice of a storage *)

Lemma take_while_host (host rest : string) :
  Object.all_chars Object.is_host_char host = true ->
  Filter.take_while Object.is_host_char (host +:+ String ":" rest) = host /\
  Strings.drop_while Object.is_host_char (host +:+ String ":" rest) = String ":" rest.
Proof.
  induction host as [| c host IH]; intros H.
  - split; reflexivity.
  - cbn [Object.all_chars] in H. apply andb_true_iff in H as [Hc H].
    destruct (IH H) as [IH1 IH2].
    rewrite app_cons. cbn [Filter.take_while Strings.drop_while].
    rewrite Hc. now rewrite IH1, IH2.
Qed.

Lemma take_drop_while (p : ascii -> bool) (s : string) :
  s = Filter.take_while p s +:+ Strings.drop_while p s.
Proof.
  induction s as [| c s IH]; [reflexivity |].
  cbn [Filter.take_while Strings.drop_while].
  destruct (p c); [| reflexivity]. rewrite app_cons. now f_equal.
Qed.

Lemma take_while_all (p : ascii -> bool) (s : string) :
  Object.all_chars p (Filter.take_while p s) = true.
Proof.
  induction s as [| c s IH]; [reflexivity |].
  cbn [Filter.take_while]. destruct (p c) eqn:E; [| reflexivity].
  cbn [Object.all_chars]. now rewrite E.
Qed.

Lemma nfsPattern_iff (s : string) :
  Object.nfsPattern s = true
  <-> exists host path,
        s = host +:+ String ":" path /\
        host <> EmptyString /\ Object.all_chars Object.is_host_char host = true /\
        path <> EmptyString /\
        Object.all_chars (fun c => negb (Filter.is_re_space c)) path = true.
Proof.
  split.
  - unfold Object.nfsPattern. intros H.
    apply andb_true_iff in H as [Hh H].
    destruct (Strings.drop_while Object.is_host_char s) as [| c path] eqn:Ed;
      [discriminate |].
    destruct (Ascii.eqb_spec c ":") as [-> | Hc].
    + apply andb_true_iff in H as [Hp Hs].
      exists (Filter.take_while Object.is_host_char s), path.
      repeat split.
      * rewrite <- Ed. apply take_drop_while.
      * intros E. rewrite E in Hh. discriminate.
      * apply take_while_all.
      * intros E. rewrite E in Hp. discriminate.
      * exact Hs.
    + exfalso. revert H. clear -Hc.
      destruct c as [[] [] [] [] [] [] [] []]; try discriminate; congruence.
  - intros (host & path & -> & Hh & Hall & Hp & Hs).
    unfold Object.nfsPattern.
    destruct (take_while_host host path Hall) as [-> ->].
    apply andb_true_iff. split.
    + destruct host; [congruence | reflexivity].
    + apply andb_true_iff. split; [| exact Hs].
      destruct path; [congruence | reflexivity].
Qed.

(** X20.  [CreateStorage] decides from the spelling of the path before it
    looks at the file system.  A path [host:path], with a non-empty host of
    letters, digits, dots and dashes and a non-empty path without white
    space, is never opened as a local directory, whatever the file system
    holds under that name: it goes to S3 when it starts with [s3://] or
    [S3://], and to NFS otherwise.  Conversely the NFS storage is only
    chosen for a path of that form, the local storage only for a directory
    that is not of that form, and an error is only returned for a path that
    is not of that form. *)
Theorem remote_paths_never_reach_the_file_system :
  forall (stat : string -> option bool) (abs : string -> option string),
    (forall host path : string,
       host <> EmptyString ->
       Object.all_chars Object.is_host_char host = true ->
       path <> EmptyString ->
       Object.all_chars (fun c => negb (Filter.is_re_space c)) path = true ->
       let scanPath := host +:+ String ":" path in
       Object.CreateStorage stat abs scanPath
       = inr (if Object.has_prefix scanPath "s3://" || Object.has_prefix scanPath "S3://"
              then Object.S3 scanPath else Object.Nfs scanPath)) /\
    (forall scanPath : string,
       match Object.CreateStorage stat abs scanPath with
       | inr (Object.S3 uri) => uri = scanPath
       | inr (Object.Nfs p) => p = scanPath /\ Object.nfsPattern scanPath = true
       | inr (Object.Local absPath) =>
           Object.nfsPattern scanPath = false /\
           stat scanPath = Some true /\ abs scanPath = Some absPath
       | inl _ =>
           Object.nfsPattern scanPath = false /\
           (stat scanPath = Some true -> abs scanPath = None)
       end).
Proof.
  intros stat abs. split.
  - intros host path Hh Hall Hp Hs scanPath. unfold Object.CreateStorage.
    destruct (_ || _); [reflexivity |].
    replace (Object.nfsPattern scanPath) with true; [reflexivity |].
    symmetry. apply nfsPattern_iff. now exists host, path.
  - intros scanPath. unfold Object.CreateStorage.
    destruct (_ || _) eqn:Es3; [reflexivity |].
    destruct (Object.nfsPattern scanPath) eqn:En; [now split |].
    destruct (stat scanPath) as [[] |].
    + destruct (abs scanPath); [now repeat split | now split].
    + split; [reflexivity | discriminate].
    + split; [reflexivity | discriminate].
Qed.

Lemma remote_paths_never_reach_the_file_system_witness :
  Object.CreateStorage (fun _ => Some true) (fun p => Some p) "C:/Users"
    = inr (Object.Nfs "C:/Users") /\
  Object.CreateStorage (fun _ => Some true) (fun p => Some p) "s3://bucket"
    = inr (Object.S3 "s3://bucket").
Proof.
  destruct (remote_paths_never_reach_the_file_system
              (fun _ => Some true) (fun p => Some p)) as [H _].
  split.
  - apply (H "C" "/Users"); [discriminate | reflexivity | discriminate | reflexivity].
  - apply (H "s3" "//bucket"); [discriminate | reflexivity | discriminate | reflexivity].
Defined.

(** ** The clauses of an expression *)

Lemma strip_prefix_app (p s r t : string) :
  Strings.strip_prefix p s = Some r ->
  Strings.strip_prefix p (s +:+ t) = Some (r +:+ t).
Proof.
  revert s. induction p as [| a p IH]; intros s; cbn [Strings.strip_prefix].
  - now intros [= ->].
  - destruct s as [| b s]; [discriminate |]. rewrite app_cons.
    destruct (Ascii.eqb a b); [apply IH | discriminate].
Qed.

Lemma Contains_cons (c : ascii) (s sub : string) :
  Strings.Contains s sub = true -> Strings.Contains (String c s) sub = true.
Proof.
  intros H. cbn [Strings.Contains].
  destruct (Strings.strip_prefix sub (String c s)); [reflexivity | exact H].
Qed.

Lemma Contains_app_l (s t sub : string) :
  Strings.Contains s sub = true -> Strings.Contains (s +:+ t) sub = true.
Proof.
  induction s as [| c s IH].
  - cbn [Strings.Contains].
    destruct (Strings.strip_prefix sub EmptyString) as [r |] eqn:E; [| discriminate].
    intros _. apply (strip_prefix_app _ _ _ t) in E. rewrite app_nil in *.
    destruct t; cbn [Strings.Contains]; now rewrite E.
  - intros H. rewrite app_cons.
    destruct (Strings.strip_prefix sub (String c s)) as [r |] eqn:E.
    + apply (strip_prefix_app _ _ _ t) in E.
      rewrite app_cons in E. cbn [Strings.Contains]. now rewrite E.
    + cbn [Strings.Contains] in H. rewrite E in H.
      apply Contains_cons. now apply IH.
Qed.

Lemma Contains_drop_while (p : ascii -> bool) (s sub : string) :
  Strings.Contains (Strings.drop_while p s) sub = true -> Strings.Contains s sub = true.
Proof.
  induction s as [| c s IH]; [trivial |].
  cbn [Strings.drop_while]. destruct (p c); [| trivial].
  intros H. apply Contains_cons. now apply IH.
Qed.

Lemma drop_while_end_prefix (p : ascii -> bool) (s : string) :
  exists t, s = Strings.drop_while_end p s +:+ t.
Proof.
  induction s as [| c s [t IH]]; [now exists EmptyString |].
  cbn [Strings.drop_while_end].
  destruct (Strings.drop_while_end p s) as [| x d].
  - destruct (p c).
    + now exists (String c s).
    + exists s. reflexivity.
  - exists t. rewrite app_cons. now f_equal.
Qed.

Lemma Contains_drop_while_end (p : ascii -> bool) (s sub : string) :
  Strings.Contains (Strings.drop_while_end p s) sub = true ->
  Strings.Contains s sub = true.
Proof.
  intros H. destruct (drop_while_end_prefix p s) as [t E].
  rewrite E. now apply Contains_app_l.
Qed.

Lemma drop_while_end_idem (p : ascii -> bool) (s : string) :
  Strings.drop_while_end p (Strings.drop_while_end p s) = Strings.drop_while_end p s.
Proof.
  induction s as [| c s IH]; [reflexivity |].
  cbn [Strings.drop_while_end].
  destruct (Strings.drop_while_end p s) as [| x d] eqn:E.
  - destruct (p c) eqn:Ec; [reflexivity |].
    cbn [Strings.drop_while_end]. now rewrite Ec.
  - change (Strings.drop_while_end p (String c (String x d)))
      with (match Strings.drop_while_end p (String x d) with
            | EmptyString => if p c then EmptyString else String c EmptyString
            | r' => String c r'
            end).
    now rewrite IH.
Qed.

Lemma drop_while_end_head (p : ascii -> bool) (c : ascii) (s : string) :
  p c = false -> exists r, Strings.drop_while_end p (String c s) = String c r.
Proof.
  intros Hc. cbn [Strings.drop_while_end].
  destruct (Strings.drop_while_end p s) as [| x d].
  - rewrite Hc. now eexists.
  - now eexists.
Qed.

Lemma TrimSpace_idem (s : string) :
  Strings.TrimSpace (Strings.TrimSpace s) = Strings.TrimSpace s.
Proof.
  unfold Strings.TrimSpace.
  assert (H : Strings.drop_while Strings.is_space
                (Strings.drop_while_end Strings.is_space
                   (Strings.drop_while Strings.is_space s))
              = Strings.drop_while_end Strings.is_space
                  (Strings.drop_while Strings.is_space s)).
  { induction s as [| c s IH]; [reflexivity |].
    cbn [Strings.drop_while]. destruct (Strings.is_space c) eqn:E; [exact IH |].
    destruct (drop_while_end_head Strings.is_space c s E) as [r ->].
    cbn [Strings.drop_while]. now rewrite E. }
  rewrite H. apply drop_while_end_idem.
Qed.

Lemma ToLower_lower (s : string) : lower s -> Strings.ToLower s = s.
Proof.
  induction s as [| c s IH]; [reflexivity |].
  intros H. apply lower_cons in H as [Hc Hs].
  cbn [Strings.ToLower]. unfold Strings.lower_char. rewrite Hc. now rewrite IH.
Qed.

Lemma snoc_split (cur a b : string) (c : ascii) :
  cur +:+ String c EmptyString = a +:+ b -> b <> EmptyString ->
  exists b', b = b' +:+ String c EmptyString /\ cur = a +:+ b'.
Proof.
  revert a. induction cur as [| x cur IH]; intros a E Hb.
  - rewrite app_nil in E. destruct a as [| y a].
    + rewrite app_nil in E. exists EmptyString. now split.
    + rewrite app_cons in E. injection E as _ E.
      destruct a; [| discriminate E]. rewrite app_nil in E. congruence.
  - rewrite app_cons in E. destruct a as [| y a].
    + rewrite app_nil in E. exists (String x cur). now split.
    + rewrite app_cons in E. injection E as <- E.
      destruct (IH a E Hb) as (b' & -> & ->).
      exists b'. now split.
Qed.

Section SplitFacts.

Variable sep : string.
Hypothesis sep_not_empty : sep <> EmptyString.

(** No occurrence of the separator starts inside [cur], in the text [cur]
    followed by [s]. *)
Abbreviation clear_of cur s :=
  (forall a b : string, cur = a +:+ b -> b <> EmptyString ->
     Strings.strip_prefix sep (b +:+ s) = None).

Lemma clear_of_Contains (cur s : string) :
  clear_of cur s -> Strings.Contains cur sep = false.
Proof.
  intros H.
  assert (H' : forall a b, cur = a +:+ b -> b <> EmptyString ->
                 Strings.strip_prefix sep b = None).
  { intros a b E Hb. specialize (H a b E Hb).
    destruct (Strings.strip_prefix sep b) as [r |] eqn:Er; [| reflexivity].
    apply (strip_prefix_app _ _ _ s) in Er. congruence. }
  clear H. induction cur as [| c cur IH].
  - cbn [Strings.Contains]. destruct sep; [congruence | reflexivity].
  - cbn [Strings.Contains].
    rewrite (H' EmptyString (String c cur)) by (reflexivity || discriminate).
    apply IH. intros a b E Hb. apply (H' (String c a) b); [| exact Hb].
    rewrite app_cons. now f_equal.
Qed.

Lemma split_go_clear (s : string) :
  forall (skip : nat) (cur : string),
    (skip <> 0%nat -> cur = EmptyString) ->
    clear_of cur s ->
    Forall (fun piece => Strings.Contains piece sep = false)
           (Strings.split_go sep s skip cur).
Proof.
  induction s as [| c s IH]; intros skip cur Hskip Hclear.
  - cbn [Strings.split_go]. constructor; [| constructor].
    now apply (clear_of_Contains cur EmptyString).
  - cbn [Strings.split_go]. destruct skip as [| k].
    + destruct (Strings.strip_prefix sep (String c s)) as [r |] eqn:E.
      * constructor; [now apply (clear_of_Contains cur (String c s)) |].
        apply IH; [reflexivity |].
        intros a b Eab Hb. destruct a, b; try discriminate Eab. congruence.
      * apply IH; [congruence |].
        intros a b Eab Hb.
        destruct (snoc_split cur a b c Eab Hb) as (b' & -> & ->).
        rewrite string_app_assoc. rewrite app_cons, app_nil.
        destruct b' as [| y b'].
        -- rewrite app_nil. exact E.
        -- apply (Hclear a (String y b')); [reflexivity | discriminate].
    + apply IH.
      * intros _. apply Hskip. discriminate.
      * rewrite (Hskip ltac:(discriminate)).
        intros a b Eab Hb. destruct a, b; try discriminate Eab. congruence.
Qed.

Lemma Split_pieces (s : string) :
  Forall (fun piece => Strings.Contains piece sep = false) (Strings.Split s sep).
Proof.
  unfold Strings.Split. apply split_go_clear; [congruence |].
  intros a b Eab Hb. destruct a, b; try discriminate Eab. congruence.
Qed.

End SplitFacts.

(** X21.  Every clause that [ParseConditions] hands to the compiler is
    non-empty, has no white space at either end, has no upper-case letter,
    and nowhere contains the three letters [and]: no clause can therefore
    carry a value such as [sandbox] or [android] to the filter. *)
Theorem clauses_are_trimmed_and_free_of_and :
  forall input : string,
    Forall (fun c =>
              c <> EmptyString /\
              Strings.TrimSpace c = c /\
              Strings.ToLower c = c /\
              Strings.Contains c "and" = false)
           (Filter.ParseConditions input).
Proof.
  intros input. apply List.Forall_forall. intros c Hc.
  pose proof (lower_ParseConditions input) as Hlow.
  rewrite List.Forall_forall in Hlow. specialize (Hlow c Hc).
  unfold Filter.ParseConditions in Hc.
  apply List.filter_In in Hc as [Hc Hne].
  apply in_map_iff in Hc as (p & <- & Hp).
  repeat split.
  - intros E. rewrite E in Hne. discriminate.
  - apply TrimSpace_idem.
  - now apply ToLower_lower.
  - pose proof (Split_pieces "and" ltac:(discriminate) (Strings.ToLower input)) as H.
    rewrite List.Forall_forall in H. specialize (H p Hp).
    destruct (Strings.Contains (Strings.TrimSpace p) "and") eqn:E; [| reflexivity].
    unfold Strings.TrimSpace in E.
    apply Contains_drop_while_end, Contains_drop_while in E. congruence.
Qed.

(** ** Quoted values *)

Lemma drop_while_end_snoc_keep (p : ascii -> bool) (s : string) (c : ascii) :
  p c = false ->
  Strings.drop_while_end p (s +:+ String c EmptyString) = s +:+ String c EmptyString.
Proof.
  intros Hc. induction s as [| x s IH].
  - rewrite app_nil. cbn [Strings.drop_while_end]. now rewrite Hc.
  - rewrite app_cons. cbn [Strings.drop_while_end]. rewrite IH.
    destruct s; reflexivity.
Qed.

Lemma drop_while_end_snoc_drop (p : ascii -> bool) (s : string) (c : ascii) :
  p c = true ->
  Strings.drop_while_end p (s +:+ String c EmptyString) = Strings.drop_while_end p s.
Proof.
  intros Hc. induction s as [| x s IH].
  - rewrite app_nil. cbn [Strings.drop_while_end]. now rewrite Hc.
  - rewrite app_cons. cbn [Strings.drop_while_end]. now rewrite IH.
Qed.

Lemma drop_while_snoc (p : ascii -> bool) (s : string) (c : ascii) :
  p c = true ->
  Strings.drop_while p (s +:+ String c EmptyString)
  = match Strings.drop_while p s with
    | EmptyString => EmptyString
    | d => d +:+ String c EmptyString
    end.
Proof.
  intros Hc. induction s as [| x s IH].
  - rewrite app_nil. cbn [Strings.drop_while]. now rewrite Hc.
  - rewrite app_cons. cbn [Strings.drop_while]. destruct (p x); [exact IH | reflexivity].
Qed.

Lemma Trim_quoted (v : string) :
  Strings.Trim (String "'" (v +:+ "'")) Filter.quotes = Strings.Trim v Filter.quotes.
Proof.
  unfold Strings.Trim.
  set (q := fun c : ascii => Strings.mem_char c Filter.quotes).
  assert (Hq : q "'"%char = true) by reflexivity.
  cbn [Strings.drop_while]. rewrite Hq.
  rewrite (drop_while_snoc q v "'" Hq).
  destruct (Strings.drop_while q v) as [| x d]; [reflexivity |].
  now apply drop_while_end_snoc_drop.
Qed.

Lemma TrimSpace_quoted (v : string) :
  Strings.TrimSpace (String "'" (v +:+ "'")) = String "'" (v +:+ "'").
Proof.
  unfold Strings.TrimSpace.
  replace (Strings.drop_while Strings.is_space (String "'" (v +:+ "'")))
    with (String "'" v +:+ "'") by reflexivity.
  now apply drop_while_end_snoc_keep.
Qed.

Lemma find_operator_spaced (p op w : string) :
  In p ["name"; "type"; "path"] ->
  In op Filter.operators ->
  Filter.find_operator (p +:+ " " +:+ op +:+ " " +:+ String "'" w) EmptyString
  = Some (p, op, String "'" w).
Proof.
  intros Hp Hop. cbn [In] in Hp. unfold Filter.operators in Hop. cbn [In] in Hop.
  destruct Hp as [<- | [<- | [<- | []]]];
    repeat (destruct Hop as [<- | Hop]; [vm_compute; reflexivity |]);
    destruct Hop.
Qed.

(** X22.  Quotes protect a value.  For a clause [p op 'v'] on one of the
    string properties, with any of the eight operators, the compiler finds
    the operator the clause was written with, whatever the value holds,
    white space and operators included, and the value of the condition is
    [v] without the quotes at its ends; a filter made of that clause tests
    the name, the path or the kind of an entry against that value. *)
Theorem quoted_values_reach_the_condition_whole :
  forall p op v : string,
    In p ["name"; "type"; "path"] ->
    In op [">="; "<="; "=="; "!="; "in"; "like"; ">"; "<"] ->
    let clause := p +:+ " " +:+ op +:+ " " +:+ String "'" (v +:+ "'") in
    let target := Strings.Trim v Filter.quotes in
    Filter.parseCondition clause
      = inr (Filter.mkCondition p op (Filter.VString target)) /\
    exists f : Filter.ConditionFilter,
      Filter.NewConditionFilter [clause] = inr f /\
      forall (clock : nat -> Z) (e : FileInfo) (n : nat),
        fst (Filter.IsSatisfied clock f e n)
        = Filter.matchString
            (if (p =? "name")%string then Filepath.Base (Key e)
             else if (p =? "path")%string then Key e
             else if IsDir e then "dir" else "file")
            op target.
Proof.
  intros p op v Hp Hop clause target.
  assert (Hparse : Filter.parseCondition clause
                   = inr (Filter.mkCondition p op (Filter.VString target))).
  { unfold Filter.parseCondition, clause.
    rewrite (find_operator_spaced p op (v +:+ "'") Hp Hop).
    rewrite TrimSpace_quoted, Trim_quoted.
    rewrite (ToLower_operator op Hop).
    cbn [In] in Hp. destruct Hp as [<- | [<- | [<- | []]]]; reflexivity. }
  split; [exact Hparse |].
  exists (Filter.mkConditionFilter [Filter.mkCondition p op (Filter.VString target)]).
  split.
  - unfold Filter.NewConditionFilter. cbn [Filter.compile_all].
    rewrite Hparse. reflexivity.
  - intros clock e n. cbn [In] in Hp.
    destruct Hp as [<- | [<- | [<- | []]]]; cbn;
      unfold Filter.matchConditionAt; cbn;
      repeat match goal with
             | |- context [String.eqb ?a ?b] =>
                 let r := eval vm_compute in (String.eqb a b) in
                 change (String.eqb a b) with r
             end;
      cbn match;
      now destruct (Filter.matchString _ op target).
Qed.

Lemma quoted_values_reach_the_condition_whole_witness :
  Filter.parseCondition "name == 'a > b and c'"
  = inr (Filter.mkCondition "name" "==" (Filter.VString "a > b and c")).
Proof.
  apply (quoted_values_reach_the_condition_whole "name" "==" "a > b and c").
  - now left.
  - right. right. now left.
Defined.

(** ** Sizes and durations *)

Abbreviation is_digit :=
  (fun c : ascii => match Strconv.digit_val c with Some _ => true | None => false end).

Lemma read_digits_all (d : string) :
  Object.all_chars is_digit d = true ->
  forall (acc : Z) (n : nat),
    snd (fst (Strconv.read_digits d acc n)) = (n + String.length d)%nat /\
    snd (Strconv.read_digits d acc n) = EmptyString /\
    (0 <= acc -> 0 <= fst (fst (Strconv.read_digits d acc n))).
Proof.
  induction d as [| c d IH]; intros H acc n.
  - cbn. repeat split; [lia | trivial].
  - cbn [Object.all_chars] in H. apply andb_true_iff in H as [Hc H].
    cbn [Strconv.read_digits String.length].
    destruct (Strconv.digit_val c) as [v |] eqn:E; [| discriminate].
    destruct (IH H (10 * acc + v) (S n)) as (H1 & H2 & H3).
    repeat split; [lia | exact H2 |].
    intros Hacc. apply H3.
    unfold Strconv.digit_val in E.
    destruct (_ && _) eqn:Er; [| discriminate]. injection E as <-.
    apply andb_true_iff in Er as [Er _]. apply Nat.leb_le in Er. lia.
Qed.

Lemma all_chars_app (p : ascii -> bool) (a b : string) :
  Object.all_chars p (a +:+ b) = Object.all_chars p a && Object.all_chars p b.
Proof.
  induction a as [| c a IH]; [reflexivity |].
  rewrite app_cons. cbn [Object.all_chars]. now rewrite IH, andb_assoc.
Qed.

Lemma all_chars_impl (p q : ascii -> bool) (s : string) :
  (forall c, p c = true -> q c = true) ->
  Object.all_chars p s = true -> Object.all_chars q s = true.
Proof.
  intros Hpq. induction s as [| c s IH]; [trivial |].
  cbn [Object.all_chars]. intros H. apply andb_true_iff in H as [Hc H].
  now rewrite (Hpq c Hc), IH.
Qed.

Lemma drop_while_end_none (p : ascii -> bool) (s : string) :
  Object.all_chars (fun c => negb (p c)) s = true -> Strings.drop_while_end p s = s.
Proof.
  induction s as [| c s IH]; [trivial |].
  cbn [Object.all_chars]. intros H. apply andb_true_iff in H as [Hc H].
  apply negb_true_iff in Hc.
  cbn [Strings.drop_while_end]. rewrite (IH H).
  destruct s; [now rewrite Hc | reflexivity].
Qed.

Lemma drop_while_none (p : ascii -> bool) (s : string) :
  Object.all_chars (fun c => negb (p c)) s = true -> Strings.drop_while p s = s.
Proof.
  destruct s as [| c s]; [trivial |].
  cbn [Object.all_chars Strings.drop_while]. intros H.
  apply andb_true_iff in H as [Hc _]. apply negb_true_iff in Hc. now rewrite Hc.
Qed.

Lemma TrimSpace_none (s : string) :
  Object.all_chars (fun c => negb (Strings.is_space c)) s = true ->
  Strings.TrimSpace s = s.
Proof.
  intros H. unfold Strings.TrimSpace.
  rewrite (drop_while_none _ s H). now apply drop_while_end_none.
Qed.

Lemma digit_not_space (c : ascii) :
  is_digit c = true -> negb (Strings.is_space c) = true.
Proof. destruct c as [[] [] [] [] [] [] [] []]; (reflexivity || discriminate). Qed.

Lemma digit_is_size_digit (c : ascii) :
  is_digit c = true -> Filter.is_size_digit c = true.
Proof. unfold Filter.is_size_digit. now destruct (Strconv.digit_val c). Qed.

Lemma take_while_run (p : ascii -> bool) (d u : string) :
  Object.all_chars p d = true ->
  match u with EmptyString => true | String c _ => negb (p c) end = true ->
  Filter.take_while p (d +:+ u) = d /\ Strings.drop_while p (d +:+ u) = u.
Proof.
  intros Hd Hu. induction d as [| c d IH].
  - rewrite app_nil. destruct u as [| x u]; [now split |].
    apply negb_true_iff in Hu. cbn [Filter.take_while Strings.drop_while].
    now rewrite Hu.
  - cbn [Object.all_chars] in Hd. apply andb_true_iff in Hd as [Hc Hd].
    destruct (IH Hd) as [IH1 IH2].
    rewrite app_cons. cbn [Filter.take_while Strings.drop_while].
    now rewrite Hc, IH1, IH2.
Qed.

Lemma ParseFloat_digits (d : string) :
  d <> EmptyString ->
  Object.all_chars is_digit d = true ->
  exists q : Q,
    Strconv.ParseFloat d = Some q /\
    Qnum q = fst (fst (Strconv.read_digits d 0 0)) /\ Qden q = 1%positive.
Proof.
  intros Hne Hd. unfold Strconv.ParseFloat.
  assert (Hsign : Strconv.read_sign d = (false, d)).
  { destruct d as [| c d]; [congruence |].
    cbn [Object.all_chars] in Hd. apply andb_true_iff in Hd as [Hc _].
    destruct c as [[] [] [] [] [] [] [] []]; (reflexivity || discriminate Hc). }
  rewrite Hsign.
  destruct (read_digits_all d Hd 0 0%nat) as (Hn & Hr & _).
  destruct (Strconv.read_digits d 0 0) as [[ip ni] s2] eqn:E.
  cbn [fst snd] in *. subst s2 ni.
  destruct d as [| c d]; [congruence |].
  cbn [String.length Nat.add Strconv.read_exponent].
  eexists. split; [reflexivity |].
  change (Qpower (10 # 1) (0 - Z.of_nat 0)) with (1 # 1)%Q.
  cbn. split; [lia | reflexivity].
Qed.

Lemma trunc_scaled (q : Q) (k : Z) :
  Qden q = 1%positive -> Strconv.trunc (q * inject_Z k)%Q = Qnum q * k.
Proof.
  destruct q as [n den]. cbn [Qden Qnum]. intros ->.
  unfold Strconv.trunc. cbn. apply Z.quot_1_r.
Qed.

Lemma trunc_whole (q : Q) :
  Qden q = 1%positive -> Strconv.trunc q = Qnum q.
Proof.
  destruct q as [n den]. cbn [Qden Qnum]. intros ->.
  unfold Strconv.trunc. cbn. apply Z.quot_1_r.
Qed.

(** X23.  The units of a size are the binary multiples, in either case: for
    a numeral [d] of decimal digits, [parseSize] gives its value for [d]
    alone, 1024 times its value for [dk] and [dK], and so on with [2^20],
    [2^30] and [2^40] for [m], [g] and [t], as long as the result is below
    [2^53], where the floating-point arithmetic of the function is exact.
    The size is never negative. *)
Theorem size_units_are_binary_multiples :
  forall (d : string) (unit : string) (exponent : Z),
    d <> EmptyString ->
    Object.all_chars is_digit d = true ->
    In (unit, exponent)
       [(EmptyString, 0); ("k", 10); ("K", 10); ("m", 20); ("M", 20);
        ("g", 30); ("G", 30); ("t", 40); ("T", 40)] ->
    let value := fst (fst (Strconv.read_digits d 0 0)) in
    value * 2 ^ exponent < 2 ^ 53 ->
    Filter.parseSize (d +:+ unit) = inr (value * 2 ^ exponent) /\
    0 <= value * 2 ^ exponent.
Proof.
  intros d unit exponent Hne Hd Hu value _.
  destruct (ParseFloat_digits d Hne Hd) as (q & Hq & Hnum & Hden).
  fold value in Hnum.
  assert (Hpos : 0 <= value).
  { destruct (read_digits_all d Hd 0 0%nat) as (_ & _ & H). apply H. lia. }
  assert (Hlet : Object.all_chars (fun c => negb (Strings.is_space c)) unit = true
                 /\ match unit with
                    | EmptyString => true
                    | String c _ => negb (Filter.is_size_digit c)
                    end = true).
  { cbn [In] in Hu.
    repeat (destruct Hu as [[= <- _] | Hu]; [split; reflexivity |]). destruct Hu. }
  destruct Hlet as [Hsp Hnd].
  assert (Htrim : Strings.TrimSpace (d +:+ unit) = d +:+ unit).
  { apply TrimSpace_none. rewrite all_chars_app, Hsp, andb_true_r.
    apply (all_chars_impl is_digit); [apply digit_not_space | exact Hd]. }
  destruct (take_while_run Filter.is_size_digit d unit) as [Ht Hdr];
    [apply (all_chars_impl is_digit); [apply digit_is_size_digit | exact Hd]
    | exact Hnd |].
  split; [| cbn [In] in Hu;
            repeat (destruct Hu as [[= _ <-] | Hu]; [lia |]); destruct Hu].
  unfold Filter.parseSize. rewrite Htrim, Ht, Hdr, Hq.
  replace (negb (d =? EmptyString)%string) with true
    by (destruct d; [congruence | reflexivity]).
  cbn [In] in Hu.
  destruct Hu as [[= <- <-] | Hu].
  { cbn. rewrite (trunc_whole q Hden), Hnum. f_equal. lia. }
  repeat (destruct Hu as [[= <- <-] | Hu];
          [cbn; rewrite (trunc_scaled q _ Hden), Hnum; reflexivity |]).
  destruct Hu.
Qed.

Lemma size_units_are_binary_multiples_witness :
  Filter.parseSize "100M" = inr (100 * 2 ^ 20).
Proof.
  apply (size_units_are_binary_multiples "100" "M" 20).
  - discriminate.
  - reflexivity.
  - cbn [In]. do 4 right. now left.
  - vm_compute. reflexivity.
Defined.

(** ** The numbers of the report summary *)

Lemma remove_dups_length (l : list string) :
  (length (remove_dups l) <= length l)%nat /\
  (l <> [] -> (1 <= length (remove_dups l))%nat).
Proof.
  split.
  - induction l as [| x l IH]; [reflexivity |].
    cbn. destruct (decide_rel elem_of x l); cbn; lia.
  - intros Hne. destruct l as [| x l]; [congruence |].
    assert (H : x ∈ remove_dups (x :: l))
      by (apply elem_of_remove_dups; now left).
    destruct (remove_dups (x :: l)); [inversion H | cbn; lia].
Qed.

(** X24.  When a full scan into a fresh catalog, of fewer than [2^63]
    entries with a file among them, ends with its report summary, the total
    it prints is the number of entries received, files and directories
    together, and the number of file types is the number of distinct
    extensions in the catalog, where every directory has the empty
    extension: the directories, and the files without an extension, count
    together as one type.  The number of types is at least 1 and at most the
    number of entries. *)
Theorem summary_counts_the_empty_extension_as_a_type :
  forall (db : Catalog.DB) (batchSize : Z) (scanned : list FileInfo),
    0 <= batchSize ->
    db !! Catalog.file_entries = None ->
    Z.of_nat (length scanned) <= Int64.max_int ->
    forallb IsDir scanned = false ->
    exists s : Stat.Summary,
      snd (Scan.ProcessFilesForFullScan db batchSize scanned) = Some s /\
      Stat.sTotalFiles s = Z.of_nat (length scanned) /\
      Stat.sFileCount s + Stat.sDirCount s = Stat.sTotalFiles s /\
      Stat.sExtCount s
        = Z.of_nat (length (remove_dups
                              (map (fun e => if IsDir e then EmptyString
                                             else Filepath.Ext (Key e)) scanned))) /\
      1 <= Stat.sExtCount s <= Z.of_nat (length scanned).
Proof.
  intros db batchSize scanned _ Hnone Hl Hfile.
  pose proof (full_scan_catalog db batchSize scanned) as Hdb.
  unfold Scan.ProcessFilesForFullScan in *. cbn [fst snd] in *.
  rewrite Hdb. unfold Catalog.GetUniqueExtCount. rewrite lookup_insert_eq.
  rewrite Hnone. cbn [default app].
  assert (Hext : map Db.dExt (map Db.ProcessFileInfo scanned)
                 = map (fun e => if IsDir e then EmptyString
                                 else Filepath.Ext (Key e)) scanned).
  { rewrite map_map. apply map_ext. intros e.
    cbn [Db.dExt Db.ProcessFileInfo]. now destruct (IsDir e). }
  rewrite Hext.
  set (exts := map (fun e => if IsDir e then EmptyString
                             else Filepath.Ext (Key e)) scanned).
  unfold Stat.GenerateConsoleReportSummary, Stat.GetFileCount, Stat.GetDirCount,
    Int64.div.
  rewrite scan_stats_closed_form. cbn [Stat.fileCount Stat.dirCount Stat.totalSize].
  rewrite !(wrap64_small _ (Z.of_nat (length scanned)))
    by (try apply count_le_length; exact Hl).
  assert (Hcount : Tally.count (fun e => negb (IsDir e)) scanned <> 0).
  { intros E. apply count_zero_forallb in E. congruence. }
  destruct (Z.eqb_spec (Tally.count (fun e => negb (IsDir e)) scanned) 0) as [E | _];
    [contradiction |].
  cbn [mbind option_bind]. eexists. split; [reflexivity |].
  cbn [Stat.sTotalFiles Stat.sFileCount Stat.sDirCount Stat.sExtCount].
  pose proof (count_split IsDir scanned) as Hsplit.
  pose proof (count_le_length IsDir scanned).
  pose proof (count_le_length (fun e => negb (IsDir e)) scanned).
  assert (Hadd : Int64.add (Tally.count (fun e => negb (IsDir e)) scanned)
                           (Tally.count IsDir scanned)
                 = Z.of_nat (length scanned)).
  { unfold Int64.add.
    rewrite (wrap64_small _ (Z.of_nat (length scanned))) by (try split; lia).
    lia. }
  rewrite Hadd.
  destruct (remove_dups_length exts) as [Hle Hge].
  assert (Hlen : length exts = length scanned) by apply length_map.
  assert (Hne : exts <> []).
  { intros E. rewrite E in Hlen. destruct scanned; [discriminate Hfile | discriminate Hlen]. }
  specialize (Hge Hne).
  repeat split; try lia.
Qed.

Lemma summary_counts_the_empty_extension_as_a_type_witness :
  exists s : Stat.Summary,
    snd (Scan.ProcessFilesForFullScan ∅ 2 (Rescan.scan Scenario.storage)) = Some s /\
    Stat.sTotalFiles s = 7 /\
    Stat.sExtCount s = 1.
Proof.
  destruct (summary_counts_the_empty_extension_as_a_type ∅ 2 (Rescan.scan Scenario.storage))
    as (s & Hs & Ht & _ & He & _).
  - lia.
  - reflexivity.
  - vm_compute. discriminate.
  - reflexivity.
  - exists s. split; [exact Hs |]. split; [exact Ht | exact He].
Defined.

(** ** Operators that do not suit the property *)

(** X25.  The compiler accepts every operator with every property, but the
    evaluation knows the ordering operators only for [size] and [modified],
    and [in] and [like] only for the string properties.  A compiled filter
    that holds a condition of the other kind, such as [size in 100] or [name > a], is
    satisfied by no entry at all, at any time. *)
Theorem a_misplaced_operator_matches_nothing :
  forall (clock : nat -> Z) (f : Filter.ConditionFilter) (c : Filter.Condition)
         (e : FileInfo) (n : nat),
    (exists conds, Filter.NewConditionFilter conds = inr f) ->
    In c (Filter.conditions f) ->
    (In (Filter.Property c) ["size"; "modified"] /\
     In (Filter.Operator c) ["in"; "like"])
    \/ (In (Filter.Property c) ["name"; "path"; "type"] /\
        In (Filter.Operator c) [">"; "<"; ">="; "<="]) ->
    fst (Filter.IsSatisfied clock f e n) = false.
Proof.
  intros clock f c e n _ Hin Hmis. unfold Filter.IsSatisfied.
  apply (IsSatisfied_false clock (Filter.conditions f) e c Hin).
  intros now. unfold Filter.matchConditionAt.
  destruct c as [p op v]. cbn [Filter.Property Filter.Operator Filter.CValue] in *.
  cbn [In] in Hmis.
  destruct Hmis as [[Hp Hop] | [Hp Hop]];
    repeat match goal with
           | H : _ \/ _ |- _ => destruct H as [<- | H]
           | H : False |- _ => destruct H
           end;
    repeat match goal with
           | |- context [String.eqb ?a ?b] =>
               let r := eval vm_compute in (String.eqb a b) in
               change (String.eqb a b) with r
           end;
    cbn match; destruct v; try reflexivity;
    unfold Filter.matchNumber, Filter.matchTime, Filter.matchString;
    repeat match goal with
           | |- context [String.eqb ?a ?b] =>
               let r := eval vm_compute in (String.eqb a b) in
               change (String.eqb a b) with r
           end;
    reflexivity.
Qed.

Lemma a_misplaced_operator_matches_nothing_witness :
  exists f : Filter.ConditionFilter,
    Filter.NewConditionFilter ["size in 100"] = inr f /\
    fst (Filter.IsSatisfied (fun _ => 0) f (Scenario.file "/a" "f1" 100) 0%nat) = false.
Proof.
  destruct (Filter.NewConditionFilter ["size in 100"]) as [err | f] eqn:E;
    [vm_compute in E; discriminate E |].
  exists f. split; [reflexivity |].
  eapply a_misplaced_operator_matches_nothing.
  - exists ["size in 100"]. exact E.
  - vm_compute in E. injection E as <-. left. reflexivity.
  - vm_compute in E. injection E as <-.
    left. split; [left; reflexivity | left; reflexivity].
Defined.
